(** * Emotion scoring and retrieval: a model of the crawler and recommender

    The development follows the two Python modules of the repository:

    - [Top_250_crawler.py]: the lexicon emotion scorer
      ([analyze_movie_emotion], [fallback_emotion_analysis]), the tag generator
      ([generate_mood_tags]) and the exporters ([save_emotion_vectors]); the
      listing, the reviews and their sentiment ([get_top_rated_movies],
      [get_movie_reviews], [analyze_review_sentiment]), the batch
      ([crawl_top_rated_movies]) and the files written from it
      ([save_enhanced_csv], [get_emotion_vector_string], [save_statistics]);
    - [emotion_movie_recommender.py]: the JSON loader, the index
      ([extract_emotion_vectors]) and the three searches
      ([semantic_search], [emotion_search], [hybrid_search]) with the query
      analyser ([extract_emotions_from_query]); the CSV loader
      ([load_movies_from_csv]) and the result card ([print_movie_results]).

    Conventions of the model.
    - A Python [str] is a list of Unicode code points ([pystr]); the literals of
      the source are written in UTF-8 and decoded by [u].
    - A Python [dict] is an insertion-ordered association list ([Dict.t]):
      iteration order is insertion order, assignment to an existing key keeps
      its position.
    - A Python [float] is read as the rational number it denotes ([Q]), and
      [double] rounds a rational to the nearest double.  The quotients the
      scorer, the JSON loader and the query analyser take are doubles, and so
      are the literals of the query analyser.  [round(x, 3)] is the multiple
      of 1/1000 nearest to the double [x], ties to even; the double it
      returns, like a literal of up to three decimals it is compared with, is
      read as that decimal.  The total of the JSON loader is the sum of the
      values, infinite when a partial sum leaves the range of the doubles.
      The sentiment scores, the averages and percentages of the exports and
      the weighted sums of the hybrid search are taken in exact arithmetic.
    - Library calls whose result the source does not determine (Unicode case
      and word tables, the iteration order of a [set], the embedding model,
      [torch.topk], [numpy.argsort], [sklearn]'s cosine similarity) are fields
      of the classes [Unicode], [PySet] and [Numerics]; theorems hold for every
      instance, closed examples are evaluated at the instances of
      [Module Reference].
    - The answers of the HTTP requests of a crawl are variables of the
      sections that use them; [float(text)] and [format(x, '.nf')] are fields
      of the class [PyFloat], with [Decimals.decimal_numbers] as the instance
      of the closed examples.  The CSV files are modelled by the text of their
      cells, not by the reader and writer of pandas. *)

From Stdlib Require String Ascii.
From Stdlib Require Import List Bool Arith ZArith NArith.
From Stdlib Require Import QArith Qabs Qround Lia Lqa Permutation Sorted.
Import ListNotations String.StringSyntax.

Close Scope Q_scope.
Open Scope list_scope.
Open Scope nat_scope.

(** ** Python strings *)

Definition codepoint := N.
Definition pystr := list codepoint.

(** UTF-8 decoding of the literals: [need] continuation bytes are still
    expected for the code point accumulated in [acc]. *)
Fixpoint utf8_decode (bytes : list N) (acc : N) (need : nat) : pystr :=
  match bytes with
  | [] => []
  | b :: rest =>
    match need with
    | O =>
      if (b <? 128)%N then b :: utf8_decode rest 0%N 0
      else if (b <? 224)%N then utf8_decode rest (N.land b 31) 1
      else if (b <? 240)%N then utf8_decode rest (N.land b 15) 2
      else utf8_decode rest (N.land b 7) 3
    | S k =>
      let acc' := N.lor (N.shiftl acc 6) (N.land b 63) in
      match k with
      | O => acc' :: utf8_decode rest 0%N 0
      | S _ => utf8_decode rest acc' k
      end
    end
  end.

Definition u (s : String.string) : pystr :=
  utf8_decode (map Ascii.N_of_ascii (String.list_ascii_of_string s)) 0%N 0.

Fixpoint str_eqb (a b : pystr) : bool :=
  match a, b with
  | [], [] => true
  | x :: a', y :: b' => N.eqb x y && str_eqb a' b'
  | _, _ => false
  end.

(** [sep.join(parts)] *)
Fixpoint join (sep : pystr) (parts : list pystr) : pystr :=
  match parts with
  | [] => []
  | [p] => p
  | p :: rest => p ++ sep ++ join sep rest
  end.

(** [p] is a prefix of [s] *)
Fixpoint is_prefix (p s : pystr) : bool :=
  match p, s with
  | [], _ => true
  | a :: p', b :: s' => N.eqb a b && is_prefix p' s'
  | _ :: _, [] => false
  end.

(** [sub in text] *)
Fixpoint contains (sub text : pystr) : bool :=
  is_prefix sub text ||
  match text with
  | [] => false
  | _ :: rest => contains sub rest
  end.

(** Occurrences of a non-empty [sub] counted left to right without overlap:
    after a match the next [length sub - 1] positions are skipped. *)
Fixpoint count_from (sub text : pystr) (skip : nat) : nat :=
  match text with
  | [] => 0
  | _ :: rest =>
    match skip with
    | S k => count_from sub rest k
    | O =>
      if is_prefix sub text then S (count_from sub rest (length sub - 1))
      else count_from sub rest 0
    end
  end.

(** [text.count(sub)] *)
Definition str_count (text sub : pystr) : nat :=
  match sub with
  | [] => S (length text)
  | _ :: _ => count_from sub text 0
  end.

(** [any(word in text for word in words)] *)
Definition any_in (words : list pystr) (text : pystr) : bool :=
  existsb (fun w => contains w text) words.

(** The Unicode tables behind [str.lower()] and the regular-expression class
    [\w]. *)
Class Unicode := {
  lower : pystr -> pystr;
  is_word : codepoint -> bool
}.

Section Regex.
Context `{Unicode}.

Definition is_word_at (c : option codepoint) : bool :=
  match c with
  | Some c => is_word c
  | None => false
  end.

(** [\b] between two neighbouring positions; [None] is an end of the text. *)
Definition boundary (before after : option codepoint) : bool :=
  xorb (is_word_at before) (is_word_at after).

(** [len(re.findall(r'\b' + re.escape(word) + r'\b', text))] for a non-empty
    literal [word]: the scan goes left to right, [prev] is the code point
    before the current position, and a match consumes [length word] code
    points. *)
Fixpoint findall_word (word : pystr) (prev : option codepoint)
  (text : pystr) (skip : nat) : nat :=
  match text with
  | [] => 0
  | c :: rest =>
    match skip with
    | S k => findall_word word (Some c) rest k
    | O =>
      if is_prefix word text
         && boundary prev (Some c)
         && boundary (nth_error word (length word - 1))
                     (nth_error text (length word))
      then S (findall_word word (Some c) rest (length word - 1))
      else findall_word word (Some c) rest 0
    end
  end.

Definition re_findall_word (word text : pystr) : nat :=
  findall_word word None text 0.

End Regex.

(** ** Python dictionaries *)

(** Keys are compared by a boolean equality that decides [=]. *)
Class EqKey (K : Type) := {
  key_eqb : K -> K -> bool;
  key_eqb_eq : forall a b, key_eqb a b = true <-> a = b
}.

Lemma str_eqb_eq (a b : pystr) : str_eqb a b = true <-> a = b.
Proof.
  revert b; induction a as [|x a IH]; intros [|y b]; simpl;
    try (split; [discriminate | congruence]); try tauto.
  rewrite andb_true_iff, N.eqb_eq, IH. split.
  - now intros [-> ->].
  - intros E; now inversion E.
Qed.

#[export] Instance pystr_key : EqKey pystr :=
  {| key_eqb := str_eqb; key_eqb_eq := str_eqb_eq |}.

Module Dict.
Section Defs.
Context {K V : Type} `{EqKey K}.

Definition t := list (K * V).

Fixpoint get (d : t) (k : K) : option V :=
  match d with
  | [] => None
  | (k', v) :: rest => if key_eqb k' k then Some v else get rest k
  end.

(** [d.get(k, dflt)] *)
Definition get_default (d : t) (k : K) (dflt : V) : V :=
  match get d k with
  | Some v => v
  | None => dflt
  end.

(** [k in d] *)
Definition mem (k : K) (d : t) : bool :=
  match get d k with
  | Some _ => true
  | None => false
  end.

(** [d[k] = v] *)
Fixpoint set (d : t) (k : K) (v : V) : t :=
  match d with
  | [] => [(k, v)]
  | (k', v') :: rest =>
    if key_eqb k' k then (k', v) :: rest else (k', v') :: set rest k v
  end.

Definition keys (d : t) : list K := map fst d.
Definition values (d : t) : list V := map snd d.

End Defs.
Arguments t : clear implicits.
End Dict.

Open Scope string_scope.

(** ** Python floats, read as rationals *)

Definition Qnat (n : nat) : Q := inject_Z (Z.of_nat n).

Definition Qlt_bool (a b : Q) : bool := negb (Qle_bool b a).

(** Nearest integer, ties to the even one. *)
Definition round_half_even (x : Q) : Z :=
  let f := Qfloor x in
  match (x - inject_Z f ?= 1 # 2)%Q with
  | Lt => f
  | Gt => (f + 1)%Z
  | Eq => if Z.even f then f else (f + 1)%Z
  end.

(** [round(x, ndigits)] of a double [x]: the decimal with [ndigits] digits
    nearest to what [x] denotes, ties to even.  The call returns the double
    nearest to that decimal, which is read here as the decimal. *)
Definition py_round (x : Q) (ndigits : nat) : Q :=
  let scale := (10 ^ Z.of_nat ndigits)%Z in
  Qred (Qmake (round_half_even (x * inject_Z scale)%Q) (Z.to_pos scale)).

(** [2 ^ e] for an integer [e] of either sign. *)
Definition pow2 (e : Z) : Q :=
  if (e <? 0)%Z then 1 # Z.to_pos (2 ^ (- e)) else inject_Z (2 ^ e).

(** The exponent [e] with [2 ^ e <= |x| < 2 ^ (e + 1)], for [x] other than 0. *)
Definition binade (x : Q) : Z :=
  let n := Z.abs (Qnum x) in
  let d := Zpos (Qden x) in
  let e := (Z.log2 n - Z.log2 d)%Z in
  if Qle_bool (pow2 e) (Qabs x) then e else (e - 1)%Z.

(** The double nearest to [x], ties to the even significand: 53 significant
    bits, and the multiples of [2 ^ -1074] below [2 ^ -1022].  A result of
    [2 ^ 1024] or more stands for an overflow.  The exponent is read off the
    reduced fraction. *)
Definition double (x : Q) : Q :=
  let x := Qred x in
  if Qeq_bool x 0 then 0%Q
  else
    let quantum := pow2 (Z.max (binade x) (- 1022) - 52) in
    Qred (inject_Z (round_half_even (x / quantum)%Q) * quantum)%Q.

(** [a / b] for two integers: the double nearest to the quotient. *)
Definition true_divide (a b : nat) : Q := double (Qnat a / Qnat b)%Q.

(** The value printed with three decimals as [k / 1000]. *)
Definition thousandths (k : Z) : Q := Qred (k # 1000).

(** The sum of [xs]. *)
Definition Qsum (xs : list Q) : Q := fold_left Qplus xs 0%Q.

(** A float total: finite, or one of the two infinities. *)
Inductive float_total :=
| Finite (total : Q)
| Infinity
| MinusInfinity.

(** The least magnitude that rounds to an infinity: [2 ^ 1024 - 2 ^ 970]. *)
Definition double_overflow : Q := inject_Z (2 ^ 1024 - 2 ^ 970).

(** [sum(values)] of floats, added from left to right starting from [acc]:
    the first partial sum that leaves the range of the doubles makes the
    total infinite, whatever finite values follow.  A total that stays in
    range is taken as the exact sum; the rounding of each addition, a few
    units in its last place, is left out. *)
Fixpoint float_sum_from (acc : Q) (values : list Q) : float_total :=
  match values with
  | [] => Finite acc
  | value :: rest =>
    let acc := (acc + value)%Q in
    if Qle_bool double_overflow acc then Infinity
    else if Qle_bool acc (- double_overflow) then MinusInfinity
    else float_sum_from acc rest
  end.

Definition float_sum (values : list Q) : float_total := float_sum_from 0%Q values.

(** [total > 0] *)
Definition positive_total (total : float_total) : bool :=
  match total with
  | Finite t => Qlt_bool 0 t
  | Infinity => true
  | MinusInfinity => false
  end.

(** [value / total] for a finite [value] and a [total] other than 0: the
    double nearest to the quotient, and 0 over an infinite total. *)
Definition float_divide (value : Q) (total : float_total) : Q :=
  match total with
  | Finite t => double (value / t)%Q
  | Infinity | MinusInfinity => 0%Q
  end.

Definition nat_sum (xs : list nat) : nat := fold_left Nat.add xs 0.

(** ** Stable sorting, as [sorted(..., key=..., reverse=True)] does it:
    elements with equal keys keep their input order. *)

Section SortedDesc.
Context {A : Type} (key : A -> Q).

(** [x] stood before every element of [l] in the input. *)
Fixpoint insert_desc (x : A) (l : list A) : list A :=
  match l with
  | [] => [x]
  | y :: rest =>
    if Qle_bool (key y) (key x) then x :: l else y :: insert_desc x rest
  end.

Definition sorted_desc (l : list A) : list A := fold_right insert_desc [] l.

(** [max(l, key=key)]: the first element with the greatest key. *)
Definition max_by (l : list A) : option A :=
  match l with
  | [] => None
  | x :: rest =>
    Some (fold_left (fun best y => if Qlt_bool (key best) (key y) then y else best)
                    rest x)
  end.

End SortedDesc.

(** [list(set(xs))]: the distinct elements of [xs], in an order the language
    does not fix. *)
Class PySet := {
  set_order : list pystr -> list pystr;
  set_order_NoDup : forall xs, NoDup (set_order xs);
  set_order_In : forall xs x, In x (set_order xs) <-> In x xs
}.

(** [l[:k]] and [l[k:]] for a Python integer [k]; a negative bound counts from
    the end. *)
Definition slice_to {A : Type} (l : list A) (k : Z) : list A :=
  if (k <? 0)%Z then firstn (length l - Z.to_nat (- k)) l
  else firstn (Z.to_nat k) l.

Definition slice_from {A : Type} (l : list A) (k : Z) : list A :=
  if (k <? 0)%Z then skipn (length l - Z.to_nat (- k)) l
  else skipn (Z.to_nat k) l.

(** [sorted(xs)] on strings: code-point lexicographic order. *)
Fixpoint str_leb (a b : pystr) : bool :=
  match a, b with
  | [], _ => true
  | _ :: _, [] => false
  | x :: a', y :: b' =>
    if (x <? y)%N then true
    else if (y <? x)%N then false
    else str_leb a' b'
  end.

Fixpoint insert_str (x : pystr) (l : list pystr) : list pystr :=
  match l with
  | [] => [x]
  | y :: rest => if str_leb x y then x :: l else y :: insert_str x rest
  end.

Definition sorted_strings (l : list pystr) : list pystr :=
  fold_right insert_str [] l.

(** * The crawler: [TMDBTopRatedCrawler] *)

Module Crawler.

(** [self.emotion_lexicon] *)
Definition emotion_lexicon : list (pystr * list pystr) :=
  [ (u "joy",
      [ u "happy"; u "joy"; u "fun"; u "funny"; u "laughter"; u "smile";
        u "cheerful"; u "delight"; u "euphoria"; u "bliss"; u "elation";
        u "glee"; u "喜剧"; u "欢乐"; u "开心"; u "愉快" ]);
    (u "sadness",
      [ u "sad"; u "sadness"; u "grief"; u "sorrow"; u "melancholy";
        u "depression"; u "tear"; u "cry"; u "mourn"; u "heartbreak";
        u "despair"; u "misery"; u "悲剧"; u "悲伤"; u "难过"; u "忧郁" ]);
    (u "anger",
      [ u "anger"; u "angry"; u "rage"; u "fury"; u "wrath"; u "outrage";
        u "frustration"; u "resentment"; u "hostility"; u "irritation";
        u "annoyance"; u "愤怒"; u "生气"; u "怒火" ]);
    (u "fear",
      [ u "fear"; u "scary"; u "terror"; u "horror"; u "dread"; u "panic";
        u "anxiety"; u "fright"; u "apprehension"; u "trepidation";
        u "phobia"; u "恐惧"; u "恐怖"; u "害怕" ]);
    (u "love",
      [ u "love"; u "romance"; u "passion"; u "affection"; u "adore";
        u "cherish"; u "devotion"; u "intimacy"; u "tenderness";
        u "fondness"; u "infatuation"; u "爱情"; u "浪漫"; u "温馨"; u "甜蜜" ]);
    (u "hope",
      [ u "hope"; u "hopeful"; u "optimism"; u "faith"; u "confidence";
        u "expectation"; u "aspiration"; u "dream"; u "wish";
        u "anticipation"; u "希望"; u "梦想"; u "期待" ]);
    (u "loneliness",
      [ u "lonely"; u "loneliness"; u "isolated"; u "solitude"; u "alone";
        u "abandoned"; u "desolate"; u "secluded"; u "forsaken"; u "孤独";
        u "孤单"; u "寂寞" ]);
    (u "inspiration",
      [ u "inspire"; u "inspiring"; u "motivation"; u "encouraging";
        u "uplifting"; u "empowering"; u "moving"; u "touching"; u "励志";
        u "鼓舞"; u "激励" ]);
    (u "tension",
      [ u "tense"; u "tension"; u "suspense"; u "thrilling";
        u "nerve-racking"; u "nail-biting"; u "edge-of-seat"; u "anxious";
        u "stressful"; u "紧张"; u "悬疑"; u "惊悚" ]);
    (u "peace",
      [ u "peace"; u "peaceful"; u "calm"; u "serene"; u "tranquil";
        u "relaxed"; u "quiet"; u "soothing"; u "placid"; u "composed";
        u "平静"; u "安宁"; u "宁静" ]) ].

(** The lexicon of the fallback analysis. *)
Definition extended_emotion_lexicon : list (pystr * list pystr) :=
  [ (u "joy",
      [ u "happy"; u "joy"; u "fun"; u "funny"; u "laughter"; u "smile";
        u "cheerful"; u "delight"; u "euphoria"; u "bliss"; u "elation";
        u "glee"; u "comic"; u "humor"; u "lighthearted"; u "喜剧"; u "欢乐";
        u "开心"; u "愉快"; u "搞笑"; u "幽默" ]);
    (u "sadness",
      [ u "sad"; u "sadness"; u "grief"; u "sorrow"; u "melancholy";
        u "depression"; u "tear"; u "cry"; u "mourn"; u "heartbreak";
        u "despair"; u "misery"; u "tragedy"; u "loss"; u "death";
        u "dying"; u "grave"; u "funeral"; u "悲剧"; u "悲伤"; u "难过" ]);
    (u "anger",
      [ u "anger"; u "angry"; u "rage"; u "fury"; u "wrath"; u "outrage";
        u "frustration"; u "resentment"; u "hostility"; u "irritation";
        u "annoyance"; u "violence"; u "fight"; u "war"; u "conflict";
        u "battle"; u "愤怒"; u "生气"; u "怒火"; u "暴力" ]);
    (u "fear",
      [ u "fear"; u "scary"; u "terror"; u "horror"; u "dread"; u "panic";
        u "anxiety"; u "fright"; u "apprehension"; u "trepidation";
        u "phobia"; u "monster"; u "ghost"; u "haunted"; u "supernatural";
        u "恐惧"; u "恐怖"; u "害怕"; u "惊吓" ]);
    (u "love",
      [ u "love"; u "romance"; u "passion"; u "affection"; u "adore";
        u "cherish"; u "devotion"; u "intimacy"; u "tenderness";
        u "fondness"; u "infatuation"; u "relationship"; u "couple";
        u "marriage"; u "wedding"; u "爱情"; u "浪漫"; u "温馨" ]);
    (u "hope",
      [ u "hope"; u "hopeful"; u "optimism"; u "faith"; u "confidence";
        u "expectation"; u "aspiration"; u "dream"; u "wish";
        u "anticipation"; u "future"; u "better"; u "improve"; u "recover";
        u "heal"; u "希望"; u "梦想"; u "期待"; u "信念" ]);
    (u "loneliness",
      [ u "lonely"; u "loneliness"; u "isolated"; u "solitude"; u "alone";
        u "abandoned"; u "desolate"; u "secluded"; u "forsaken"; u "孤独";
        u "孤单" ]);
    (u "tension",
      [ u "tense"; u "tension"; u "suspense"; u "thrilling";
        u "nerve-racking"; u "nail-biting"; u "edge-of-seat"; u "anxious";
        u "stressful"; u "紧张"; u "悬疑" ]);
    (u "peace",
      [ u "peace"; u "peaceful"; u "calm"; u "serene"; u "tranquil";
        u "relaxed"; u "quiet"; u "soothing"; u "placid"; u "composed";
        u "平静"; u "安宁"; u "宁静" ]);
    (u "inspiration",
      [ u "inspire"; u "inspiring"; u "motivation"; u "encouraging";
        u "uplifting"; u "empowering"; u "moving"; u "touching"; u "励志";
        u "鼓舞" ]) ].

Definition genre_emotion_map : Dict.t pystr pystr :=
  [ (u "喜剧", u "joy"); (u "喜剧片", u "joy"); (u "Comedy", u "joy");
    (u "剧情", u "sadness"); (u "剧情片", u "sadness");
    (u "Drama", u "sadness"); (u "恐怖", u "fear"); (u "恐怖片", u "fear");
    (u "Horror", u "fear"); (u "爱情", u "love"); (u "爱情片", u "love");
    (u "Romance", u "love"); (u "科幻", u "hope"); (u "科幻片", u "hope");
    (u "Science Fiction", u "hope"); (u "惊悚", u "tension");
    (u "惊悚片", u "tension"); (u "Thriller", u "tension");
    (u "动作", u "tension"); (u "动作片", u "tension");
    (u "Action", u "tension"); (u "冒险", u "joy"); (u "冒险片", u "joy");
    (u "Adventure", u "joy"); (u "动画", u "joy"); (u "动画片", u "joy");
    (u "Animation", u "joy"); (u "家庭", u "joy"); (u "家庭片", u "joy");
    (u "Family", u "joy"); (u "战争", u "fear"); (u "战争片", u "fear");
    (u "War", u "fear"); (u "犯罪", u "anger"); (u "犯罪片", u "anger");
    (u "Crime", u "anger"); (u "悬疑", u "tension"); (u "悬疑片", u "tension");
    (u "Mystery", u "tension") ].

Definition known_movie_emotions : list (pystr * Dict.t pystr nat) :=
  [ (u "教父", [ (u "tension", 3); (u "anger", 2); (u "sadness", 2) ]);
    (u "教父2", [ (u "tension", 3); (u "anger", 2); (u "sadness", 3) ]);
    (u "辛德勒的名单", [ (u "sadness", 4); (u "hope", 2); (u "inspiration", 3) ]);
    (u "肖申克的救赎", [ (u "hope", 4); (u "sadness", 2); (u "inspiration", 3) ]);
    (u "盗梦空间", [ (u "tension", 3); (u "hope", 2); (u "fear", 1) ]);
    (u "阿甘正传", [ (u "hope", 3); (u "joy", 2); (u "inspiration", 3) ]);
    (u "泰坦尼克号", [ (u "love", 4); (u "sadness", 3); (u "fear", 2) ]);
    (u "美丽人生", [ (u "hope", 3); (u "joy", 2); (u "sadness", 3) ]);
    (u "钢琴家", [ (u "sadness", 4); (u "fear", 3); (u "hope", 2) ]);
    (u "拯救大兵瑞恩", [ (u "fear", 3); (u "anger", 2); (u "hope", 2) ]);
    (u "指环王", [ (u "hope", 3); (u "joy", 2); (u "tension", 2) ]);
    (u "哈利波特", [ (u "joy", 3); (u "fear", 2); (u "hope", 2) ]);
    (u "星球大战", [ (u "hope", 3); (u "joy", 2); (u "tension", 2) ]);
    (u "黑客帝国", [ (u "tension", 3); (u "hope", 2); (u "fear", 1) ]);
    (u "沉默的羔羊", [ (u "fear", 4); (u "tension", 3); (u "anger", 1) ]);
    (u "低俗小说", [ (u "joy", 3); (u "tension", 2); (u "anger", 1) ]);
    (u "飞越疯人院", [ (u "hope", 3); (u "sadness", 2); (u "anger", 2) ]);
    (u "闪灵", [ (u "fear", 4); (u "tension", 3); (u "anger", 1) ]);
    (u "公民凯恩", [ (u "sadness", 3); (u "anger", 2); (u "hope", 1) ]);
    (u "七武士", [ (u "tension", 3); (u "hope", 2); (u "sadness", 2) ]) ].

Record analysis := {
  emotion_profile : Dict.t pystr Q;
  dominant_emotions : list pystr;
  mood_tags : list pystr;
  emotional_complexity : nat
}.

Section Scorer.
Context `{Unicode} `{PySet}.

(** The contribution of one lexicon word to its category: short words are
    matched between word boundaries, longer ones counted as substrings, twice
    when longer than four code points. *)
Definition keyword_score (word text : pystr) : nat :=
  if length word <=? 3 then re_findall_word word text
  else str_count text word * (if 4 <? length word then 2 else 1).

Definition category_score (words : list pystr) (text : pystr) : nat :=
  fold_left (fun score word => score + keyword_score word text) words 0.

(** The main loop of [analyze_movie_emotion] over [lexicon]: the scores of the
    categories that matched, and their running total. *)
Definition primary_scores (lexicon : list (pystr * list pystr))
  (text : pystr) : Dict.t pystr nat * nat :=
  fold_left
    (fun acc entry =>
       let score := category_score (snd entry) text in
       if 0 <? score
       then (Dict.set (fst acc) (fst entry) score, snd acc + score)
       else acc)
    lexicon ([], 0).

(** Strategy 1 of the fallback: the extended lexicon over tagline and
    overview, each word counted once. *)
Definition extended_word_score (word title_text : pystr) : nat :=
  if contains word title_text then (if 4 <? length word then 2 else 1) else 0.

Definition extended_scores (title_text : pystr) : Dict.t pystr nat :=
  fold_left
    (fun scores entry =>
       let score :=
         fold_left (fun sc word => sc + extended_word_score word title_text)
                   (snd entry) 0 in
       if 0 <? score then Dict.set scores (fst entry) score else scores)
    extended_emotion_lexicon [].

(** [scores[emotion] = scores.get(emotion, 0) + n] *)
Definition bump (scores : Dict.t pystr nat) (emotion : pystr) (n : nat) : Dict.t pystr nat :=
  Dict.set scores emotion (Dict.get_default scores emotion 0 + n).

(** Strategy 2: the genre table, consulted when [genres] is given and nothing
    has been scored yet. *)
Definition genre_scores (genres : option (list pystr)) (scores : Dict.t pystr nat)
  : Dict.t pystr nat :=
  match genres, scores with
  | Some ((_ :: _) as gs), [] =>
    fold_left
      (fun sc genre =>
         match Dict.get genre_emotion_map genre with
         | Some ((_ :: _) as emotion) => bump sc emotion 2
         | _ => sc
         end)
      gs scores
  | _, _ => scores
  end.

(** Strategy 3: the first listed title found in the overview adds its scores
    to those already there. *)
Fixpoint known_movie_scores (table : list (pystr * Dict.t pystr nat))
  (title_lower : pystr) (scores : Dict.t pystr nat) : Dict.t pystr nat :=
  match table with
  | [] => scores
  | (known_title, emotions) :: rest =>
    if contains known_title title_lower
    then fold_left (fun sc e => bump sc (fst e) (snd e)) emotions scores
    else known_movie_scores rest title_lower scores
  end.

(** Strategy 4: text length and trigger words, then the default distribution,
    when there is still no score. *)
Definition default_scores (overview tagline title_text : pystr)
  (scores : Dict.t pystr nat) : Dict.t pystr nat :=
  match scores with
  | _ :: _ => scores
  | [] =>
    if length overview + length tagline <? 50
    then [(u "hope", 2); (u "inspiration", 1); (u "joy", 1)]
    else if any_in [u "war"; u "battle"; u "fight"; u "战争"; u "战斗"] title_text
    then [(u "fear", 3); (u "tension", 2); (u "anger", 1)]
    else if any_in [u "love"; u "romance"; u "爱"; u "爱情"] title_text
    then [(u "love", 4); (u "joy", 2); (u "hope", 1)]
    else if any_in [u "death"; u "die"; u "dead"; u "死亡"; u "死去"] title_text
    then [(u "sadness", 4); (u "hope", 1); (u "inspiration", 1)]
    else [(u "hope", 2); (u "inspiration", 2); (u "joy", 1); (u "sadness", 1)]
  end.

Definition fallback_emotion_analysis (overview tagline : pystr)
  (keywords : list pystr) (genres : option (list pystr)) : Dict.t pystr nat :=
  let title_text := lower (tagline ++ u " " ++ overview) in
  let emotion_scores := extended_scores title_text in
  let emotion_scores := genre_scores genres emotion_scores in
  let title_lower := match overview with [] => [] | _ :: _ => lower overview end in
  let emotion_scores :=
    known_movie_scores known_movie_emotions title_lower emotion_scores in
  default_scores overview tagline title_text emotion_scores.

Definition generate_mood_tags (emotion_profile : Dict.t pystr Q) : list pystr :=
  match emotion_profile with
  | [] => [u "情感丰富"; u "引人深思"; u "值得一看"]
  | _ :: _ =>
    let has e := Dict.mem e emotion_profile in
    let val e := Dict.get_default emotion_profile e 0%Q in
    let tags :=
      flat_map
        (fun entry =>
           if Qle_bool (15 # 100) (snd entry) then [u "非常" ++ fst entry]
           else if Qle_bool (5 # 100) (snd entry) then [u "有些" ++ fst entry]
           else [])
        emotion_profile in
    let tags :=
      if has (u "joy") && has (u "love")
         && (Qlt_bool (1 # 10) (val (u "joy")) && Qlt_bool (1 # 10) (val (u "love")))
      then tags ++ [u "温暖治愈"] else tags in
    let tags :=
      if has (u "sadness") && has (u "hope")
         && (Qlt_bool (1 # 10) (val (u "sadness")) && Qlt_bool (5 # 100) (val (u "hope")))
      then tags ++ [u "悲伤但充满希望"] else tags in
    let tags :=
      if has (u "fear") && Qlt_bool (15 # 100) (val (u "fear"))
      then tags ++ [u "紧张刺激"] else tags in
    let tags :=
      if has (u "peace") && Qlt_bool (1 # 10) (val (u "peace"))
      then tags ++ [u "心灵平静"] else tags in
    let tags :=
      if has (u "inspiration") && Qlt_bool (1 # 10) (val (u "inspiration"))
      then tags ++ [u "励志感人"] else tags in
    let tags :=
      if length tags <? 2 then
        match max_by snd emotion_profile with
        | None => tags
        | Some (max_emotion, _) =>
          if existsb (str_eqb max_emotion) [u "joy"; u "love"]
          then tags ++ [u "情感丰富"; u "值得推荐"]
          else if existsb (str_eqb max_emotion) [u "sadness"; u "fear"; u "tension"]
          then tags ++ [u "引人深思"; u "情感强烈"]
          else tags ++ [u "情感真挚"; u "值得一看"]
        end
      else tags in
    firstn 6 (set_order tags)
  end.

(** Step 1 and 2 of [analyze_movie_emotion]: the primary scores, or the
    fallback's with their sum when the lexicon matched nothing. *)
Definition combined_text (overview tagline : pystr) (keywords : list pystr)
  : pystr :=
  lower (tagline ++ u " " ++ overview ++ u " " ++ join (u " ") keywords).

Definition emotion_scores_of (overview tagline : pystr)
  (keywords : list pystr) (genres : option (list pystr)) : Dict.t pystr nat * nat :=
  let primary :=
    primary_scores emotion_lexicon (combined_text overview tagline keywords) in
  match fst primary with
  | [] =>
    let emotion_scores :=
      fallback_emotion_analysis overview tagline keywords genres in
    (emotion_scores, nat_sum (Dict.values emotion_scores))
  | _ :: _ => primary
  end.

(** Step 3: every score divided by the total, two integers, and the double
    that gives rounded to three places. *)
Definition normalize (emotion_scores : Dict.t pystr nat) (total_score : nat)
  : Dict.t pystr Q :=
  if 0 <? total_score
  then fold_left
         (fun acc e =>
            Dict.set acc (fst e) (py_round (true_divide (snd e) total_score) 3))
         emotion_scores []
  else [].

(** Step 4: the first three of the profile by falling score, kept when above
    0.1. *)
Definition dominant_of (normalized_scores : Dict.t pystr Q) : list pystr :=
  map fst
    (filter (fun e => Qlt_bool (1 # 10) (snd e))
            (firstn 3 (sorted_desc snd normalized_scores))).

Definition analyze_movie_emotion (overview tagline : pystr)
  (keywords : list pystr) (genres : option (list pystr)) : analysis :=
  let scores := emotion_scores_of overview tagline keywords genres in
  let normalized_scores := normalize (fst scores) (snd scores) in
  {| emotion_profile := normalized_scores;
     dominant_emotions := dominant_of normalized_scores;
     mood_tags := generate_mood_tags normalized_scores;
     emotional_complexity := length normalized_scores |}.

End Scorer.

(** What the fetcher hands to the scorer: a catalog item and, when the detail
    request succeeded, its detail record. *)
Record catalog_item := {
  item_id : Z;
  item_title : pystr;
  item_overview : pystr
}.

Record item_detail := {
  detail_genres : list pystr;
  detail_tagline : pystr;
  detail_keywords : list pystr
}.

(** The merged record of [crawl_top_rated_movies], as far as scoring and
    export read it. *)
Record movie_data := {
  id : Z;
  title : pystr;
  overview : pystr;
  tagline : pystr;
  genres : list pystr;
  keywords : list pystr;
  md_emotion_profile : Dict.t pystr Q;
  md_dominant_emotions : list pystr;
  md_mood_tags : list pystr;
  md_emotional_complexity : nat
}.

Section Batch.
Context `{Unicode} `{PySet}.

(** One turn of the loop of [crawl_top_rated_movies]; a failed detail request
    leaves the defaults of [details.get]. *)
Definition merge_record (movie : catalog_item) (details : option item_detail)
  : movie_data :=
  let tagline := match details with Some d => detail_tagline d | None => [] end in
  let keywords := match details with Some d => detail_keywords d | None => [] end in
  let genres := match details with Some d => detail_genres d | None => [] end in
  let emotion_analysis :=
    analyze_movie_emotion (item_overview movie) tagline keywords (Some genres) in
  {| id := item_id movie;
     title := item_title movie;
     overview := item_overview movie;
     tagline := tagline;
     genres := genres;
     keywords := keywords;
     md_emotion_profile := emotion_profile emotion_analysis;
     md_dominant_emotions := dominant_emotions emotion_analysis;
     md_mood_tags := mood_tags emotion_analysis;
     md_emotional_complexity := emotional_complexity emotion_analysis |}.

Definition crawl_records (fetched : list (catalog_item * option item_detail))
  : list movie_data :=
  map (fun f => merge_record (fst f) (snd f)) fetched.

(** [save_emotion_vectors]: the emotion columns of the header, and for each
    record its id, title and one cell per column. *)
Definition emotion_columns (data : list movie_data) : list pystr :=
  sorted_strings
    (set_order (flat_map (fun m => Dict.keys (md_emotion_profile m)) data)).

Definition save_emotion_vectors (data : list movie_data)
  : list pystr * list (Z * pystr * list Q) :=
  let columns := emotion_columns data in
  ([u "movie_id"; u "title"; u "year"; u "rank"] ++ columns,
   map (fun m =>
          (id m, title m,
           map (fun e => Dict.get_default (md_emotion_profile m) e 0%Q) columns))
       data).

End Batch.

End Crawler.

(** * The recommender: [EmotionMovieRecommender] *)

Module Recommender.

(** Exceptions that leave a search. *)
Inductive outcome (A : Type) :=
| Ok (a : A)
| ValueError       (* raised by a search when nothing is indexed yet, and by
                      [cosine_similarity] on a matrix without rows *)
| RuntimeError.    (* raised by [torch.topk] on a negative [k] *)
Arguments Ok {A} a.
Arguments ValueError {A}.
Arguments RuntimeError {A}.

(** The value of [movie['id']]: a JSON number or a JSON string. *)
Inductive movie_id :=
| IntId (n : Z)
| StrId (s : pystr).

Definition movie_id_eqb (a b : movie_id) : bool :=
  match a, b with
  | IntId n, IntId m => (n =? m)%Z
  | StrId s, StrId r => str_eqb s r
  | _, _ => false
  end.

Lemma movie_id_eqb_eq (a b : movie_id) : movie_id_eqb a b = true <-> a = b.
Proof.
  destruct a, b; simpl; try (split; [discriminate | congruence]).
  - rewrite Z.eqb_eq. split; congruence.
  - rewrite str_eqb_eq. split; congruence.
Qed.

#[export] Instance movie_id_key : EqKey movie_id :=
  {| key_eqb := movie_id_eqb; key_eqb_eq := movie_id_eqb_eq |}.

(** An indexed record.  The descriptive fields (plot, year, genres, ...) only
    feed the text handed to the encoder and are not kept apart here. *)
Record movie := {
  id : movie_id;
  title : pystr;
  emotion_profile : Dict.t pystr Q;
  mood_tags : list pystr;
  dominant_emotions : list pystr;
  emotional_complexity : nat
}.

(** The sentence encoder, torch, numpy and scikit-learn.  [movie_text] is the
    text [prepare_movie_texts] builds for the encoder; [cos_sim] and
    [cosine_similarity] give one entry of the similarity row.  The order of
    equal values in [argsort] and [topk] is left open, as the libraries leave
    it.  On an index without records [cosine_similarity] raises [ValueError];
    what the encoder and torch do there is not modelled, and every statement
    about the semantic and the hybrid search is made for a non-empty index. *)
Class Numerics := {
  embedding : Type;
  movie_text : movie -> pystr;
  encode : pystr -> embedding;
  cos_sim : embedding -> embedding -> Q;
  linalg_norm : list Q -> Q;
  cosine_similarity : list Q -> list Q -> Q;
  (** [xs.argsort()]: the indices of [xs], values ascending *)
  argsort : list Q -> list nat;
  argsort_perm : forall xs, Permutation (argsort xs) (seq 0 (length xs));
  argsort_sorted : forall xs,
    StronglySorted (fun i j => (nth i xs 0 <= nth j xs 0)%Q) (argsort xs);
  (** [xs.topk(k).indices] for [k <= len(xs)]: the first [k] indices of some
      arrangement of all indices with values descending *)
  topk : list Q -> nat -> list nat;
  topk_spec : forall xs k, k <= length xs ->
    exists order,
      Permutation order (seq 0 (length xs))
      /\ StronglySorted (fun i j => (nth j xs 0 <= nth i xs 0)%Q) order
      /\ topk xs k = firstn k order
}.

(** [self.emotion_mapping] *)
Definition emotion_mapping : Dict.t pystr pystr :=
  [ (u "joy", u "joy"); (u "sadness", u "sadness"); (u "anger", u "anger");
    (u "fear", u "fear"); (u "love", u "love"); (u "hope", u "hope");
    (u "loneliness", u "loneliness"); (u "inspiration", u "inspiration");
    (u "tension", u "tension"); (u "peace", u "peace"); (u "快乐", u "joy");
    (u "开心", u "joy"); (u "高兴", u "joy"); (u "愉快", u "joy");
    (u "欢乐", u "joy"); (u "悲伤", u "sadness"); (u "难过", u "sadness");
    (u "伤心", u "sadness"); (u "忧郁", u "sadness"); (u "愤怒", u "anger");
    (u "生气", u "anger"); (u "怒火", u "anger"); (u "恐惧", u "fear");
    (u "害怕", u "fear"); (u "恐怖", u "fear"); (u "惊吓", u "fear");
    (u "爱", u "love"); (u "爱情", u "love"); (u "浪漫", u "love");
    (u "甜蜜", u "love"); (u "希望", u "hope"); (u "期望", u "hope");
    (u "期待", u "hope"); (u "梦想", u "hope"); (u "孤独", u "loneliness");
    (u "孤单", u "loneliness"); (u "寂寞", u "loneliness");
    (u "励志", u "inspiration"); (u "鼓舞", u "inspiration");
    (u "激励", u "inspiration"); (u "紧张", u "tension");
    (u "刺激", u "tension"); (u "悬疑", u "tension"); (u "惊悚", u "tension");
    (u "平静", u "peace"); (u "安宁", u "peace"); (u "宁静", u "peace");
    (u "祥和", u "peace") ].

(** [self.fixed_emotion_labels] *)
Definition fixed_emotion_labels : list pystr :=
  [ u "joy"; u "sadness"; u "anger"; u "fear"; u "love";
    u "hope"; u "loneliness"; u "inspiration"; u "tension"; u "peace" ].

(** The keyword table of [extract_emotions_from_query]. *)
Definition emotion_keywords : list (pystr * list pystr) :=
  [ (u "joy",
      [ u "快乐"; u "开心"; u "高兴"; u "愉快"; u "欢乐"; u "喜悦"; u "搞笑"; u "幽默";
        u "喜剧" ]);
    (u "sadness",
      [ u "悲伤"; u "难过"; u "伤心"; u "忧郁"; u "哀伤"; u "悲痛"; u "悲剧"; u "伤感" ]);
    (u "anger",
      [ u "愤怒"; u "生气"; u "气愤"; u "怒火"; u "愤慨"; u "恼怒"; u "暴力" ]);
    (u "fear",
      [ u "恐惧"; u "害怕"; u "恐怖"; u "惊吓"; u "惊悚"; u "恐慌"; u "可怕" ]);
    (u "love",
      [ u "爱"; u "爱情"; u "恋爱"; u "浪漫"; u "甜蜜"; u "温馨"; u "感人"; u "温暖" ]);
    (u "hope",
      [ u "希望"; u "期望"; u "盼望"; u "期待"; u "憧憬"; u "向往" ]);
    (u "loneliness",
      [ u "孤独"; u "孤单"; u "寂寞"; u "孤立"; u "独处"; u "疏离" ]);
    (u "inspiration",
      [ u "励志"; u "鼓舞"; u "激励"; u "振奋"; u "奋发"; u "向上" ]);
    (u "tension",
      [ u "紧张"; u "刺激"; u "悬疑"; u "惊险"; u "惊心动魄"; u "扣人心弦" ]);
    (u "peace",
      [ u "平静"; u "安宁"; u "宁静"; u "祥和"; u "安逸"; u "恬静" ]) ].

(** A record of the JSON corpus as [json.load] returns it: a field is [None]
    when the object lacks the key. *)
Record json_movie := {
  json_id : option movie_id;
  json_title : option pystr;
  json_emotion_profile : option (Dict.t pystr Q);
  json_mood_tags : option (list pystr);
  json_dominant_emotions : option (list pystr);
  json_emotional_complexity : option nat
}.

Definition or_default {A : Type} (field : option A) (dflt : A) : A :=
  match field with
  | Some a => a
  | None => dflt
  end.

(** The loader's two loops over the fixed labels: fill in [0.0] for the
    categories the profile lacks, then divide by the total when it is
    positive. *)
Definition zero_fill (emotion_profile : Dict.t pystr Q) : Dict.t pystr Q :=
  fold_left
    (fun fixed emotion =>
       Dict.set fixed emotion (Dict.get_default emotion_profile emotion 0%Q))
    fixed_emotion_labels [].

Definition renormalize (fixed : Dict.t pystr Q) : Dict.t pystr Q :=
  let total := float_sum (Dict.values fixed) in
  if positive_total total
  then fold_left
         (fun acc emotion =>
            Dict.set acc emotion
              (py_round (float_divide (Dict.get_default acc emotion 0%Q) total) 3))
         (Dict.keys fixed) fixed
  else fixed.

Definition fixed_emotion_profile (emotion_profile : Dict.t pystr Q)
  : Dict.t pystr Q :=
  renormalize (zero_fill emotion_profile).

Definition load_movies_from_json (data : list json_movie) : list movie :=
  map (fun m =>
         {| id := or_default (json_id m) (StrId []);
            title := or_default (json_title m) [];
            emotion_profile :=
              fixed_emotion_profile (or_default (json_emotion_profile m) []);
            mood_tags := or_default (json_mood_tags m) [];
            dominant_emotions := or_default (json_dominant_emotions m) [];
            emotional_complexity := or_default (json_emotional_complexity m) 0 |})
      data.

(** [json.dump] of a merged record followed by [json.load]. *)
Definition exported (m : Crawler.movie_data) : json_movie :=
  {| json_id := Some (IntId (Crawler.id m));
     json_title := Some (Crawler.title m);
     json_emotion_profile := Some (Crawler.md_emotion_profile m);
     json_mood_tags := Some (Crawler.md_mood_tags m);
     json_dominant_emotions := Some (Crawler.md_dominant_emotions m);
     json_emotional_complexity := Some (Crawler.md_emotional_complexity m) |}.

(** [max(0.0, min(1.0, x))] *)
Definition clamp01 (x : Q) : Q :=
  let y := if Qlt_bool x 1 then x else 1%Q in
  if Qlt_bool 0 y then y else 0%Q.

(** A result entry: the copy of the record with its two score fields. *)
Record scored := {
  scored_movie : movie;
  semantic_score : Q;
  emotion_score : Q
}.

Definition results := list (scored * Q).

(** The warnings a search prints. *)
Inductive warning :=
| UnknownLabel (label : pystr)   (* the label is not in the emotion dictionary *)
| ZeroTargetVector.              (* the target vector is all zeros *)

Section Index.
Context `{Unicode} `{Numerics}.

(** The attributes of the recommender that the searches read. *)
Record state := {
  movies : list movie;
  semantic_embeddings : option (list embedding);
  emotion_vectors : option (list (list Q));
  emotion_labels : list pystr;
  emotion_profiles : Dict.t movie_id (Dict.t pystr Q)
}.

(** The attributes after [__init__]. *)
Definition initial : state :=
  {| movies := [];
     semantic_embeddings := None;
     emotion_vectors := None;
     emotion_labels := [];
     emotion_profiles := [] |}.

(** The dense profile of one record over [labels], every value clamped to
    [0, 1]. *)
Definition full_profile (labels : list pystr) (m : movie) : Dict.t pystr Q :=
  fold_left
    (fun full emotion =>
       Dict.set full emotion
         (clamp01 (Dict.get_default (emotion_profile m) emotion 0%Q)))
    labels [].

Definition emotion_row (labels : list pystr) (m : movie) : list Q :=
  let full := full_profile labels m in
  map (fun emotion => Dict.get_default full emotion 0%Q) labels.

Definition extract_emotion_vectors (st : state) (ms : list movie) : state :=
  let labels := fixed_emotion_labels in
  {| movies := movies st;
     semantic_embeddings := semantic_embeddings st;
     emotion_vectors := Some (map (emotion_row labels) ms);
     emotion_labels := labels;
     emotion_profiles :=
       fold_left (fun profiles m => Dict.set profiles (id m) (full_profile labels m))
                 ms [] |}.

Definition index_movies (st : state) (ms : list movie) : state :=
  extract_emotion_vectors
    {| movies := ms;
       semantic_embeddings := Some (map (fun m => encode (movie_text m)) ms);
       emotion_vectors := emotion_vectors st;
       emotion_labels := emotion_labels st;
       emotion_profiles := emotion_profiles st |}
    ms.

(** The result list built from the indices a library call returned: the
    record at each index with its similarity. *)
Definition ranked (ms : list movie) (similarities : list Q)
  (with_score : movie -> Q -> scored) (indices : list nat) : results :=
  flat_map
    (fun i =>
       match nth_error ms i with
       | Some m =>
         let score := nth i similarities 0%Q in [(with_score m score, score)]
       | None => []
       end)
    indices.

Definition semantic_search (st : state) (query : pystr) (top_k : Z)
  : outcome (list warning * results) :=
  match semantic_embeddings st with
  | None => ValueError
  | Some embeddings =>
    let query_embedding := encode query in
    let semantic_similarities := map (cos_sim query_embedding) embeddings in
    let top_k := Z.min top_k (Z.of_nat (length (movies st))) in
    if (top_k <? 0)%Z then RuntimeError
    else
      Ok ([],
          ranked (movies st) semantic_similarities
            (fun m score =>
               {| scored_movie := m; semantic_score := score; emotion_score := 0%Q |})
            (topk semantic_similarities (Z.to_nat top_k)))
  end.

(** The first loop of [emotion_search]: labels are mapped through the alias
    table; a mapped label of the index is kept with its intensity clamped, any
    other label is reported. *)
Definition mapped_label (emotion : pystr) : pystr :=
  Dict.get_default emotion_mapping emotion emotion.

Definition known_label (labels : list pystr) (emotion : pystr) : bool :=
  existsb (str_eqb (mapped_label emotion)) labels.

Definition convert_emotions (labels : list pystr) (target_emotions : Dict.t pystr Q)
  : Dict.t pystr Q * list warning :=
  fold_left
    (fun acc entry =>
       if known_label labels (fst entry)
       then (Dict.set (fst acc) (mapped_label (fst entry)) (clamp01 (snd entry)),
             snd acc)
       else (fst acc, snd acc ++ [UnknownLabel (fst entry)]))
    target_emotions ([], []).

(** [labels.index(emotion)] *)
Fixpoint index_of (labels : list pystr) (emotion : pystr) : option nat :=
  match labels with
  | [] => None
  | l :: rest =>
    if str_eqb l emotion then Some 0 else option_map S (index_of rest emotion)
  end.

(** [vector[idx] = x] *)
Fixpoint assign {A : Type} (vector : list A) (idx : nat) (x : A) : list A :=
  match vector, idx with
  | [], _ => []
  | _ :: rest, O => x :: rest
  | y :: rest, S i => y :: assign rest i x
  end.

Definition target_vector_of (labels : list pystr) (converted : Dict.t pystr Q)
  : list Q :=
  fold_left
    (fun vector entry =>
       match index_of labels (fst entry) with
       | Some idx => assign vector idx (snd entry)
       | None => vector
       end)
    converted (repeat 0%Q (length labels)).

(** Division by the norm when it is positive. *)
Definition l2_normalize (vector : list Q) : list Q :=
  let target_norm := linalg_norm vector in
  if Qlt_bool 0 target_norm then map (fun x => (x / target_norm)%Q) vector
  else vector.

Definition all_zero (vector : list Q) : bool :=
  forallb (fun x => Qeq_bool x 0) vector.

Definition emotion_search (st : state) (target_emotions : Dict.t pystr Q)
  (top_k : Z) : outcome (list warning * results) :=
  match emotion_vectors st with
  | None => ValueError
  | Some vectors =>
    let converted := convert_emotions (emotion_labels st) target_emotions in
    let target_vector :=
      l2_normalize (target_vector_of (emotion_labels st) (fst converted)) in
    if all_zero target_vector
    then Ok (snd converted ++ [ZeroTargetVector], [])
    else
      match vectors with
      | [] => ValueError
      | _ :: _ =>
        let emotion_similarities := map (cosine_similarity target_vector) vectors in
        let top_k := Z.min top_k (Z.of_nat (length (movies st))) in
        let top_indices :=
          rev (slice_from (argsort emotion_similarities) (- top_k)) in
        Ok (snd converted,
            ranked (movies st) emotion_similarities
              (fun m score =>
                 {| scored_movie := m; semantic_score := 0%Q;
                    emotion_score := score |})
              top_indices)
      end
  end.

(** [any(word in query for word in words)] and the keyword counters of
    [extract_emotions_from_query].  An intensity is a count divided by the
    total of the counts, or a literal: in both cases a double. *)
Definition count_keywords (query query_lower : pystr)
  (counts : Dict.t pystr nat) (entry : pystr * list pystr) : Dict.t pystr nat :=
  fold_left
    (fun counts keyword =>
       if contains keyword query || contains keyword query_lower
       then Dict.set counts (fst entry) (Dict.get_default counts (fst entry) 0 + 1)
       else counts)
    (snd entry) counts.

Definition emotion_counts (query : pystr) : Dict.t pystr nat :=
  fold_left (count_keywords query (lower query)) emotion_keywords
            (map (fun entry => (fst entry, 0)) emotion_keywords).

Definition extract_emotions_from_query (query : pystr) : Dict.t pystr Q :=
  let counts := emotion_counts query in
  let total_hits := nat_sum (Dict.values counts) in
  if 0 <? total_hits
  then fold_left
         (fun extracted entry =>
            if 0 <? snd entry
            then Dict.set extracted (fst entry) (true_divide (snd entry) total_hits)
            else extracted)
         counts []
  else if any_in [u "孤独"; u "寂寞"; u "无聊"] query
  then [(u "loneliness", double (8 # 10)); (u "sadness", double (2 # 10))]
  else if any_in [u "开心"; u "快乐"; u "高兴"] query
  then [(u "joy", double (8 # 10)); (u "love", double (2 # 10))]
  else if any_in [u "悲伤"; u "难过"; u "伤心"] query
  then [(u "sadness", double (8 # 10)); (u "loneliness", double (2 # 10))]
  else if any_in [u "紧张"; u "刺激"; u "惊悚"] query
  then [(u "tension", double (8 # 10)); (u "fear", double (2 # 10))]
  else if any_in [u "爱情"; u "浪漫"; u "甜蜜"] query
  then [(u "love", double (8 # 10)); (u "joy", double (2 # 10))]
  else [(u "joy", double (3 # 10)); (u "hope", double (3 # 10));
        (u "inspiration", double (4 # 10))].

(** [{movie['id']: score for movie, score in results}] *)
Definition score_table (rs : results) : Dict.t movie_id Q :=
  fold_left (fun table r => Dict.set table (id (scored_movie (fst r))) (snd r))
            rs [].

(** [next((m for m in movies if m['id'] == movie_id), None)] *)
Definition find_movie (ms : list movie) (movie_id : movie_id) : option movie :=
  find (fun m => key_eqb (id m) movie_id) ms.

Definition hybrid_search (st : state) (query : pystr)
  (target_emotions : option (Dict.t pystr Q))
  (semantic_weight emotion_weight : Q) (top_k : Z)
  : outcome (list warning * results) :=
  let target_emotions :=
    match target_emotions with
    | None => extract_emotions_from_query query
    | Some t => t
    end in
  let n := Z.of_nat (length (movies st)) in
  match semantic_search st query n with
  | ValueError => ValueError
  | RuntimeError => RuntimeError
  | Ok (_, semantic_results) =>
    match emotion_search st target_emotions n with
    | ValueError => ValueError
    | RuntimeError => RuntimeError
    | Ok (warnings, emotion_results) =>
      let semantic_scores := score_table semantic_results in
      let emotion_scores := score_table emotion_results in
      let combined_scores :=
        fold_left
          (fun combined m =>
             let semantic_score := Dict.get_default semantic_scores (id m) 0%Q in
             let emotion_score := Dict.get_default emotion_scores (id m) 0%Q in
             Dict.set combined (id m)
               (semantic_score * semantic_weight + emotion_score * emotion_weight)%Q)
          (movies st) [] in
      let sorted_movie_ids := slice_to (sorted_desc snd combined_scores) top_k in
      Ok (warnings,
          flat_map
            (fun entry =>
               match find_movie (movies st) (fst entry) with
               | Some m =>
                 [({| scored_movie := m;
                      semantic_score :=
                        Dict.get_default semantic_scores (fst entry) 0%Q;
                      emotion_score :=
                        Dict.get_default emotion_scores (fst entry) 0%Q |},
                   snd entry)]
               | None => []
               end)
            sorted_movie_ids)
    end
  end.

Definition get_recommendation_by_mood (st : state) (mood_description : pystr)
  (top_k : Z) : outcome (list warning * results) :=
  match extract_emotions_from_query mood_description with
  | [] => semantic_search st mood_description top_k
  | (_ :: _) as target_emotions => emotion_search st target_emotions top_k
  end.

End Index.

End Recommender.

(** * The crawler: listings, reviews and the batch *)

Module Catalog.
Import Crawler.

(** ** Review sentiment: [analyze_review_sentiment] *)

Definition positive_words : list pystr :=
  [ u "good"; u "great"; u "excellent"; u "amazing"; u "wonderful";
    u "love"; u "like"; u "enjoy"; u "best"; u "awesome"; u "推荐"; u "精彩"; u "经典" ].

Definition negative_words : list pystr :=
  [ u "bad"; u "terrible"; u "awful"; u "poor"; u "disappointing";
    u "hate"; u "dislike"; u "worst"; u "boring"; u "糟糕"; u "失望"; u "无聊" ].

(** [{'sentiment': ..., 'score': ...}] *)
Record review_sentiment := {
  sentiment : pystr;
  score : Q
}.

(** [sum(1 for word in words if word in text)] *)
Definition count_present (words : list pystr) (text : pystr) : nat :=
  length (filter (fun word => contains word text) words).

Definition neutral : review_sentiment :=
  {| sentiment := u "neutral"; score := (1 # 2)%Q |}.

Section Sentiment.
Context `{Unicode}.

Definition analyze_review_sentiment (text : pystr) : review_sentiment :=
  match text with
  | [] => neutral
  | _ :: _ =>
    let text_lower := lower text in
    let positive_count := count_present positive_words text_lower in
    let negative_count := count_present negative_words text_lower in
    let total := positive_count + negative_count in
    if total =? 0 then neutral
    else
      let sentiment_score := (Qnat positive_count / Qnat total)%Q in
      {| sentiment :=
           if Qlt_bool (6 # 10) sentiment_score then u "positive"
           else if Qlt_bool sentiment_score (4 # 10) then u "negative"
           else u "neutral";
         score := sentiment_score |}
  end.

(** ** Reviews: [get_movie_reviews] *)

(** An entry of the [results] of the reviews response; a field is [None]
    when the key is missing. *)
Record tmdb_review := {
  tmdb_author : option pystr;
  tmdb_content : option pystr;
  tmdb_created_at : option pystr;
  tmdb_review_id : option pystr
}.

(** The review record of the corpus; its [rating] is always [None]. *)
Record review_data := {
  author : pystr;
  content : pystr;
  created_at : pystr;
  url : pystr;
  source : pystr;
  review_sentiment_of : review_sentiment
}.

Definition field_or {A : Type} (field : option A) (dflt : A) : A :=
  match field with
  | Some a => a
  | None => dflt
  end.

(** [response] is [None] when the request or its decoding raised, and holds
    [data.get('results')] otherwise. *)
Definition get_movie_reviews (response : option (option (list tmdb_review)))
  (max_reviews : Z) : list review_data :=
  match response with
  | None => []
  | Some results =>
    map (fun review =>
           let text := field_or (tmdb_content review) [] in
           {| author := field_or (tmdb_author review) (u "Anonymous");
              content := text;
              created_at := field_or (tmdb_created_at review) [];
              url := u "https://www.themoviedb.org/review/"
                     ++ field_or (tmdb_review_id review) [];
              source := u "tmdb";
              review_sentiment_of := analyze_review_sentiment text |})
        (slice_to (field_or results []) max_reviews)
  end.

End Sentiment.

(** ** Listings: [get_top_rated_movies] *)

(** An entry of a listing page with its rank in the list. *)
Record listed := {
  info : catalog_item;
  top_rated_rank : Z
}.

Section Listing.
(** [R]: the JSON objects of a response, compared as Python compares
    dictionaries; [movie_info] reads the fields of one with [.get]. *)
Context {R : Type} `{EqKey R}.
Variable movie_info : R -> catalog_item.

(** [results.index(movie)]: the position of the first entry equal to
    [movie]; the length of the list when there is none, which does not occur
    for an entry of the list. *)
Fixpoint list_index (results : list R) (movie : R) : nat :=
  match results with
  | [] => 0
  | r :: rest => if key_eqb r movie then 0 else S (list_index rest movie)
  end.

(** [response] is [None] when the request or its decoding raised. *)
Definition get_top_rated_movies (page : Z) (response : option (option (list R)))
  : list listed :=
  match response with
  | None => []
  | Some results =>
    let results := field_or results [] in
    map (fun movie =>
           {| info := movie_info movie;
              top_rated_rank :=
                ((page - 1) * 20 + Z.of_nat (list_index results movie) + 1)%Z |})
        results
  end.

End Listing.

(** ** The batch: [crawl_top_rated_movies] *)

(** [num_movies // 20 + 1], or [num_movies // 20] when 20 divides
    [num_movies]. *)
Definition pages_needed (num_movies : Z) : Z :=
  if (num_movies mod 20 =? 0)%Z then (num_movies / 20)%Z
  else (num_movies / 20 + 1)%Z.

(** A merged record with the fields the crawl adds to the analysis. *)
Record crawled := {
  merged : movie_data;
  tmdb_top_rated_rank : Z;
  reviews : list review_data;
  review_count : nat
}.

Section Crawl.
Context `{Unicode} `{PySet}.
(** The three requests.  Each page and each id is requested at most once in
    a crawl, so their answers are functions of the page and of the id;
    [top_rated] is the list [get_top_rated_movies] returns, [details_of] is
    [None] for the empty dictionary of a failed request. *)
Variable top_rated : Z -> list listed.
Variable details_of : Z -> option item_detail.
Variable reviews_of : Z -> Z -> list review_data.

(** The loops over the pages keep the list collected so far, the set of
    its ids and, here, the pages requested. *)
Record collecting := {
  movie_list : list listed;
  collected_ids : list Z;
  requested : list Z
}.

Definition add_new (st : collecting) (movie : listed) : collecting :=
  let movie_id := item_id (info movie) in
  if existsb (Z.eqb movie_id) (collected_ids st) then st
  else {| movie_list := movie_list st ++ [movie];
          collected_ids := movie_id :: collected_ids st;
          requested := requested st |}.

Fixpoint collect (num_movies : Z) (pages : list Z) (st : collecting) : collecting :=
  match pages with
  | [] => st
  | page :: rest =>
    let st := {| movie_list := movie_list st;
                 collected_ids := collected_ids st;
                 requested := requested st ++ [page] |} in
    match top_rated page with
    | [] => st
    | (_ :: _) as movies =>
      let st := fold_left add_new movies st in
      if (num_movies <=? Z.of_nat (length (movie_list st)))%Z then st
      else collect num_movies rest st
    end
  end.

(** [range(1, pages_needed + 1)] *)
Definition page_range (num_movies : Z) : list Z :=
  map Z.of_nat (seq 1 (Z.to_nat (pages_needed num_movies))).

Definition collected (num_movies : Z) : collecting :=
  collect num_movies (page_range num_movies)
    {| movie_list := []; collected_ids := []; requested := [] |}.

Definition crawl_top_rated_movies (num_movies max_reviews_per_movie : Z)
  : list crawled :=
  map (fun movie =>
         let movie_id := item_id (info movie) in
         let reviews := reviews_of movie_id max_reviews_per_movie in
         {| merged := merge_record (info movie) (details_of movie_id);
            tmdb_top_rated_rank := top_rated_rank movie;
            reviews := reviews;
            review_count := length reviews |})
      (slice_to (movie_list (collected num_movies)) num_movies).

End Crawl.

End Catalog.

(** * Text cells: splitting, stripping and numbers as text *)

(** [text.split(sep)] and [text.split(sep, maxsplit)] for a non-empty [sep]:
    the scan goes left to right, a match closes the current piece and
    consumes [length sep] code points; [maxsplit = Some 0] leaves the rest
    of the text in the last piece. *)
Fixpoint split_from (sep text : pystr) (maxsplit : option nat) (skip : nat)
  (piece : pystr) : list pystr :=
  match text with
  | [] => [piece]
  | c :: rest =>
    match skip with
    | S k => split_from sep rest maxsplit k piece
    | O =>
      match maxsplit with
      | Some O => [piece ++ text]
      | _ =>
        if is_prefix sep text
        then piece :: split_from sep rest (option_map Nat.pred maxsplit)
                        (length sep - 1) []
        else split_from sep rest maxsplit 0 (piece ++ [c])
      end
    end
  end.

Definition str_split (text sep : pystr) : list pystr :=
  split_from sep text None 0 [].

Definition str_split_max (text sep : pystr) (maxsplit : nat) : list pystr :=
  split_from sep text (Some maxsplit) 0 [].

(** The code points [str.strip()] removes. *)
Definition is_space (c : codepoint) : bool :=
  ((9 <=? c) && (c <=? 13) || (28 <=? c) && (c <=? 32)
   || (c =? 133) || (c =? 160) || (c =? 5760)
   || (8192 <=? c) && (c <=? 8202)
   || (c =? 8232) || (c =? 8233) || (c =? 8239) || (c =? 8287) || (c =? 12288))%N.

Fixpoint str_lstrip (text : pystr) : pystr :=
  match text with
  | [] => []
  | c :: rest => if is_space c then str_lstrip rest else text
  end.

(** [text.strip()] *)
Definition str_strip (text : pystr) : pystr :=
  rev (str_lstrip (rev (str_lstrip text))).



(** Numbers as text.  [float_of_str] is [float(text)], [None] when it raises
    [ValueError]; [format_fixed x n] is [format(x, '.nf')].  A number printed
    with [n] decimals has digits, a point and a sign only, and reads back as
    the number rounded to [n] decimals. *)
Class PyFloat := {
  float_of_str : pystr -> option Q;
  format_fixed : Q -> nat -> pystr;
  format_fixed_plain : forall x n,
    forallb (fun c => existsb (N.eqb c) (u "0123456789.-")) (format_fixed x n) = true;
  float_of_format : forall x n, float_of_str (format_fixed x n) = Some (py_round x n)
}.

(** * The crawler: the files it writes *)

Module Exports.
Import Crawler Catalog.

(** [np.mean(xs)] of a non-empty list *)
Definition mean (xs : list Q) : Q := (Qsum xs / Qnat (length xs))%Q.

(** The average review sentiment of [save_enhanced_csv]. *)
Definition avg_sentiment (reviews : list review_data) : Q :=
  match reviews with
  | [] => (1 # 2)%Q
  | _ :: _ => py_round (mean (map (fun r => score (review_sentiment_of r)) reviews)) 3
  end.

Section Rows.
Context `{PyFloat}.

(** [get_emotion_vector_string] *)
Definition get_emotion_vector_string (emotion_profile : Dict.t pystr Q) : pystr :=
  match emotion_profile with
  | [] => []
  | _ :: _ =>
    let top_emotions := firstn 3 (sorted_desc snd emotion_profile) in
    join (u "|")
      (map (fun e => fst e ++ u ":" ++ format_fixed (snd e) 3) top_emotions)
  end.

(** The cells of a row of [save_enhanced_csv] that the crawl computes; the
    other columns repeat fields of the listing and of the details. *)
Record enhanced_row := {
  row_movie_id : Z;
  row_title : pystr;
  row_plot : pystr;
  row_tagline : pystr;
  row_genres : pystr;
  row_rank : Z;
  row_mood_tags : pystr;
  row_dominant_emotions : pystr;
  row_emotional_complexity : nat;
  row_review_count : nat;
  row_avg_review_sentiment : Q;
  row_emotion_vector : pystr
}.

Definition save_enhanced_csv (movie_data : list crawled) : list enhanced_row :=
  map (fun movie =>
         let m := merged movie in
         {| row_movie_id := id m;
            row_title := title m;
            row_plot := overview m;
            row_tagline := tagline m;
            row_genres := join (u "|") (genres m);
            row_rank := tmdb_top_rated_rank movie;
            row_mood_tags := join (u "|") (md_mood_tags m);
            row_dominant_emotions := join (u "|") (md_dominant_emotions m);
            row_emotional_complexity := md_emotional_complexity m;
            row_review_count := review_count movie;
            row_avg_review_sentiment := avg_sentiment (reviews movie);
            row_emotion_vector := get_emotion_vector_string (md_emotion_profile m) |})
      movie_data.

End Rows.

(** ** [save_statistics] *)

Inductive written (A : Type) :=
| Written (a : A)
| ZeroDivisionError.
Arguments Written {A} a.
Arguments ZeroDivisionError {A}.

(** [counter[key] = counter.get(key, 0) + 1] for every key in turn *)
Definition count_all (keys : list pystr) (counter : Dict.t pystr nat)
  : Dict.t pystr nat :=
  fold_left (fun counter key => bump counter key 1) keys counter.

(** A line of a distribution: the name, its count and its percentage of the
    movies. *)
Definition distribution_lines (counter : Dict.t pystr nat) (total_movies : nat)
  : list (pystr * nat * Q) :=
  map (fun e => (fst e, snd e, (Qnat (snd e) / Qnat total_movies * 100)%Q))
      (sorted_desc (fun e => Qnat (snd e)) counter).

(** The figures of the statistics file that come from the analysis and the
    reviews. *)
Record statistics := {
  total_movies : nat;
  total_reviews : nat;
  reviews_per_movie : Q;
  emotion_lines : list (pystr * nat * Q);
  mood_tag_lines : list (pystr * nat * Q)
}.

Definition save_statistics (movie_data : list crawled) : written statistics :=
  let total_movies := length movie_data in
  let total_reviews := nat_sum (map (fun movie => length (reviews movie)) movie_data) in
  let emotion_counter :=
    fold_left (fun counter movie => count_all (md_dominant_emotions (merged movie)) counter)
              movie_data [] in
  let mood_tag_counter :=
    fold_left (fun counter movie => count_all (md_mood_tags (merged movie)) counter)
              movie_data [] in
  if total_movies =? 0 then ZeroDivisionError
  else
    Written
      {| total_movies := total_movies;
         total_reviews := total_reviews;
         reviews_per_movie := (Qnat total_reviews / Qnat total_movies)%Q;
         emotion_lines := distribution_lines emotion_counter total_movies;
         mood_tag_lines :=
           firstn 20 (distribution_lines mood_tag_counter total_movies) |}.

End Exports.

(** * The recommender: the CSV loader and the console *)

Module Console.
Import Recommender.

(** ** [load_movies_from_csv] *)

(** The text of the cells of a row the loader reads, [str(row.get(column, ''))]
    for each column, and its rating, [None] when [float] raises. *)
Record csv_row := {
  csv_movie_id : pystr;
  csv_title : pystr;
  csv_genres : pystr;
  csv_mood_tags : pystr;
  csv_dominant_emotions : pystr;
  csv_emotion_vector : pystr;
  csv_rating : option Q
}.

(** [cell.split('|') if '|' in cell else []] *)
Definition split_cell (cell : pystr) : list pystr :=
  if contains (u "|") cell then str_split cell (u "|") else [].

Section Loader.
Context `{PyFloat}.

(** The profile read from the [emotion_vector] cell. *)
Definition parse_emotion_vector (emotion_vector_str : pystr) : Dict.t pystr Q :=
  match emotion_vector_str with
  | [] => []
  | _ :: _ =>
    if contains (u ":") emotion_vector_str
    then
      fold_left
        (fun emotion_profile pair =>
           if contains (u ":") pair
           then
             match str_split_max pair (u ":") 1 with
             | [emotion; value] =>
               match float_of_str (str_strip value) with
               | Some x => Dict.set emotion_profile (str_strip emotion) x
               | None => emotion_profile
               end
             | _ => emotion_profile
             end
           else emotion_profile)
        (str_split emotion_vector_str (u "|")) []
    else []
  end.

(** The default vector of a row without one. *)
Definition or_zero_profile (emotion_profile : Dict.t pystr Q) : Dict.t pystr Q :=
  match emotion_profile with
  | [] => fold_left (fun profile emotion => Dict.set profile emotion 0%Q)
                    fixed_emotion_labels []
  | _ :: _ => emotion_profile
  end.

Definition csv_profile (emotion_vector_str : pystr) : Dict.t pystr Q :=
  or_zero_profile (parse_emotion_vector emotion_vector_str).

(** [rows] is [None] when reading the file raised; a rating that is not a
    number makes the loader give up on the whole file.  The dictionary of a
    CSV record has no [emotional_complexity]; no search reads it. *)
Definition load_movies_from_csv (rows : option (list csv_row)) : list movie :=
  match rows with
  | None => []
  | Some rows =>
    if forallb (fun row => match csv_rating row with Some _ => true | None => false end)
               rows
    then
      map (fun row =>
             {| id := StrId (csv_movie_id row);
                title := csv_title row;
                emotion_profile := csv_profile (csv_emotion_vector row);
                mood_tags := split_cell (csv_mood_tags row);
                dominant_emotions := split_cell (csv_dominant_emotions row);
                emotional_complexity := 0 |})
          rows
    else []
  end.

End Loader.

(** ** [print_movie_results] *)



End Console.

(** * Properties *)

(** ** Dictionaries *)

Module DictFacts.
Section Facts.
Context {K V : Type} `{EqKey K}.
Implicit Types (d : Dict.t K V) (k : K) (v : V).

Lemma key_eqb_refl k : key_eqb k k = true.
Proof. now apply key_eqb_eq. Qed.

Lemma key_eqb_neq k k' : k <> k' -> key_eqb k k' = false.
Proof.
  intros N. destruct (key_eqb k k') eqn:E; [|reflexivity].
  apply key_eqb_eq in E. contradiction.
Qed.

Lemma get_None d k : Dict.get d k = None <-> ~ In k (Dict.keys d).
Proof.
  induction d as [|[k' v'] d IH]; simpl; [tauto|].
  destruct (key_eqb k' k) eqn:E.
  - apply key_eqb_eq in E. split; [discriminate | intros N; exfalso; auto].
  - rewrite IH. split; [|tauto]. intros N [->|I]; [|tauto].
    now rewrite key_eqb_refl in E.
Qed.

Lemma get_In d k v : Dict.get d k = Some v -> In (k, v) d.
Proof.
  induction d as [|[k' v'] d IH]; simpl; [discriminate|].
  destruct (key_eqb k' k) eqn:E.
  - apply key_eqb_eq in E. intros [= ->]. left; congruence.
  - auto.
Qed.

Lemma In_get d k v : NoDup (Dict.keys d) -> In (k, v) d -> Dict.get d k = Some v.
Proof.
  induction d as [|[k' v'] d IH]; simpl; [tauto|].
  intros ND [[= -> ->]|I]; inversion_clear ND as [|? ? N ND'].
  - now rewrite key_eqb_refl.
  - rewrite key_eqb_neq; [auto|]. intros ->. apply N.
    change k with (fst (k, v)). now apply in_map.
Qed.

Lemma set_fresh d k v : ~ In k (Dict.keys d) -> Dict.set d k v = d ++ [(k, v)].
Proof.
  induction d as [|[k' v'] d IH]; simpl; [reflexivity|].
  intros N. rewrite key_eqb_neq by (intros ->; auto).
  rewrite IH; [reflexivity | tauto].
Qed.

Lemma keys_set_present d k v : In k (Dict.keys d) -> Dict.keys (Dict.set d k v) = Dict.keys d.
Proof.
  induction d as [|[k' v'] d IH]; simpl; [tauto|].
  destruct (key_eqb k' k) eqn:E; [reflexivity|].
  intros [->|I]; [now rewrite key_eqb_refl in E|].
  simpl. now rewrite IH.
Qed.

Lemma keys_set d k v :
  Dict.keys (Dict.set d k v) = Dict.keys d
  \/ (~ In k (Dict.keys d) /\ Dict.keys (Dict.set d k v) = Dict.keys d ++ [k]).
Proof.
  destruct (Dict.get d k) eqn:G.
  - left. apply keys_set_present. apply get_In in G.
    change k with (fst (k, v0)). now apply in_map.
  - right. apply get_None in G. split; [assumption|].
    rewrite set_fresh by assumption. unfold Dict.keys. now rewrite map_app.
Qed.

Lemma In_keys_set d k v k' :
  In k' (Dict.keys (Dict.set d k v)) <-> k' = k \/ In k' (Dict.keys d).
Proof.
  destruct (keys_set d k v) as [E|[N E]]; rewrite E.
  - split; [tauto|]. intros [->|I]; [|assumption].
    destruct (Dict.get d k) eqn:G.
    + apply get_In in G. change k with (fst (k, v0)). now apply in_map.
    + exfalso. apply get_None in G. rewrite set_fresh in E by assumption.
      unfold Dict.keys in E. rewrite map_app in E. simpl in E.
      apply (f_equal (@length K)) in E. rewrite length_app in E. simpl in E. lia.
  - rewrite in_app_iff. simpl. intuition congruence.
Qed.

Lemma NoDup_keys_set d k v : NoDup (Dict.keys d) -> NoDup (Dict.keys (Dict.set d k v)).
Proof.
  intros ND. destruct (keys_set d k v) as [E|[N E]]; rewrite E; [assumption|].
  apply NoDup_app; [assumption | repeat constructor; simpl; tauto |].
  intros x I [<-|[]]. contradiction.
Qed.

Lemma get_set_same d k v : Dict.get (Dict.set d k v) k = Some v.
Proof.
  induction d as [|[k' v'] d IH]; simpl.
  - now rewrite key_eqb_refl.
  - destruct (key_eqb k' k) eqn:E; simpl; rewrite E; auto.
Qed.

Lemma get_set_other d k v k' : k <> k' -> Dict.get (Dict.set d k v) k' = Dict.get d k'.
Proof.
  intros N. induction d as [|[k0 v0] d IH]; simpl.
  - now rewrite key_eqb_neq.
  - destruct (key_eqb k0 k) eqn:E; simpl.
    + apply key_eqb_eq in E. subst k0. now rewrite key_eqb_neq.
    + now rewrite IH.
Qed.

Lemma Forall_set (P : K * V -> Prop) d k v :
  Forall P d -> P (k, v) -> Forall P (Dict.set d k v).
Proof.
  intros F Pk. induction d as [|[k' v'] d IH]; simpl.
  - now constructor.
  - inversion_clear F as [|? ? P1 F']. destruct (key_eqb k' k) eqn:E.
    + apply key_eqb_eq in E. subst. now constructor.
    + constructor; auto.
Qed.

(** A loop that assigns each key of a duplicate-free list once builds the
    list of its assignments. *)
Lemma fold_set_fresh {A : Type} (key : A -> K) (val : A -> V) (l : list A) d :
  NoDup (map key l) ->
  (forall a, In a l -> ~ In (key a) (Dict.keys d)) ->
  fold_left (fun acc a => Dict.set acc (key a) (val a)) l d
  = d ++ map (fun a => (key a, val a)) l.
Proof.
  revert d; induction l as [|a l IH]; intros d ND F; simpl.
  - now rewrite app_nil_r.
  - inversion_clear ND as [|? ? N ND'].
    rewrite set_fresh by (apply F; now left).
    rewrite IH; [now rewrite <- app_assoc | assumption |].
    intros b I. unfold Dict.keys. rewrite map_app, in_app_iff. simpl.
    intros [J|[J|[]]].
    + apply (F b); [now right | exact J].
    + apply N. rewrite J. now apply in_map.
Qed.

Lemma fold_set_map {A : Type} (key : A -> K) (val : A -> V) (l : list A) :
  NoDup (map key l) ->
  fold_left (fun acc a => Dict.set acc (key a) (val a)) l []
  = map (fun a => (key a, val a)) l.
Proof.
  intros ND. now rewrite fold_set_fresh by (auto; intros ? ? []).
Qed.

Lemma fold_set_filter {A : Type} (key : A -> K) (val : A -> V) (p : A -> bool)
  (l : list A) d :
  NoDup (map key l) ->
  (forall a, In a l -> ~ In (key a) (Dict.keys d)) ->
  fold_left (fun acc a => if p a then Dict.set acc (key a) (val a) else acc) l d
  = d ++ map (fun a => (key a, val a)) (filter p l).
Proof.
  revert d; induction l as [|a l IH]; intros d ND F; simpl.
  - now rewrite app_nil_r.
  - inversion_clear ND as [|? ? N ND']. destruct (p a).
    + rewrite set_fresh by (apply F; now left).
      rewrite IH; [simpl; now rewrite <- app_assoc | assumption |].
      intros b I. unfold Dict.keys. rewrite map_app, in_app_iff. simpl.
      intros [J|[J|[]]].
      * apply (F b); [now right | exact J].
      * apply N. rewrite J. now apply in_map.
    + apply IH; [assumption|]. intros b I. apply F. now right.
Qed.

Lemma get_app_fresh d d' k : ~ In k (Dict.keys d) -> Dict.get (d ++ d') k = Dict.get d' k.
Proof.
  induction d as [|[k' v'] d IH]; simpl; [reflexivity|].
  intros N. rewrite key_eqb_neq by (intros ->; auto). apply IH. tauto.
Qed.

Lemma set_app_fresh d d' k v :
  ~ In k (Dict.keys d) -> Dict.set (d ++ d') k v = d ++ Dict.set d' k v.
Proof.
  induction d as [|[k' v'] d IH]; simpl; [reflexivity|].
  intros N. rewrite key_eqb_neq by (intros ->; auto). rewrite IH; [reflexivity | tauto].
Qed.

(** A loop that reassigns every key of a dictionary in turn maps its
    values. *)
Lemma fold_update_from (f : V -> V) (dflt : V) (todo done : Dict.t K V) :
  NoDup (Dict.keys (done ++ todo)) ->
  fold_left (fun acc k => Dict.set acc k (f (Dict.get_default acc k dflt)))
            (Dict.keys todo) (done ++ todo)
  = done ++ map (fun e => (fst e, f (snd e))) todo.
Proof.
  revert done; induction todo as [|[k v] todo IH]; intros done ND; [reflexivity|].
  cbn [Dict.keys map fold_left fst snd].
  assert (N : ~ In k (Dict.keys done)).
  { unfold Dict.keys in ND. rewrite map_app in ND. apply NoDup_remove_2 in ND.
    simpl in ND. rewrite in_app_iff in ND. unfold Dict.keys. tauto. }
  assert (G : Dict.get_default (done ++ (k, v) :: todo) k dflt = v).
  { unfold Dict.get_default. rewrite get_app_fresh by assumption.
    cbn [Dict.get]. now rewrite key_eqb_refl. }
  rewrite G, set_app_fresh by assumption. cbn [Dict.set]. rewrite key_eqb_refl.
  change (done ++ (k, f v) :: todo) with (done ++ [(k, f v)] ++ todo).
  rewrite app_assoc. fold (Dict.keys todo). rewrite IH.
  - now rewrite <- app_assoc.
  - unfold Dict.keys in *. rewrite <- app_assoc. rewrite map_app in *. exact ND.
Qed.

Lemma fold_update_map (f : V -> V) (dflt : V) (d : Dict.t K V) :
  NoDup (Dict.keys d) ->
  fold_left (fun acc k => Dict.set acc k (f (Dict.get_default acc k dflt)))
            (Dict.keys d) d
  = map (fun e => (fst e, f (snd e))) d.
Proof. intros ND. exact (fold_update_from f dflt d [] ND). Qed.

Lemma get_map_keys (f : K -> V) (l : list K) k :
  In k l -> Dict.get (map (fun e => (e, f e)) l) k = Some (f k).
Proof.
  induction l as [|x l IH]; simpl; [tauto|].
  intros [->|I]; [now rewrite key_eqb_refl|].
  destruct (key_eqb x k) eqn:E; [apply key_eqb_eq in E; now subst | auto].
Qed.

End Facts.

Lemma keys_map_values {K V W : Type} (f : K * V -> W) (d : Dict.t K V) :
  Dict.keys (map (fun e => (fst e, f e)) d) = Dict.keys d.
Proof. unfold Dict.keys. rewrite map_map. reflexivity. Qed.

Lemma values_map_values {K V W : Type} (f : K * V -> W) (d : Dict.t K V) :
  Dict.values (map (fun e => (fst e, f e)) d) = map f d.
Proof. unfold Dict.values. rewrite map_map. reflexivity. Qed.

End DictFacts.

(** ** Lists *)

Lemma NoDup_map_filter {E K : Type} (key : E -> K) (keep : E -> bool)
  (entries : list E) :
  NoDup (map key entries) -> NoDup (map key (filter keep entries)).
Proof.
  induction entries as [|e entries IH]; simpl; intros ND; [constructor|].
  inversion_clear ND as [|? ? N ND'].
  destruct (keep e); simpl; auto. constructor; auto.
  intros I. apply N. apply in_map_iff in I as (x & E' & I).
  apply filter_In in I as [I _]. rewrite <- E'. now apply in_map.
Qed.

Lemma NoDup_firstn {A : Type} (n : nat) (l : list A) : NoDup l -> NoDup (firstn n l).
Proof.
  revert n; induction l as [|a l IH]; intros [|n] ND; simpl; try constructor.
  - inversion_clear ND as [|? ? N _]. intros I. apply N.
    rewrite <- (firstn_skipn n l). apply in_app_iff. now left.
  - inversion_clear ND. auto.
Qed.

Lemma filter_none {A : Type} (p : A -> bool) (l : list A) :
  (forall a, In a l -> p a = false) -> filter p l = [].
Proof.
  induction l as [|a l IH]; intros F; simpl; [reflexivity|].
  rewrite (F a) by now left. apply IH. intros b I. apply F. now right.
Qed.

(** A boolean test of distinctness, for closed lists of strings. *)
Definition all_distinct (l : list pystr) : bool :=
  (fix go (l : list pystr) : bool :=
     match l with
     | [] => true
     | x :: r => negb (existsb (str_eqb x) r) && go r
     end) l.

Lemma all_distinct_NoDup (l : list pystr) : all_distinct l = true -> NoDup l.
Proof.
  induction l as [|x r IH]; intros E; constructor.
  - apply andb_true_iff in E as [E _]. intros I. apply negb_true_iff in E.
    assert (X : existsb (str_eqb x) r = true)
      by (apply existsb_exists; exists x; split; [assumption | now apply str_eqb_eq]).
    congruence.
  - apply IH. now apply andb_true_iff in E as [_ E].
Qed.

(** ** Substrings *)

Lemma contains_count (sub text : pystr) :
  sub <> [] -> contains sub text = true -> 0 < str_count text sub.
Proof.
  intros N. unfold str_count. destruct sub as [|c sub]; [congruence|]. clear N.
  induction text as [|x text IH]; intros C; [discriminate C|].
  change (contains (c :: sub) (x :: text))
    with (is_prefix (c :: sub) (x :: text) || contains (c :: sub) text) in C.
  change (count_from (c :: sub) (x :: text) 0)
    with (if is_prefix (c :: sub) (x :: text)
          then S (count_from (c :: sub) text (length (c :: sub) - 1))
          else count_from (c :: sub) text 0).
  destruct (is_prefix (c :: sub) (x :: text)); [lia|]. simpl in C. auto.
Qed.

(** ** Rounding and sums *)

Module RoundFacts.
#[local] Open Scope Q_scope.

Lemma round_half_even_comp (x y : Q) : x == y -> round_half_even x = round_half_even y.
Proof.
  intros E. unfold round_half_even.
  rewrite (Qfloor_comp _ _ E).
  assert (C : (x - inject_Z (Qfloor y) ?= 1 # 2) = (y - inject_Z (Qfloor y) ?= 1 # 2))
    by now rewrite E.
  now rewrite C.
Qed.

Lemma round_half_even_err (x : Q) : Qabs (inject_Z (round_half_even x) - x) <= 1 # 2.
Proof.
  unfold round_half_even.
  pose proof (Qfloor_le x) as L. pose proof (Qlt_floor x) as U.
  rewrite inject_Z_plus in U. change (inject_Z 1) with 1 in U.
  apply Qabs_Qle_condition.
  destruct (Qcompare_spec (x - inject_Z (Qfloor x)) (1 # 2)) as [E|E|E];
    [destruct (Z.even (Qfloor x))| |];
    rewrite ?inject_Z_plus; change (inject_Z 1) with 1; split; lra.
Qed.

Lemma round_half_even_Z (k : Z) : round_half_even (inject_Z k) = k.
Proof.
  unfold round_half_even. rewrite Qfloor_Z.
  assert (E : (inject_Z k - inject_Z k ?= 1 # 2) = Lt).
  { rewrite <- Qlt_alt. lra. }
  now rewrite E.
Qed.

Lemma py_round_3 (x : Q) :
  py_round x 3 == inject_Z (round_half_even (x * 1000)) / 1000.
Proof.
  unfold py_round. rewrite Qred_correct.
  change (10 ^ Z.of_nat 3)%Z with 1000%Z. change (Z.to_pos 1000) with 1000%positive.
  change (inject_Z 1000) with 1000.
  rewrite Qmake_Qdiv. reflexivity.
Qed.

Lemma py_round_comp (x y : Q) (n : nat) : x == y -> py_round x n = py_round y n.
Proof.
  intros E. unfold py_round.
  set (scale := inject_Z (10 ^ Z.of_nat n)).
  rewrite (round_half_even_comp (x * scale) (y * scale)); [reflexivity | now rewrite E].
Qed.

(** Rounding to three places moves a value by at most half a thousandth. *)
Lemma py_round_err (x : Q) : Qabs (py_round x 3 - x) <= 1 # 2000.
Proof.
  rewrite py_round_3.
  pose proof (round_half_even_err (x * 1000)) as R.
  apply Qabs_Qle_condition in R. apply Qabs_Qle_condition.
  set (z := inject_Z (round_half_even (x * 1000))) in *.
  assert (D : z / 1000 == z * (1 # 1000)) by (unfold Qdiv; reflexivity).
  rewrite D. split; lra.
Qed.

Lemma round_half_even_le (x : Q) (z : Z) : x <= inject_Z z -> (round_half_even x <= z)%Z.
Proof.
  intros L. unfold round_half_even.
  pose proof (Qfloor_le x) as F. pose proof (Qlt_floor x) as U.
  assert (Fz : (Qfloor x <= z)%Z) by (rewrite Zle_Qle; lra).
  destruct (Z.eq_dec (Qfloor x) z) as [E|N].
  - assert (C : (x - inject_Z (Qfloor x) ?= 1 # 2) = Lt).
    { rewrite <- Qlt_alt. rewrite E. lra. }
    rewrite C. lia.
  - destruct (x - inject_Z (Qfloor x) ?= 1 # 2); try destruct (Z.even _); lia.
Qed.

Lemma round_half_even_ge (x : Q) (z : Z) : inject_Z z <= x -> (z <= round_half_even x)%Z.
Proof.
  intros L. unfold round_half_even.
  assert (Fz : (z <= Qfloor x)%Z).
  { rewrite <- (Qfloor_Z z). now apply Qfloor_resp_le. }
  destruct (x - inject_Z (Qfloor x) ?= 1 # 2); try destruct (Z.even _); lia.
Qed.

(** Rounding keeps a share within [0, 1]. *)
Lemma py_round_unit (x : Q) : 0 <= x <= 1 -> 0 <= py_round x 3 <= 1.
Proof.
  intros [L U]. rewrite py_round_3.
  pose proof (round_half_even_ge (x * 1000) 0) as A.
  pose proof (round_half_even_le (x * 1000) 1000) as B.
  change (inject_Z 0) with 0 in A. change (inject_Z 1000) with 1000 in B.
  assert (A' : (0 <= round_half_even (x * 1000))%Z) by (apply A; lra).
  assert (B' : (round_half_even (x * 1000) <= 1000)%Z) by (apply B; lra).
  rewrite Zle_Qle in A', B'.
  change (inject_Z 0) with 0 in A'. change (inject_Z 1000) with 1000 in B'.
  set (z := inject_Z (round_half_even (x * 1000))) in *.
  assert (D : z / 1000 == z * (1 # 1000)) by (unfold Qdiv; reflexivity).
  rewrite D. split; lra.
Qed.

(** A value with three decimal places is its own rounding. *)
Lemma py_round_idem (x : Q) : py_round (py_round x 3) 3 = py_round x 3.
Proof.
  unfold py_round at 1.
  rewrite (round_half_even_comp _ (inject_Z (round_half_even (x * 1000)))).
  - rewrite round_half_even_Z. reflexivity.
  - rewrite py_round_3. change (inject_Z (10 ^ Z.of_nat 3)) with 1000. field.
Qed.

Lemma py_round_0 : py_round 0 3 = 0.
Proof. reflexivity. Qed.

Lemma Qsum_from (xs : list Q) (a : Q) : fold_left Qplus xs a == a + Qsum xs.
Proof.
  unfold Qsum. revert a; induction xs as [|x xs IH]; intros a; simpl.
  - lra.
  - rewrite IH, (IH (0 + x)). lra.
Qed.

Lemma Qsum_cons (x : Q) (xs : list Q) : Qsum (x :: xs) == x + Qsum xs.
Proof. unfold Qsum at 1. simpl. rewrite Qsum_from. lra. Qed.

Lemma Qsum_app (xs ys : list Q) : Qsum (xs ++ ys) == Qsum xs + Qsum ys.
Proof.
  induction xs as [|x xs IH]; simpl.
  - unfold Qsum at 2. simpl. lra.
  - rewrite !Qsum_cons, IH. lra.
Qed.

(** The sum of the roundings is within half a thousandth per term of the sum. *)
Lemma Qsum_round_err (xs : list Q) :
  Qabs (Qsum (map (fun x => py_round x 3) xs) - Qsum xs)
  <= Qnat (length xs) * (1 # 2000).
Proof.
  induction xs as [|x xs IH].
  - vm_compute. discriminate.
  - cbn [map length]. rewrite !Qsum_cons.
    pose proof (py_round_err x) as R.
    apply Qabs_Qle_condition in R, IH. apply Qabs_Qle_condition.
    unfold Qnat in *. rewrite Nat2Z.inj_succ, <- Z.add_1_r, inject_Z_plus.
    change (inject_Z 1) with 1. split; lra.
Qed.

Lemma nat_sum_from (xs : list nat) (a : nat) : fold_left Nat.add xs a = (a + nat_sum xs)%nat.
Proof.
  unfold nat_sum. revert a; induction xs as [|x xs IH]; intros a; simpl.
  - lia.
  - rewrite IH, (IH x). lia.
Qed.

Lemma nat_sum_cons (x : nat) (xs : list nat) : nat_sum (x :: xs) = (x + nat_sum xs)%nat.
Proof. unfold nat_sum at 1. simpl. apply nat_sum_from. Qed.

Lemma nat_sum_In (x : nat) (xs : list nat) : In x xs -> (x <= nat_sum xs)%nat.
Proof.
  induction xs as [|y xs IH]; intros I; [destruct I|].
  rewrite nat_sum_cons. destruct I as [->|I]; [lia|]. specialize (IH I). lia.
Qed.

Lemma share_unit (x total : nat) :
  (x <= total)%nat -> (0 < total)%nat -> 0 <= Qnat x / Qnat total <= 1.
Proof.
  intros L P. unfold Qnat.
  assert (T : 0 < inject_Z (Z.of_nat total))
    by (change 0 with (inject_Z 0); rewrite <- Zlt_Qlt; lia).
  assert (X : 0 <= inject_Z (Z.of_nat x))
    by (change 0 with (inject_Z 0); rewrite <- Zle_Qle; lia).
  assert (XT : inject_Z (Z.of_nat x) <= inject_Z (Z.of_nat total))
    by (rewrite <- Zle_Qle; lia).
  split.
  - apply Qle_shift_div_l; [exact T | lra].
  - apply Qle_shift_div_r; [exact T | lra].
Qed.

(** Dividing by a total that is within 0.005 of 1 and rounding again moves a
    value of [0, 1] by at most 0.006. *)
Lemma renormalized_close (v total : Q) :
  0 <= v <= 1 -> Qabs (total - 1) <= 5 # 1000 ->
  Qabs (py_round (v / total) 3 - v) <= 6 # 1000.
Proof.
  intros [L U] T. apply Qabs_Qle_condition in T. destruct T as [T1 T2].
  pose proof (py_round_err (v / total)) as R. apply Qabs_Qle_condition in R.
  assert (D : v / total * total == v) by (field; lra).
  set (d := v / total) in *.
  assert (D0 : 0 <= d).
  { unfold d. apply Qle_shift_div_l; lra. }
  assert (D1 : d <= 101 # 100).
  { unfold d. apply Qle_shift_div_r; lra. }
  apply Qabs_Qle_condition. split; nra.
Qed.

Lemma Qnat_nonzero (n : nat) : (0 < n)%nat -> ~ Qnat n == 0.
Proof. unfold Qnat, Qeq. simpl. lia. Qed.

(** Scores divided by their total add up to one. *)
Lemma Qsum_shares (xs : list nat) (total : nat) :
  (0 < total)%nat ->
  Qsum (map (fun x => Qnat x / Qnat total) xs) == Qnat (nat_sum xs) / Qnat total.
Proof.
  intros P. assert (N : ~ Qnat total == 0).
  { unfold Qnat, Qeq. simpl. lia. }
  induction xs as [|x xs IH].
  - unfold Qsum, nat_sum, Qnat. simpl. field. exact N.
  - cbn [map]. rewrite Qsum_cons, nat_sum_cons, IH.
    unfold Qnat. rewrite Nat2Z.inj_add, inject_Z_plus. field. exact N.
Qed.

(** *** Doubles *)

Lemma inject_Z_sub (a b : Z) : inject_Z (a - b) == inject_Z a - inject_Z b.
Proof. unfold Z.sub. rewrite inject_Z_plus, inject_Z_opp. reflexivity. Qed.

Lemma pow2_pos (e : Z) : 0 < pow2 e.
Proof.
  unfold pow2. destruct (e <? 0)%Z eqn:E; [reflexivity|].
  apply Z.ltb_ge in E. change 0 with (inject_Z 0). rewrite <- Zlt_Qlt.
  apply Z.pow_pos_nonneg; lia.
Qed.

(** A quantum below 1 divides 1. *)
Lemma pow2_inverse (e : Z) : (e < 0)%Z -> pow2 e * inject_Z (2 ^ (- e)) == 1.
Proof.
  intros N. unfold pow2. rewrite (proj2 (Z.ltb_lt e 0) N).
  assert (P : (0 < 2 ^ (- e))%Z) by (apply Z.pow_pos_nonneg; lia).
  unfold Qeq, Qmult, inject_Z. cbn [Qnum Qden]. rewrite Pos.mul_1_r.
  rewrite Z2Pos.id by exact P. lia.
Qed.

Lemma pow2_le (e : Z) : (e <= - 52)%Z -> pow2 e <= 1 # 2 ^ 52.
Proof.
  intros N. unfold pow2. rewrite (proj2 (Z.ltb_lt e 0)) by lia.
  assert (M : (2 ^ 52 <= 2 ^ (- e))%Z) by (apply Z.pow_le_mono_r; lia).
  unfold Qle. cbn [Qnum Qden]. rewrite Z2Pos.id by lia.
  change (Z.pos (2 ^ 52)) with (2 ^ 52)%Z. lia.
Qed.

(** Below 2 in absolute value, the exponent is at most 0. *)
Lemma binade_small (x : Q) : Qabs x < 2 -> (binade x <= 0)%Z.
Proof.
  intros B. unfold binade.
  set (e := (Z.log2 (Z.abs (Qnum x)) - Z.log2 (Z.pos (Qden x)))%Z).
  assert (E : (e <= 1)%Z).
  { unfold e. destruct x as [n d]. unfold Qabs, Qlt in B. cbn [Qnum Qden] in *.
    assert (L : (Z.log2 (Z.abs n) <= Z.log2 (2 * Z.pos d))%Z)
      by (apply Z.log2_le_mono; lia).
    rewrite Z.log2_double in L by lia. lia. }
  destruct (Qle_bool (pow2 e) (Qabs x)) eqn:C; [|lia].
  apply Qle_bool_iff in C.
  destruct (Z.eq_dec e 1) as [E1|E1]; [|lia].
  rewrite E1 in C. change (pow2 1) with 2 in C. lra.
Qed.

(** The quantum of a value below 2, and the integer it divides 1 into. *)
Lemma quantum_small (x : Q) :
  Qabs x < 2 ->
  let quantum := pow2 (Z.max (binade x) (- 1022) - 52) in
  0 < quantum <= 1 # 2 ^ 52
  /\ exists n : Z, quantum * inject_Z n == 1.
Proof.
  intros B. cbv zeta. pose proof (binade_small x B) as S.
  split; [split; [apply pow2_pos | apply pow2_le; lia]|].
  eexists. apply pow2_inverse. lia.
Qed.

Lemma double_comp (x y : Q) : x == y -> double x = double y.
Proof. intros E. unfold double. now rewrite (Qred_complete x y E). Qed.

Lemma double_0 (x : Q) : x == 0 -> double x = 0.
Proof. intros E. now rewrite (double_comp x 0 E). Qed.

Lemma double_quantum (x : Q) :
  ~ x == 0 ->
  exists x', x' == x
             /\ double x
                == inject_Z (round_half_even
                               (x' / pow2 (Z.max (binade x') (- 1022) - 52)))
                   * pow2 (Z.max (binade x') (- 1022) - 52).
Proof.
  intros N. exists (Qred x). split; [apply Qred_correct|]. unfold double.
  destruct (Qeq_bool (Qred x) 0) eqn:E.
  - apply Qeq_bool_iff in E. rewrite Qred_correct in E. contradiction.
  - apply Qred_correct.
Qed.

(** Below 2 in absolute value, a double is within [2 ^ -53] of the value it
    rounds. *)
Lemma double_err (x : Q) : Qabs x < 2 -> Qabs (double x - x) <= 1 # 2 ^ 53.
Proof.
  intros B. destruct (Qeq_dec x 0) as [Z|N].
  - rewrite (double_0 x Z), Z. vm_compute. discriminate.
  - destruct (double_quantum x N) as (x' & X & D). rewrite D, <- X.
    rewrite <- X in B. clear D X N x.
    destruct (quantum_small x' B) as [[P L] _].
    set (quantum := pow2 _) in *.
    pose proof (round_half_even_err (x' / quantum)) as R.
    apply Qabs_Qle_condition in R. destruct R as [R1 R2].
    assert (D : x' / quantum * quantum == x') by (field; lra).
    set (y := x' / quantum) in *. set (r := inject_Z (round_half_even y)) in *.
    assert (H : (1 # 2 ^ 53) == (1 # 2) * (1 # 2 ^ 52)) by reflexivity.
    apply Qabs_Qle_condition. rewrite H. split; nra.
Qed.

(** The double of a share is a share. *)
Lemma double_unit (x : Q) : 0 <= x <= 1 -> 0 <= double x <= 1.
Proof.
  intros [L U]. destruct (Qeq_dec x 0) as [Z|N].
  - rewrite (double_0 x Z). lra.
  - destruct (double_quantum x N) as (x' & X & D). rewrite D.
    rewrite <- X in L, U. clear D X N x.
    assert (B : Qabs x' < 2) by (rewrite Qabs_pos; lra).
    destruct (quantum_small x' B) as [[P _] [n I]].
    set (quantum := pow2 _) in *.
    assert (D : x' / quantum == x' * inject_Z n).
    { rewrite <- (Qmult_1_r (x' / quantum)), <- I. field. lra. }
    assert (Pn : 0 < inject_Z n) by nra.
    pose proof (round_half_even_ge (x' / quantum) 0) as A.
    pose proof (round_half_even_le (x' / quantum) n) as C.
    change (inject_Z 0) with 0 in A.
    assert (A' : (0 <= round_half_even (x' / quantum))%Z) by (apply A; rewrite D; nra).
    assert (C' : (round_half_even (x' / quantum) <= n)%Z) by (apply C; rewrite D; nra).
    rewrite Zle_Qle in A', C'. change (inject_Z 0) with 0 in A'.
    set (r := inject_Z (round_half_even (x' / quantum))) in *.
    split; nra.
Qed.

Lemma double_1 : double 1 = 1.
Proof. vm_compute. reflexivity. Qed.

(** A share is rounded to three decimals of [0, 1], within 0.0005 and one
    rounding of the quotient. *)
Lemma rounded_double_unit (x : Q) : 0 <= x <= 1 -> 0 <= py_round (double x) 3 <= 1.
Proof. intros U. now apply py_round_unit, double_unit. Qed.

Lemma Qsum_double_err (xs : list Q) :
  Forall (fun x => Qabs x < 2) xs ->
  Qabs (Qsum (map double xs) - Qsum xs) <= Qnat (length xs) * (1 # 2 ^ 53).
Proof.
  induction 1 as [|x xs B F IH].
  - vm_compute. discriminate.
  - cbn [map length]. rewrite !Qsum_cons.
    pose proof (double_err x B) as R.
    apply Qabs_Qle_condition in R, IH. apply Qabs_Qle_condition.
    unfold Qnat in *. rewrite Nat2Z.inj_succ, <- Z.add_1_r, inject_Z_plus.
    change (inject_Z 1) with 1. split; lra.
Qed.

(** A sum of roundings to three decimals is a number of thousandths. *)
Lemma Qsum_thousandths (xs : list Q) :
  exists k : Z, Qsum (map (fun x => py_round x 3) xs) == inject_Z k * (1 # 1000).
Proof.
  induction xs as [|x xs [k IH]].
  - exists 0%Z. reflexivity.
  - exists (round_half_even (x * 1000) + k)%Z. cbn [map].
    rewrite Qsum_cons, IH, py_round_3, inject_Z_plus.
    unfold Qdiv. change (/ 1000) with (1 # 1000). lra.
Qed.

(** At most ten quotients that add up to one, each taken as a double and
    rounded to three decimals, add up to one within half a thousandth for
    each of them: the roundings of the quotients are too small to move a
    number of thousandths. *)
Lemma Qsum_rounded_doubles (xs : list Q) :
  Forall (fun x => Qabs x < 2) xs -> (length xs <= 10)%nat -> Qsum xs == 1 ->
  Qabs (Qsum (map (fun x => py_round (double x) 3) xs) - 1)
  <= Qnat (length xs) * (1 # 2000).
Proof.
  intros F L S.
  pose proof (Qsum_round_err (map double xs)) as R.
  pose proof (Qsum_double_err xs F) as D.
  destruct (Qsum_thousandths (map double xs)) as [k K].
  rewrite map_map in R, K. rewrite length_map in R. rewrite S in D.
  set (s := Qsum (map (fun x => py_round (double x) 3) xs)) in *.
  set (n := length xs) in *.
  apply Qabs_Qle_condition in R, D. destruct R as [R1 R2], D as [D1 D2].
  assert (N0 : 0 <= Qnat n) by (unfold Qnat; change 0 with (inject_Z 0);
                                rewrite <- Zle_Qle; lia).
  assert (N10 : Qnat n <= 10) by (unfold Qnat; change 10 with (inject_Z 10);
                                  rewrite <- Zle_Qle; lia).
  assert (E : Qnat n * (1 # 2 ^ 53) <= 1 # 4000).
  { assert (T : (1 # 2 ^ 53) <= 1 # 40000) by (vm_compute; discriminate). nra. }
  assert (U : inject_Z (2 * k - 2000) < inject_Z (Z.of_nat n + 1)).
  { rewrite inject_Z_plus, inject_Z_sub, inject_Z_mult.
    change (inject_Z 2) with 2. change (inject_Z 2000) with 2000.
    change (inject_Z 1) with 1. fold (Qnat n). lra. }
  assert (V : inject_Z (2000 - 2 * k) < inject_Z (Z.of_nat n + 1)).
  { rewrite inject_Z_plus, inject_Z_sub, inject_Z_mult.
    change (inject_Z 2) with 2. change (inject_Z 2000) with 2000.
    change (inject_Z 1) with 1. fold (Qnat n). lra. }
  rewrite <- Zlt_Qlt in U, V.
  assert (U' : (2 * k - 2000 <= Z.of_nat n)%Z) by lia.
  assert (V' : (2000 - 2 * k <= Z.of_nat n)%Z) by lia.
  rewrite Zle_Qle in U', V'.
  rewrite inject_Z_sub, inject_Z_mult in U', V'.
  change (inject_Z 2) with 2 in U', V'. change (inject_Z 2000) with 2000 in U', V'.
  fold (Qnat n) in U', V'.
  apply Qabs_Qle_condition. rewrite K. split; lra.
Qed.

(** *** Values away from a tie *)

Lemma round_half_even_between (y : Q) (m : Z) :
  inject_Z m - (1 # 2) < y < inject_Z m + (1 # 2) -> round_half_even y = m.
Proof.
  intros [L U]. unfold round_half_even.
  pose proof (Qfloor_le y) as F. pose proof (Qlt_floor y) as G.
  rewrite inject_Z_plus in G. change (inject_Z 1) with 1 in G.
  assert (A : (m - 1 <= Qfloor y)%Z).
  { assert (A : inject_Z (m - 2) < inject_Z (Qfloor y)).
    { rewrite inject_Z_sub. change (inject_Z 2) with 2. lra. }
    rewrite <- Zlt_Qlt in A. lia. }
  assert (B : (Qfloor y <= m)%Z).
  { assert (B : inject_Z (Qfloor y) < inject_Z (m + 1)).
    { rewrite inject_Z_plus. change (inject_Z 1) with 1. lra. }
    rewrite <- Zlt_Qlt in B. lia. }
  destruct (Z.eq_dec (Qfloor y) m) as [E|E].
  - assert (C : (y - inject_Z (Qfloor y) ?= 1 # 2) = Lt).
    { rewrite <- Qlt_alt, E. lra. }
    now rewrite C.
  - assert (E' : Qfloor y = (m - 1)%Z) by lia.
    assert (C : (y - inject_Z (Qfloor y) ?= 1 # 2) = Gt).
    { rewrite <- Qgt_alt, E', inject_Z_sub. change (inject_Z 1) with 1. lra. }
    rewrite C. lia.
Qed.

(** A quotient [n / (2 K)] that is not halfway between two integers is at
    least [1 / (2 K)] away from halfway: what is within [1 / (2 K)] of it
    rounds to the same integer. *)
Lemma round_half_even_stable (n K : Z) (x y : Q) :
  (0 < K)%Z -> x * inject_Z (2 * K) == inject_Z n ->
  (forall m : Z, n <> ((2 * m + 1) * K)%Z) ->
  Qabs (y - x) * inject_Z (2 * K) < 1 ->
  round_half_even y = round_half_even x.
Proof.
  intros P X T C. apply round_half_even_between.
  set (m := round_half_even x).
  pose proof (round_half_even_err x) as R. fold m in R.
  apply Qabs_Qle_condition in R. destruct R as [R1 R2].
  assert (PK : 0 < inject_Z K) by (change 0 with (inject_Z 0); now rewrite <- Zlt_Qlt).
  rewrite inject_Z_mult in X, C. change (inject_Z 2) with 2 in X, C.
  assert (A : (2 * K * m - n <= K - 1)%Z).
  { assert (A : (2 * K * m - n <= K)%Z).
    { rewrite Zle_Qle, inject_Z_sub, !inject_Z_mult, <- X.
      change (inject_Z 2) with 2. nra. }
    specialize (T (m - 1)%Z). lia. }
  assert (B : (n - 2 * K * m <= K - 1)%Z).
  { assert (B : (n - 2 * K * m <= K)%Z).
    { rewrite Zle_Qle, inject_Z_sub, !inject_Z_mult, <- X.
      change (inject_Z 2) with 2. nra. }
    specialize (T m). lia. }
  rewrite Zle_Qle, !inject_Z_sub, !inject_Z_mult, <- X in A, B.
  change (inject_Z 2) with 2 in A, B. change (inject_Z 1) with 1 in A, B.
  set (M := inject_Z m) in *. set (k := inject_Z K) in *.
  assert (Y : - (1) < (y - x) * (2 * k) < 1).
  { destruct (Qlt_le_dec (y - x) 0) as [S|S].
    - rewrite Qabs_neg in C by lra. split; nra.
    - rewrite Qabs_pos in C by lra. split; nra. }
  split.
  - destruct (Qlt_le_dec (M - (1 # 2)) y) as [G|G]; [exact G|].
    assert (N : 0 <= (M - (1 # 2) - y) * k) by (apply Qmult_le_0_compat; lra).
    lra.
  - destruct (Qlt_le_dec y (M + (1 # 2))) as [G|G]; [exact G|].
    assert (N : 0 <= (y - M - (1 # 2)) * k) by (apply Qmult_le_0_compat; lra).
    lra.
Qed.

(** With a total of 995 to 1005 thousandths, no value of thousandths is
    divided into a tie of the third decimal. *)
Lemma no_tie_near_one (k K m : Z) :
  (995 <= K <= 1005)%Z -> (2000 * k)%Z <> ((2 * m + 1) * K)%Z.
Proof.
  intros B E.
  assert (C : (K = 995 \/ K = 996 \/ K = 997 \/ K = 998 \/ K = 999 \/ K = 1000
               \/ K = 1001 \/ K = 1002 \/ K = 1003 \/ K = 1004 \/ K = 1005)%Z) by lia.
  repeat destruct C as [->|C]; try subst K; lia.
Qed.

(** Dividing thousandths by such a total: the double nearest to the quotient
    is rounded like the quotient itself. *)
Lemma rounded_quotient_of_thousandths (v total : Q) (k K : Z) :
  v == inject_Z k * (1 # 1000) -> total == inject_Z K * (1 # 1000) ->
  (995 <= K <= 1005)%Z -> 0 <= v <= 1 ->
  py_round (double (v / total)) 3 = py_round (v / total) 3.
Proof.
  intros V T B [L U].
  assert (PK : 995 <= inject_Z K <= 1005).
  { change 995 with (inject_Z 995). change 1005 with (inject_Z 1005).
    rewrite <- !Zle_Qle. exact B. }
  assert (PT : 0 < total) by lra.
  set (x := v / total).
  assert (X0 : 0 <= x) by (apply Qle_shift_div_l; lra).
  assert (X2 : x <= 101 # 100) by (apply Qle_shift_div_r; lra).
  assert (D : Qabs (double x - x) <= 1 # 2 ^ 53)
    by (apply double_err; rewrite Qabs_pos; lra).
  unfold py_round. change (inject_Z (10 ^ Z.of_nat 3)) with 1000.
  f_equal. f_equal.
  apply (round_half_even_stable (2000 * k) K).
  - lia.
  - rewrite !inject_Z_mult. change (inject_Z 2) with 2.
    change (inject_Z 2000) with 2000. unfold x. rewrite V, T. field. lra.
  - intros m. now apply no_tie_near_one.
  - rewrite inject_Z_mult. change (inject_Z 2) with 2.
    assert (E : double x * 1000 - x * 1000 == (double x - x) * 1000) by ring.
    rewrite E, Qabs_Qmult. change (Qabs 1000) with 1000.
    assert (S : (1 # 2 ^ 53) <= 1 # 4020000) by (vm_compute; discriminate).
    pose proof (Qabs_nonneg (double x - x)) as A.
    set (a := Qabs (double x - x)) in *. nra.
Qed.

(** A number of thousandths within 0.005 of 1 is 995 to 1005 of them. *)
Lemma thousandths_near_one (total : Q) (K : Z) :
  total == inject_Z K * (1 # 1000) -> Qabs (total - 1) <= 5 # 1000 ->
  (995 <= K <= 1005)%Z.
Proof.
  intros T B. apply Qabs_Qle_condition in B. destruct B as [B1 B2].
  rewrite T in B1, B2. rewrite !Zle_Qle.
  change (inject_Z 995) with 995. change (inject_Z 1005) with 1005. split; lra.
Qed.

(** What [round] returned is a number of thousandths. *)
Lemma rounded_is_thousandths (v : Q) :
  py_round v 3 = v -> v == inject_Z (round_half_even (v * 1000)) * (1 # 1000).
Proof.
  intros E. rewrite <- E at 1. rewrite py_round_3.
  unfold Qdiv. change (/ 1000) with (1 # 1000). reflexivity.
Qed.

End RoundFacts.

(** ** Stable sorting *)

Module SortFacts.
Section Facts.
Context {A : Type} (key : A -> Q).

Lemma insert_desc_perm (x : A) (l : list A) : Permutation (insert_desc key x l) (x :: l).
Proof.
  induction l as [|y l IH]; simpl; [reflexivity|].
  destruct (Qle_bool (key y) (key x)); [reflexivity|].
  rewrite IH. apply perm_swap.
Qed.

Lemma sorted_desc_perm (l : list A) : Permutation (sorted_desc key l) l.
Proof.
  induction l as [|x l IH]; simpl; [reflexivity|].
  rewrite insert_desc_perm. now constructor.
Qed.

Lemma sorted_desc_length (l : list A) : length (sorted_desc key l) = length l.
Proof. apply Permutation_length, sorted_desc_perm. Qed.

Lemma insert_desc_sorted (x : A) (l : list A) :
  StronglySorted (fun a b => (key b <= key a)%Q) l ->
  StronglySorted (fun a b => (key b <= key a)%Q) (insert_desc key x l).
Proof.
  induction 1 as [|y l S IH F]; simpl; [repeat constructor|].
  destruct (Qle_bool (key y) (key x)) eqn:E.
  - apply Qle_bool_iff in E. constructor; [now constructor|].
    constructor; [assumption|].
    eapply Forall_impl; [|exact F]. intros b L. simpl in L. lra.
  - assert (L : (key x <= key y)%Q).
    { destruct (Qlt_le_dec (key x) (key y)) as [L|L]; [lra|].
      apply Qle_bool_iff in L. congruence. }
    constructor; [assumption|].
    apply Forall_forall. intros b I.
    apply (Permutation_in _ (insert_desc_perm x l)) in I as [<-|I]; [exact L|].
    rewrite Forall_forall in F. now apply F.
Qed.

(** The result is in falling order of the key. *)
Lemma sorted_desc_sorted (l : list A) :
  StronglySorted (fun a b => (key b <= key a)%Q) (sorted_desc key l).
Proof.
  induction l as [|x l IH]; simpl; [constructor|]. now apply insert_desc_sorted.
Qed.



End Facts.

Lemma StronglySorted_impl {A : Type} (R R' : A -> A -> Prop) (l : list A) :
  (forall a b, R a b -> R' a b) -> StronglySorted R l -> StronglySorted R' l.
Proof.
  intros I. induction 1 as [|a l S IH F]; constructor; [assumption|].
  eapply Forall_impl; [|exact F]. auto.
Qed.

Lemma StronglySorted_firstn {A : Type} (R : A -> A -> Prop) (n : nat) (l : list A) :
  StronglySorted R l -> StronglySorted R (firstn n l).
Proof.
  intros S. revert n. induction S as [|a l S IH F]; intros [|n]; simpl; try constructor.
  - apply IH.
  - apply Forall_forall. intros b I. rewrite Forall_forall in F. apply F.
    rewrite <- (firstn_skipn n l). apply in_app_iff. now left.
Qed.

Lemma StronglySorted_skipn {A : Type} (R : A -> A -> Prop) (n : nat) (l : list A) :
  StronglySorted R l -> StronglySorted R (skipn n l).
Proof.
  intros S. revert n. induction S as [|a l S IH F]; intros [|n]; simpl;
    try constructor; auto.
Qed.

Lemma StronglySorted_app_one {A : Type} (R : A -> A -> Prop) (l : list A) (a : A) :
  StronglySorted R l -> Forall (fun b => R b a) l -> StronglySorted R (l ++ [a]).
Proof.
  induction 1 as [|b l S IH F]; intros Fa; simpl; [repeat constructor|].
  inversion_clear Fa as [|? ? Rb Fa']. constructor; [auto|].
  apply Forall_app. split; [assumption | now constructor].
Qed.

Lemma StronglySorted_rev {A : Type} (R : A -> A -> Prop) (l : list A) :
  StronglySorted R l -> StronglySorted (fun a b => R b a) (rev l).
Proof.
  induction 1 as [|a l S IH F]; simpl; [constructor|].
  apply StronglySorted_app_one; [assumption|].
  apply Forall_rev. exact F.
Qed.

Lemma StronglySorted_map {A B : Type} (R : B -> B -> Prop) (f : A -> B) (l : list A) :
  StronglySorted (fun a b => R (f a) (f b)) l -> StronglySorted R (map f l).
Proof.
  induction 1 as [|a l S IH F]; simpl; constructor; [assumption|].
  apply Forall_map. exact F.
Qed.





Lemma slice_to_map {A B : Type} (h : A -> B) (l : list A) (k : Z) :
  slice_to (map h l) k = map h (slice_to l k).
Proof. unfold slice_to. rewrite length_map. now destruct (k <? 0)%Z; rewrite firstn_map. Qed.

Lemma slice_to_incl {A : Type} (l : list A) (k : Z) : incl (slice_to l k) l.
Proof.
  unfold slice_to. intros a I.
  destruct (k <? 0)%Z;
    match type of I with
    | In _ (firstn ?n _) => rewrite <- (firstn_skipn n l)
    end; apply in_app_iff; now left.
Qed.

End SortFacts.

(** * Reference instances

    [basic_unicode] agrees with [str.lower()] and [\w] on text made of ASCII
    characters and CJK ideographs (U+4E00 to U+9FFF), the alphabet of the
    lexicons and of the examples below.  [first_seen] lists a set in order of
    first occurrence.  [small_arrays] sorts by insertion, so that equal values
    keep their index order: so does the default sort of numpy on short
    arrays, and it is one of the orders [torch.topk], which promises none,
    may give.  Its encoder is a stand-in that compares text lengths, and its
    norm is exact on vectors whose squared length is the square of a
    rational. *)

Module Reference.
Import Recommender.

Definition lower_cp (c : codepoint) : codepoint :=
  if (65 <=? c)%N && (c <=? 90)%N then (c + 32)%N else c.

Definition word_cp (c : codepoint) : bool :=
  ((48 <=? c)%N && (c <=? 57)%N)
  || ((65 <=? c)%N && (c <=? 90)%N)
  || ((97 <=? c)%N && (c <=? 122)%N)
  || (c =? 95)%N
  || ((19968 <=? c)%N && (c <=? 40959)%N).

Definition basic_unicode : Unicode :=
  {| lower := map lower_cp; is_word := word_cp |}.

(** The distinct elements in order of first occurrence. *)
Fixpoint distinct (xs : list pystr) : list pystr :=
  match xs with
  | [] => []
  | x :: rest => x :: filter (fun y => negb (str_eqb x y)) (distinct rest)
  end.

Lemma distinct_In (xs : list pystr) (x : pystr) : In x (distinct xs) <-> In x xs.
Proof.
  induction xs as [|y xs IH]; simpl; [tauto|].
  rewrite filter_In, IH, negb_true_iff. split.
  - tauto.
  - intros [->|I]; [now left|].
    destruct (str_eqb y x) eqn:E; [left; now apply str_eqb_eq | now right].
Qed.

Lemma distinct_NoDup (xs : list pystr) : NoDup (distinct xs).
Proof.
  induction xs as [|y xs IH]; simpl; constructor.
  - rewrite filter_In, negb_true_iff. intros [_ E].
    assert (T : str_eqb y y = true) by now apply str_eqb_eq. congruence.
  - now apply NoDup_filter.
Qed.

Definition first_seen : PySet :=
  {| set_order := distinct;
     set_order_NoDup := distinct_NoDup;
     set_order_In := distinct_In |}.

Definition dot (a b : list Q) : Q :=
  Qsum (map (fun p => (fst p * snd p)%Q) (combine a b)).

Definition norm (v : list Q) : Q :=
  let s := Qred (dot v v) in
  Qmake (Z.sqrt (Qnum s * Zpos (Qden s))) (Qden s).

Definition cosine (a b : list Q) : Q :=
  let n := (norm a * norm b)%Q in
  if Qeq_bool n 0 then 0%Q else Qred (dot a b / n).

Definition length_sim (a b : pystr) : Q :=
  Qmake 1 (Pos.of_succ_nat (length a - length b + (length b - length a))).

Definition insertion_argsort (xs : list Q) : list nat :=
  sorted_desc (fun i => (- nth i xs 0)%Q) (seq 0 (length xs)).

Definition insertion_topk (xs : list Q) (k : nat) : list nat :=
  firstn k (sorted_desc (fun i => nth i xs 0%Q) (seq 0 (length xs))).

Lemma insertion_argsort_perm (xs : list Q) :
  Permutation (insertion_argsort xs) (seq 0 (length xs)).
Proof. apply SortFacts.sorted_desc_perm. Qed.

Lemma insertion_argsort_sorted (xs : list Q) :
  StronglySorted (fun i j => (nth i xs 0 <= nth j xs 0)%Q) (insertion_argsort xs).
Proof.
  eapply SortFacts.StronglySorted_impl; [|apply SortFacts.sorted_desc_sorted].
  intros a b L. simpl in L. lra.
Qed.

Lemma insertion_topk_spec (xs : list Q) (k : nat) :
  k <= length xs ->
  exists order,
    Permutation order (seq 0 (length xs))
    /\ StronglySorted (fun i j => (nth j xs 0 <= nth i xs 0)%Q) order
    /\ insertion_topk xs k = firstn k order.
Proof.
  intros _. eexists. split; [apply SortFacts.sorted_desc_perm|].
  split; [apply (SortFacts.sorted_desc_sorted (fun i => nth i xs 0%Q)) | reflexivity].
Qed.

Definition small_arrays : Numerics :=
  {| embedding := pystr;
     movie_text := title;
     encode := fun text => text;
     cos_sim := length_sim;
     linalg_norm := norm;
     cosine_similarity := cosine;
     argsort := insertion_argsort;
     argsort_perm := insertion_argsort_perm;
     argsort_sorted := insertion_argsort_sorted;
     topk := insertion_topk;
     topk_spec := insertion_topk_spec |}.

End Reference.

(** ** The scorer *)

Module CrawlerFacts.
Import Crawler DictFacts RoundFacts.

(** The ten categories, in the order of the lexicon. *)
Definition categories : list pystr := map fst emotion_lexicon.

Definition categoryb (k : pystr) : bool := existsb (str_eqb k) categories.

Lemma categoryb_In (k : pystr) : categoryb k = true -> In k categories.
Proof.
  unfold categoryb. rewrite existsb_exists. intros (x & I & E).
  apply str_eqb_eq in E. now subst.
Qed.

Lemma NoDup_categories : NoDup categories.
Proof. apply all_distinct_NoDup. vm_compute. reflexivity. Qed.

(** Scores a strategy may hold: distinct categories, each with a positive
    score. *)
Definition well_scored (d : Dict.t pystr nat) : Prop :=
  NoDup (Dict.keys d) /\ Forall (fun e => In (fst e) categories /\ 0 < snd e) d.

Lemma well_scored_nil : well_scored [].
Proof. split; constructor. Qed.

Lemma well_scored_set d k n :
  well_scored d -> In k categories -> 0 < n -> well_scored (Dict.set d k n).
Proof.
  intros [ND F] I P. split.
  - now apply NoDup_keys_set.
  - apply Forall_set; simpl; auto.
Qed.

Lemma well_scored_bump d k n :
  well_scored d -> In k categories -> 0 < n -> well_scored (bump d k n).
Proof. intros W I P. apply well_scored_set; auto. lia. Qed.

(** A closed association list with distinct categories and positive scores. *)
Definition well_scoredb (d : Dict.t pystr nat) : bool :=
  forallb (fun e => categoryb (fst e) && (0 <? snd e)) d.

Lemma well_scoredb_Forall d :
  well_scoredb d = true -> Forall (fun e => In (fst e) categories /\ 0 < snd e) d.
Proof.
  unfold well_scoredb. rewrite forallb_forall, Forall_forall.
  intros A e I. specialize (A e I). apply andb_true_iff in A as [C P].
  split; [now apply categoryb_In | now apply Nat.ltb_lt].
Qed.

Lemma fold_bump_well_scored (emotions : Dict.t pystr nat) d :
  well_scoredb emotions = true -> well_scored d ->
  well_scored (fold_left (fun sc e => bump sc (fst e) (snd e)) emotions d).
Proof.
  intros B. apply well_scoredb_Forall in B.
  revert d; induction B as [|e l [I P] B IH]; intros d W; simpl; [assumption|].
  apply IH. now apply well_scored_bump.
Qed.

Section Scorer.
Context `{Unicode} `{PySet}.

(** The loop over the lexicon keeps the categories that scored, in lexicon
    order, and adds up their scores. *)
Lemma primary_scores_from (lex : list (pystr * list pystr)) text d total :
  NoDup (map fst lex) ->
  (forall e, In e lex -> ~ In (fst e) (Dict.keys d)) ->
  let hits := filter (fun e => 0 <? category_score (snd e) text) lex in
  fold_left
    (fun acc entry =>
       let score := category_score (snd entry) text in
       if 0 <? score
       then (Dict.set (fst acc) (fst entry) score, snd acc + score)
       else acc)
    lex (d, total)
  = (d ++ map (fun e => (fst e, category_score (snd e) text)) hits,
     total + nat_sum (map (fun e => category_score (snd e) text) hits)).
Proof.
  revert d total; induction lex as [|e lex IH]; intros d total ND F; simpl.
  - now rewrite app_nil_r, Nat.add_0_r.
  - inversion_clear ND as [|? ? N ND'].
    destruct (0 <? category_score (snd e) text) eqn:E; cbn [fst snd].
    + rewrite set_fresh by (apply F; now left).
      rewrite IH; [|assumption|].
      * cbn [map]. rewrite nat_sum_cons, <- app_assoc. simpl. f_equal. lia.
      * intros b I. unfold Dict.keys. rewrite map_app, in_app_iff. simpl.
        intros [J|[J|[]]]; [apply (F b); [now right | exact J]|].
        apply N. rewrite J. now apply in_map.
    + apply IH; [assumption|]. intros b I. apply F. now right.
Qed.

Lemma primary_scores_spec text :
  let hits := filter (fun e => 0 <? category_score (snd e) text) emotion_lexicon in
  primary_scores emotion_lexicon text
  = (map (fun e => (fst e, category_score (snd e) text)) hits,
     nat_sum (map (fun e => category_score (snd e) text) hits)).
Proof.
  unfold primary_scores.
  rewrite primary_scores_from; [reflexivity | exact NoDup_categories | intros ? ? []].
Qed.

Lemma primary_well_scored text :
  well_scored (fst (primary_scores emotion_lexicon text))
  /\ snd (primary_scores emotion_lexicon text)
     = nat_sum (Dict.values (fst (primary_scores emotion_lexicon text))).
Proof.
  rewrite primary_scores_spec. cbn [fst snd].
  set (hits := filter _ _).
  assert (I : incl hits emotion_lexicon) by (intros e; apply filter_In).
  assert (ND : NoDup (map fst hits)).
  { apply NoDup_map_filter. exact NoDup_categories. }
  split; [split|].
  - unfold Dict.keys. rewrite map_map. exact ND.
  - apply Forall_forall. intros e J. apply in_map_iff in J as (x & <- & J).
    cbn [fst snd]. split.
    + apply (in_map fst), I, J.
    + apply filter_In in J as [_ J]. now apply Nat.ltb_lt.
  - unfold Dict.values. now rewrite map_map.
Qed.

Lemma extended_well_scored text : well_scored (extended_scores text).
Proof.
  unfold extended_scores.
  assert (C : Forall (fun e => In (fst e) categories) extended_emotion_lexicon).
  { apply Forall_forall. intros e I. apply categoryb_In.
    revert e I. apply forallb_forall. vm_compute. reflexivity. }
  generalize well_scored_nil.
  generalize (@nil (pystr * nat)) as d.
  induction C as [|e l I C IH]; intros d W; simpl; [assumption|].
  apply IH. destruct (0 <? _) eqn:E; [|assumption].
  apply well_scored_set; auto. now apply Nat.ltb_lt.
Qed.

Lemma genre_well_scored genres d : well_scored d -> well_scored (genre_scores genres d).
Proof.
  intros W. unfold genre_scores.
  destruct genres as [[|g gs]|]; try assumption.
  destruct d as [|e d]; [|assumption].
  generalize (g :: gs) as l. clear g gs. intros l.
  revert W. generalize (@nil (pystr * nat)) as d.
  induction l as [|g l IH]; intros d W; cbn [fold_left]; [assumption|].
  apply IH. destruct (Dict.get genre_emotion_map g) as [[|c e]|] eqn:G; try assumption.
  apply well_scored_bump; [assumption | | lia].
  apply get_In in G. apply categoryb_In.
  revert G. generalize (c :: e) as emotion. intros emotion G.
  assert (A : forallb (fun kv => categoryb (snd kv)) genre_emotion_map = true)
    by (vm_compute; reflexivity).
  rewrite forallb_forall in A. exact (A _ G).
Qed.

Lemma known_well_scored title_lower d :
  well_scored d -> well_scored (known_movie_scores known_movie_emotions title_lower d).
Proof.
  assert (A : forallb (fun kv => well_scoredb (snd kv)) known_movie_emotions = true)
    by (vm_compute; reflexivity).
  rewrite forallb_forall in A. revert A.
  generalize known_movie_emotions as table.
  induction table as [|[t e] table IH]; intros A W; simpl; [assumption|].
  destruct (contains t title_lower).
  - apply fold_bump_well_scored; [|assumption]. apply (A (t, e)). now left.
  - apply IH; [|assumption]. intros x I. apply A. now right.
Qed.

Lemma well_scored_closed d :
  all_distinct (Dict.keys d) && well_scoredb d = true -> well_scored d.
Proof.
  intros E. apply andb_true_iff in E as [N W].
  split; [now apply all_distinct_NoDup | now apply well_scoredb_Forall].
Qed.

Lemma default_well_scored overview tagline title_text d :
  well_scored d ->
  well_scored (default_scores overview tagline title_text d)
  /\ default_scores overview tagline title_text d <> [].
Proof.
  intros W. unfold default_scores. destruct d as [|e d]; [|split; [assumption|discriminate]].
  repeat match goal with
         | |- context [if ?c then _ else _] => destruct c
         end;
    (split; [apply well_scored_closed; vm_compute; reflexivity | discriminate]).
Qed.

Lemma fallback_well_scored overview tagline keywords genres :
  well_scored (fallback_emotion_analysis overview tagline keywords genres)
  /\ fallback_emotion_analysis overview tagline keywords genres <> [].
Proof.
  unfold fallback_emotion_analysis. apply default_well_scored.
  apply known_well_scored, genre_well_scored, extended_well_scored.
Qed.

(** Whatever the input, the scores handed to the normalisation are a
    non-empty set of distinct categories with positive scores, and the total
    is their sum. *)
Lemma emotion_scores_of_spec overview tagline keywords genres :
  let scores := emotion_scores_of overview tagline keywords genres in
  well_scored (fst scores) /\ fst scores <> []
  /\ snd scores = nat_sum (Dict.values (fst scores)).
Proof.
  unfold emotion_scores_of.
  set (text := combined_text overview tagline keywords).
  destruct (primary_well_scored text) as [W T].
  destruct (fst (primary_scores emotion_lexicon text)) as [|e d] eqn:E; cbn [fst snd].
  - destruct (fallback_well_scored overview tagline keywords genres) as [W' N].
    auto.
  - rewrite E. repeat split; try apply W; [discriminate | exact T].
Qed.

Lemma well_scored_total d : well_scored d -> d <> [] -> 0 < nat_sum (Dict.values d).
Proof.
  intros [_ F] N. destruct d as [|e d]; [congruence|].
  inversion_clear F as [|? ? [_ P] _]. cbn [Dict.values map]. rewrite nat_sum_cons. lia.
Qed.

Lemma normalize_spec d total :
  NoDup (Dict.keys d) -> 0 < total ->
  normalize d total
  = map (fun e => (fst e, py_round (true_divide (snd e) total) 3)) d.
Proof.
  intros ND P. unfold normalize.
  apply Nat.ltb_lt in P. rewrite P.
  now apply (fold_set_map fst (fun e => py_round (true_divide (snd e) total) 3)).
Qed.

(** The profile of any input, in closed form. *)
Lemma profile_spec overview tagline keywords genres :
  let scores := emotion_scores_of overview tagline keywords genres in
  emotion_profile (analyze_movie_emotion overview tagline keywords genres)
  = map (fun e => (fst e, py_round (true_divide (snd e) (snd scores)) 3)) (fst scores).
Proof.
  cbv zeta. unfold analyze_movie_emotion. cbn [emotion_profile].
  destruct (emotion_scores_of_spec overview tagline keywords genres) as (W & N & T).
  apply normalize_spec; [apply W|]. rewrite T. now apply well_scored_total.
Qed.

Lemma map_not_nil {E R : Type} (entries : list E) (each : E -> R) :
  entries <> [] -> map each entries <> [].
Proof. destruct entries; [congruence | discriminate]. Qed.

Lemma profile_keys overview tagline keywords genres :
  let profile :=
    emotion_profile (analyze_movie_emotion overview tagline keywords genres) in
  NoDup (Dict.keys profile) /\ incl (Dict.keys profile) categories /\ profile <> [].
Proof.
  cbv zeta. rewrite profile_spec.
  destruct (emotion_scores_of_spec overview tagline keywords genres) as ([ND F] & N & T).
  rewrite keys_map_values. split; [exact ND|]. split; [|now apply map_not_nil].
  intros k I. apply in_map_iff in I as (e & <- & I).
  rewrite Forall_forall in F. exact (proj1 (F e I)).
Qed.

Lemma Qsum_rounded_shares (d : Dict.t pystr nat) (total : nat) :
  total = nat_sum (Dict.values d) -> 0 < total -> length d <= 10 ->
  (Qabs (Qsum (Dict.values
                 (map (fun e => (fst e, py_round (true_divide (snd e) total) 3)) d))
         - 1)
   <= Qnat (length (map (fun e => (fst e, py_round (true_divide (snd e) total) 3)) d))
      * (1 # 2000))%Q.
Proof.
  intros T P L. rewrite values_map_values, length_map.
  pose proof (Qsum_rounded_doubles (map (fun e => Qnat (snd e) / Qnat total)%Q d)) as R.
  rewrite map_map, length_map in R. apply R; [|exact L|].
  - apply Forall_forall. intros x I. apply in_map_iff in I as (e & <- & I).
    assert (U : (0 <= Qnat (snd e) / Qnat total <= 1)%Q).
    { apply share_unit; [|exact P]. rewrite T. apply nat_sum_In.
      unfold Dict.values. now apply in_map. }
    rewrite Qabs_pos; lra.
  - rewrite <- (map_map snd (fun x => Qnat x / Qnat total)%Q).
    rewrite Qsum_shares by assumption. fold (Dict.values d). rewrite <- T.
    field. now apply Qnat_nonzero.
Qed.

Lemma well_scored_length d : well_scored d -> length d <= 10.
Proof.
  intros [ND F]. unfold Dict.keys in ND.
  rewrite <- (length_map fst). change 10 with (length categories).
  apply (NoDup_incl_length ND).
  intros k I. apply in_map_iff in I as (e & <- & I).
  rewrite Forall_forall in F. exact (proj1 (F e I)).
Qed.

(** The values of a profile add up to one, up to half a thousandth for each
    of its categories. *)
Lemma profile_sum overview tagline keywords genres :
  let profile :=
    emotion_profile (analyze_movie_emotion overview tagline keywords genres) in
  (Qabs (Qsum (Dict.values profile) - 1) <= Qnat (length profile) * (1 # 2000))%Q.
Proof.
  cbv zeta. rewrite profile_spec.
  destruct (emotion_scores_of_spec overview tagline keywords genres) as (W & N & T).
  apply Qsum_rounded_shares; [exact T| |now apply well_scored_length].
  rewrite T. now apply well_scored_total.
Qed.

(** *** The tag generator *)

(** C8. For every emotion profile the tag generator returns at most six tags,
    no tag twice; for the empty profile it returns the fixed list of three
    generic tags. *)
Theorem mood_tags_bounded (profile : Dict.t pystr Q) :
  length (generate_mood_tags profile) <= 6
  /\ NoDup (generate_mood_tags profile)
  /\ generate_mood_tags [] = [u "情感丰富"; u "引人深思"; u "值得一看"]
  /\ length (generate_mood_tags []) = 3.
Proof.
  split; [|split; [|split; reflexivity]].
  - destruct profile as [|e profile]; [vm_compute; lia|].
    unfold generate_mood_tags. rewrite length_firstn. lia.
  - destruct profile as [|e profile].
    + apply all_distinct_NoDup. vm_compute. reflexivity.
    + unfold generate_mood_tags. apply NoDup_firstn, set_order_NoDup.
Qed.

(** *** One matching category *)

Lemma category_score_from words text n :
  fold_left (fun score word => score + keyword_score word text) words n
  = n + category_score words text.
Proof.
  unfold category_score. revert n; induction words as [|w words IH]; intros n; simpl.
  - lia.
  - rewrite IH, (IH (keyword_score w text)). lia.
Qed.

Lemma category_score_cons w words text :
  category_score (w :: words) text = keyword_score w text + category_score words text.
Proof. unfold category_score at 1. simpl. apply category_score_from. Qed.

Lemma category_score_zero words text :
  (forall w, In w words -> keyword_score w text = 0) -> category_score words text = 0.
Proof.
  induction words as [|w words IH]; intros Z; [reflexivity|].
  rewrite category_score_cons, Z by (now left). apply IH. intros x I. apply Z. now right.
Qed.

Lemma category_score_pos w words text :
  In w words -> 0 < keyword_score w text -> 0 < category_score words text.
Proof.
  induction words as [|x words IH]; intros I P; [destruct I|].
  rewrite category_score_cons. destruct I as [->|I]; [lia|].
  specialize (IH I P). lia.
Qed.

(** When exactly one category of the lexicon scores, the profile gives it
    the whole weight and it is the only dominant emotion. *)
Lemma single_category emotion words others overview tagline keywords genres :
  emotion_lexicon = (emotion, words) :: others ->
  let text := combined_text overview tagline keywords in
  0 < category_score words text ->
  (forall e, In e others -> category_score (snd e) text = 0) ->
  let r := analyze_movie_emotion overview tagline keywords genres in
  emotion_profile r = [(emotion, 1%Q)] /\ dominant_emotions r = [emotion].
Proof.
  intros L text P Z.
  assert (S : emotion_scores_of overview tagline keywords genres
              = ([(emotion, category_score words text)], category_score words text)).
  { unfold emotion_scores_of. fold text. rewrite primary_scores_spec. rewrite L.
    cbn [filter fst snd]. apply Nat.ltb_lt in P. rewrite P.
    rewrite filter_none.
    - reflexivity.
    - intros e I. rewrite (Z e I). reflexivity. }
  assert (N : normalize [(emotion, category_score words text)] (category_score words text)
              = [(emotion, 1%Q)]).
  { rewrite normalize_spec; [|repeat constructor; simpl; tauto | assumption].
    cbn [map fst snd]. unfold true_divide.
    rewrite (double_comp _ 1%Q); [reflexivity|].
    field. now apply Qnat_nonzero. }
  cbv zeta. unfold analyze_movie_emotion. rewrite S. cbn [fst snd].
  cbn [emotion_profile dominant_emotions]. rewrite N. split; reflexivity.
Qed.

(** C9. When the combined text contains "happy" and "laughter" and no other
    word of the primary lexicon matches it (short words between word
    boundaries, longer ones as substrings, counted twice when longer than four
    characters), the normalized joy score is 1.0 and the dominant emotions are
    the one-element list [joy]. *)
Theorem happy_laughter_joy overview tagline keywords genres :
  let text := combined_text overview tagline keywords in
  contains (u "happy") text = true ->
  contains (u "laughter") text = true ->
  (forall entry word,
      In entry emotion_lexicon -> In word (snd entry) ->
      word <> u "happy" -> word <> u "laughter" -> keyword_score word text = 0) ->
  let r := analyze_movie_emotion overview tagline keywords genres in
  Dict.get (emotion_profile r) (u "joy") = Some 1%Q
  /\ emotion_profile r = [(u "joy", 1%Q)]
  /\ dominant_emotions r = [u "joy"].
Proof.
  intros text Hh Hl Hz.
  assert (L : emotion_lexicon
              = (u "joy", snd (hd ([], []) emotion_lexicon)) :: tl emotion_lexicon)
    by (vm_compute; reflexivity).
  destruct (single_category _ _ _ overview tagline keywords genres L) as [P D].
  - fold text. apply (category_score_pos (u "happy")).
    + vm_compute. tauto.
    + unfold keyword_score.
      change (length (u "happy") <=? 3) with false.
      change (4 <? length (u "happy")) with true. cbv iota.
      pose proof (contains_count (u "happy") text) as C.
      assert (0 < str_count text (u "happy")); [|lia].
      apply C; [discriminate | exact Hh].
  - fold text. intros e I. apply category_score_zero. intros w J.
    assert (A : forallb (fun e => forallb (fun w => negb (str_eqb w (u "happy"))
                                                   && negb (str_eqb w (u "laughter")))
                                          (snd e))
                        (tl emotion_lexicon) = true) by (vm_compute; reflexivity).
    rewrite forallb_forall in A. specialize (A e I).
    rewrite forallb_forall in A. specialize (A w J).
    apply andb_true_iff in A as [A1 A2]. apply negb_true_iff in A1, A2.
    apply (Hz e w); [rewrite L; now right | exact J | |];
      intros ->; [vm_compute in A1 | vm_compute in A2]; discriminate.
  - cbv zeta. rewrite P. repeat split; assumption.
Qed.

(** A boolean form of "no other lexicon word matches", for closed texts. *)
Definition only_matches (allowed : list pystr) (text : pystr) : bool :=
  forallb
    (fun entry =>
       forallb
         (fun word => existsb (str_eqb word) allowed || (keyword_score word text =? 0))
         (snd entry))
    emotion_lexicon.

Lemma only_matches_spec (a b text : pystr) :
  only_matches [a; b] text = true ->
  forall entry word,
    In entry emotion_lexicon -> In word (snd entry) ->
    word <> a -> word <> b -> keyword_score word text = 0.
Proof.
  unfold only_matches. intros A entry word I J Na Nb.
  rewrite forallb_forall in A. specialize (A entry I).
  rewrite forallb_forall in A. specialize (A word J).
  apply orb_true_iff in A as [A|A]; [|now apply Nat.eqb_eq].
  cbn [existsb] in A. rewrite orb_false_r in A.
  apply orb_true_iff in A as [A|A]; apply str_eqb_eq in A; contradiction.
Qed.

(** *** The fallback chain *)

Lemma get_bump (d : Dict.t pystr nat) k n e m :
  Dict.get d e = Some m -> exists m', Dict.get (bump d k n) e = Some m' /\ m <= m'.
Proof.
  intros G. unfold bump. destruct (str_eqb k e) eqn:E.
  - apply str_eqb_eq in E. subst k. rewrite get_set_same.
    unfold Dict.get_default. rewrite G. eexists; split; [reflexivity | lia].
  - rewrite get_set_other.
    + eexists; split; [exact G | lia].
    + intros ->. assert (T : str_eqb e e = true) by now apply str_eqb_eq. congruence.
Qed.

Lemma get_fold_bump (emotions : Dict.t pystr nat) d e m :
  Dict.get d e = Some m ->
  exists m',
    Dict.get (fold_left (fun sc x => bump sc (fst x) (snd x)) emotions d) e = Some m'
    /\ m <= m'.
Proof.
  revert d m; induction emotions as [|x emotions IH]; intros d m G; cbn [fold_left].
  - eexists; split; [exact G | lia].
  - destruct (get_bump d (fst x) (snd x) e m G) as (m1 & G1 & L1).
    destruct (IH _ _ G1) as (m2 & G2 & L2). exists m2. split; [exact G2 | lia].
Qed.

Lemma get_known_movie_scores table title_lower d e m :
  Dict.get d e = Some m ->
  exists m', Dict.get (known_movie_scores table title_lower d) e = Some m' /\ m <= m'.
Proof.
  intros G. induction table as [|[t emotions] table IH]; cbn [known_movie_scores].
  - eexists; split; [exact G | lia].
  - destruct (contains t title_lower); [now apply get_fold_bump | exact IH].
Qed.

(** C1, as the code has it. When the primary lexicon matches nothing the
    scores come from the fallback, whose strategies run in this order: the
    extended lexicon; the genre table, consulted only when the extended
    lexicon scored nothing; the per-title overrides, applied whenever a listed
    title occurs in the overview, which keep every category already scored
    and only add to its score; and the text-length and trigger-word
    heuristics with the default distribution, used only when the three
    earlier strategies left no score at all. *)
Theorem fallback_chain overview tagline keywords genres :
  fst (primary_scores emotion_lexicon (combined_text overview tagline keywords)) = [] ->
  let title_text := lower (tagline ++ u " " ++ overview) in
  let title_lower := match overview with [] => [] | _ :: _ => lower overview end in
  let by_lexicon := extended_scores title_text in
  let by_genre := genre_scores genres by_lexicon in
  let by_title := known_movie_scores known_movie_emotions title_lower by_genre in
  let final := default_scores overview tagline title_text by_title in
  emotion_scores_of overview tagline keywords genres
  = (final, nat_sum (Dict.values final))
  /\ (by_lexicon <> [] -> by_genre = by_lexicon)
  /\ (forall e n, Dict.get by_genre e = Some n ->
                  exists n', Dict.get by_title e = Some n' /\ n <= n')
  /\ (by_title <> [] -> final = by_title)
  /\ (by_title = [] ->
      by_lexicon = [] /\ by_genre = []
      /\ final = default_scores overview tagline title_text []).
Proof.
  intros P title_text title_lower by_lexicon by_genre by_title final.
  assert (M : forall e n, Dict.get by_genre e = Some n ->
                          exists n', Dict.get by_title e = Some n' /\ n <= n')
    by (intros e n; apply get_known_movie_scores).
  assert (G : by_lexicon <> [] -> by_genre = by_lexicon).
  { subst by_genre. unfold genre_scores. destruct by_lexicon; [congruence|].
    intros _. now destruct genres as [[|? ?]|]. }
  assert (Z : by_title = [] -> by_genre = []).
  { intros E. destruct by_genre as [|[e n] rest] eqn:B; [reflexivity|].
    destruct (M e n) as (n' & G' & _).
    - cbn [Dict.get]. replace (key_eqb e e) with true; [reflexivity|].
      symmetry. now apply key_eqb_eq.
    - rewrite E in G'. discriminate. }
  split; [|split; [|split; [|split]]].
  - unfold emotion_scores_of. rewrite P. reflexivity.
  - exact G.
  - exact M.
  - subst final. unfold default_scores. destruct by_title; [congruence | reflexivity].
  - intros E. split; [|split].
    + destruct by_lexicon as [|x l] eqn:B; [reflexivity|].
      rewrite <- G by discriminate. now apply Z.
    + now apply Z.
    + subst final. now rewrite E.
Qed.

End Scorer.

(** *** Closed examples, at the reference instances *)

Section Examples.
#[local] Existing Instance Reference.basic_unicode.
#[local] Existing Instance Reference.first_seen.

(** The overview names a listed title and the genre is in the genre table:
    nothing of the primary or the extended lexicon occurs. *)
Lemma fallback_chain_witness :
  fst (primary_scores emotion_lexicon (combined_text (u "教父的故事") [] [])) = []
  /\ emotion_scores_of (u "教父的故事") [] [] (Some [u "剧情"])
     = ([(u "sadness", 4); (u "tension", 3); (u "anger", 2)], 9).
Proof.
  assert (P : fst (primary_scores emotion_lexicon
                     (combined_text (u "教父的故事") [] [])) = [])
    by (vm_compute; reflexivity).
  split; [exact P|].
  pose proof (fallback_chain (u "教父的故事") [] [] (Some [u "剧情"]) P) as F.
  cbv zeta in F. destruct F as [F _].
  etransitivity; [exact F|]. vm_compute. reflexivity.
Defined.

(** C1, refuted as stated: the genre table has already scored "sadness", and
    the per-title override still contributes, raising "sadness" and adding
    "tension" and "anger". *)
Lemma overrides_add_to_genre_scores :
  fst (primary_scores emotion_lexicon (combined_text (u "教父的故事") [] [])) = []
  /\ extended_scores (lower ([] ++ u " " ++ u "教父的故事")) = []
  /\ genre_scores (Some [u "剧情"]) [] = [(u "sadness", 2)]
  /\ fallback_emotion_analysis (u "教父的故事") [] [] (Some [u "剧情"])
     = [(u "sadness", 4); (u "tension", 3); (u "anger", 2)]
  /\ emotion_profile (analyze_movie_emotion (u "教父的故事") [] [] (Some [u "剧情"]))
     = [(u "sadness", thousandths 444); (u "tension", thousandths 333);
        (u "anger", thousandths 222)].
Proof. vm_compute. repeat split. Qed.

Lemma happy_laughter_joy_witness :
  contains (u "happy") (combined_text (u "A happy tale full of laughter") [] []) = true
  /\ contains (u "laughter") (combined_text (u "A happy tale full of laughter") [] [])
     = true
  /\ emotion_profile
       (analyze_movie_emotion (u "A happy tale full of laughter") [] [] None)
     = [(u "joy", 1%Q)]
  /\ dominant_emotions
       (analyze_movie_emotion (u "A happy tale full of laughter") [] [] None)
     = [u "joy"].
Proof.
  split; [vm_compute; reflexivity|]. split; [vm_compute; reflexivity|].
  apply (happy_laughter_joy (u "A happy tale full of laughter") [] [] None).
  - vm_compute; reflexivity.
  - vm_compute; reflexivity.
  - apply only_matches_spec. vm_compute; reflexivity.
Defined.

End Examples.
End CrawlerFacts.

(** ** The loader *)

Module LoaderFacts.
Import Recommender DictFacts RoundFacts.
#[local] Open Scope Q_scope.

Lemma Qlt_bool_iff (a b : Q) : Qlt_bool a b = true <-> a < b.
Proof.
  unfold Qlt_bool. rewrite negb_true_iff. split.
  - intros E. destruct (Qlt_le_dec a b) as [L|L]; [assumption|].
    apply Qle_bool_iff in L. congruence.
  - intros L. destruct (Qle_bool b a) eqn:E; [|reflexivity].
    apply Qle_bool_iff in E. lra.
Qed.

Lemma Qsum_zero (xs : list Q) : (forall x, In x xs -> x == 0) -> Qsum xs == 0.
Proof.
  induction xs as [|x xs IH]; intros Z; [reflexivity|].
  rewrite Qsum_cons, (Z x) by (now left). rewrite IH; [lra|].
  intros y I. apply Z. now right.
Qed.


Lemma Qsum_pick (g : pystr -> Q) (k : pystr) (v : Q) (l : list pystr) :
  NoDup l -> In k l ->
  Qsum (map (fun e => if str_eqb k e then v else g e) l)
  == v + Qsum (map g l) - g k.
Proof.
  induction l as [|x l IH]; intros ND I; [destruct I|].
  inversion_clear ND as [|? ? N ND']. cbn [map]. rewrite !Qsum_cons.
  destruct (str_eqb k x) eqn:E.
  - apply str_eqb_eq in E. subst x.
    rewrite (map_ext_in _ g).
    + lra.
    + intros e J. destruct (str_eqb k e) eqn:E; [|reflexivity].
      apply str_eqb_eq in E. subst e. contradiction.
  - destruct I as [->|I].
    + assert (T : str_eqb k k = true) by now apply str_eqb_eq. congruence.
    + rewrite (IH ND' I). lra.
Qed.

(** Filling in zeros does not change the total of a profile over the
    labels. *)
Lemma Qsum_dense (profile : Dict.t pystr Q) (labels : list pystr) :
  NoDup labels -> NoDup (Dict.keys profile) -> incl (Dict.keys profile) labels ->
  Qsum (map (fun e => Dict.get_default profile e 0) labels)
  == Qsum (Dict.values profile).
Proof.
  intros NL. induction profile as [|[k v] profile IH]; intros NP I.
  - apply Qsum_zero. intros x J. apply in_map_iff in J as (e & <- & _). reflexivity.
  - inversion_clear NP as [|? ? N NP']. cbn [Dict.values map snd]. rewrite Qsum_cons.
    rewrite (map_ext _ (fun e => if str_eqb k e then v
                                 else Dict.get_default profile e 0))
      by (intros e; unfold Dict.get_default; cbn [Dict.get];
          change (key_eqb k e) with (str_eqb k e);
          now destruct (str_eqb k e)).
    rewrite Qsum_pick; [|assumption | apply I; now left].
    rewrite IH; [|assumption | intros e J; apply I; now right].
    assert (Z : Dict.get_default profile k 0 = 0).
    { unfold Dict.get_default. now rewrite (proj2 (get_None profile k) N). }
    rewrite Z. unfold Dict.values. lra.
Qed.

Lemma NoDup_fixed_emotion_labels : NoDup fixed_emotion_labels.
Proof. apply all_distinct_NoDup. vm_compute. reflexivity. Qed.

Lemma zero_fill_spec (profile : Dict.t pystr Q) :
  zero_fill profile
  = map (fun e => (e, Dict.get_default profile e 0)) fixed_emotion_labels.
Proof.
  unfold zero_fill.
  apply (fold_set_map (fun e => e) (fun e => Dict.get_default profile e 0)).
  rewrite map_id. exact NoDup_fixed_emotion_labels.
Qed.

Lemma keys_zero_fill (profile : Dict.t pystr Q) :
  Dict.keys (zero_fill profile) = fixed_emotion_labels.
Proof.
  rewrite zero_fill_spec. unfold Dict.keys. rewrite map_map. apply map_id.
Qed.

Lemma Qsum_nonneg (xs : list Q) : Forall (fun x => 0 <= x) xs -> 0 <= Qsum xs.
Proof.
  induction 1 as [|x xs P F IH]; [vm_compute; discriminate|].
  rewrite Qsum_cons. lra.
Qed.

Lemma Qsum_member (xs : list Q) (x : Q) :
  Forall (fun x => 0 <= x) xs -> In x xs -> x <= Qsum xs.
Proof.
  induction 1 as [|y xs P F IH]; intros I; [destruct I|].
  rewrite Qsum_cons. pose proof (Qsum_nonneg xs F) as S.
  destruct I as [->|I]; [lra|]. specialize (IH I). lra.
Qed.

Lemma get_default_nonneg (profile : Dict.t pystr Q) (e : pystr) :
  Forall (fun entry => 0 <= snd entry) profile -> 0 <= Dict.get_default profile e 0.
Proof.
  intros F. unfold Dict.get_default. destruct (Dict.get profile e) as [v|] eqn:G.
  - apply get_In in G. rewrite Forall_forall in F. exact (F _ G).
  - lra.
Qed.

(** *** The float total *)

Lemma double_overflow_positive : 0 < double_overflow.
Proof. reflexivity. Qed.

(** A total that stays in range is the exact sum. *)
Lemma float_sum_from_finite (values : list Q) (acc t : Q) :
  float_sum_from acc values = Finite t -> t = fold_left Qplus values acc.
Proof.
  revert acc. induction values as [|v values IH]; intros acc E; cbn in E.
  - now injection E as <-.
  - destruct (Qle_bool double_overflow (acc + v)); [discriminate|].
    destruct (Qle_bool (acc + v) (- double_overflow)); [discriminate|].
    exact (IH _ E).
Qed.

Lemma float_sum_finite (values : list Q) (t : Q) :
  float_sum values = Finite t -> t = Qsum values.
Proof. apply float_sum_from_finite. Qed.

Lemma Qle_bool_false (a b : Q) : b < a -> Qle_bool a b = false.
Proof.
  intros L. destruct (Qle_bool a b) eqn:E; [|reflexivity].
  apply Qle_bool_iff in E. lra.
Qed.

(** Values that are not negative and add up to less than the overflow
    threshold have a finite total. *)
Lemma float_sum_from_in_range (values : list Q) (acc : Q) :
  0 <= acc -> Forall (fun v => 0 <= v) values ->
  fold_left Qplus values acc < double_overflow ->
  float_sum_from acc values = Finite (fold_left Qplus values acc).
Proof.
  intros A F. revert acc A. induction F as [|v values P F IH]; intros acc A B.
  - reflexivity.
  - cbn [float_sum_from fold_left] in *.
    pose proof (Qsum_from values (acc + v)) as S.
    pose proof (Qsum_nonneg values F) as N.
    pose proof double_overflow_positive as O.
    rewrite Qle_bool_false by lra. rewrite Qle_bool_false by lra.
    apply IH; [lra | exact B].
Qed.

Lemma float_sum_in_range (values : list Q) :
  Forall (fun v => 0 <= v) values -> Qsum values < double_overflow ->
  float_sum values = Finite (Qsum values).
Proof. intros F B. apply float_sum_from_in_range; [lra | exact F | exact B]. Qed.

(** The total of values that are not negative is never minus infinity. *)
Lemma float_sum_from_nonneg (values : list Q) (acc : Q) :
  0 <= acc -> Forall (fun v => 0 <= v) values ->
  float_sum_from acc values <> MinusInfinity.
Proof.
  intros A F. revert acc A. induction F as [|v values P F IH]; intros acc A.
  - discriminate.
  - cbn [float_sum_from].
    pose proof double_overflow_positive as O.
    destruct (Qle_bool double_overflow (acc + v)); [discriminate|].
    rewrite Qle_bool_false by lra. apply IH. lra.
Qed.

(** *** The two loops of the loader *)

Lemma renormalize_spec (fixed : Dict.t pystr Q) :
  NoDup (Dict.keys fixed) ->
  positive_total (float_sum (Dict.values fixed)) = true ->
  renormalize fixed
  = map (fun e =>
           (fst e, py_round (float_divide (snd e) (float_sum (Dict.values fixed))) 3))
        fixed.
Proof.
  intros ND P. unfold renormalize. rewrite P.
  apply (fold_update_map
           (fun v => py_round (float_divide v (float_sum (Dict.values fixed))) 3)).
  exact ND.
Qed.

(** The loaded profile has the ten labels as keys, whatever was stored: with
    a positive total every value is divided by it and rounded, and otherwise
    the zero-filled values stay. *)
Lemma fixed_emotion_profile_cases (profile : Dict.t pystr Q) :
  let total := float_sum (Dict.values (zero_fill profile)) in
  fixed_emotion_profile profile
  = map (fun e =>
           (e, if positive_total total
               then py_round (float_divide (Dict.get_default profile e 0) total) 3
               else Dict.get_default profile e 0))
        fixed_emotion_labels.
Proof.
  cbv zeta. unfold fixed_emotion_profile.
  destruct (positive_total (float_sum (Dict.values (zero_fill profile)))) eqn:P.
  - rewrite renormalize_spec;
      [|rewrite keys_zero_fill; exact NoDup_fixed_emotion_labels | exact P].
    rewrite zero_fill_spec at 1. rewrite map_map. reflexivity.
  - unfold renormalize. rewrite P. apply zero_fill_spec.
Qed.

Lemma zero_fill_values (profile : Dict.t pystr Q) :
  Dict.values (zero_fill profile)
  = map (fun e => Dict.get_default profile e 0) fixed_emotion_labels.
Proof. rewrite zero_fill_spec. unfold Dict.values. now rewrite map_map. Qed.

Lemma zero_fill_nonneg (profile : Dict.t pystr Q) :
  Forall (fun entry => 0 <= snd entry) profile ->
  Forall (fun v => 0 <= v) (Dict.values (zero_fill profile)).
Proof.
  intros F. rewrite zero_fill_values. apply Forall_forall.
  intros x J. apply in_map_iff in J as (k & <- & _). now apply get_default_nonneg.
Qed.

(** The loaded profile when the ten values are not negative and have a
    positive sum below the overflow threshold: every value divided by the
    total, as a double, and rounded. *)
Lemma fixed_emotion_profile_spec (profile : Dict.t pystr Q) :
  let total := Qsum (Dict.values (zero_fill profile)) in
  Forall (fun entry => 0 <= snd entry) profile ->
  0 < total < double_overflow ->
  fixed_emotion_profile profile
  = map (fun e => (e, py_round (double (Dict.get_default profile e 0 / total)) 3))
        fixed_emotion_labels.
Proof.
  cbv zeta. intros F [P B]. rewrite fixed_emotion_profile_cases.
  rewrite (float_sum_in_range _ (zero_fill_nonneg profile F) B).
  cbn [positive_total float_divide]. apply Qlt_bool_iff in P. now rewrite P.
Qed.

(** A total beyond the range of the doubles: every loaded value is 0. *)
Lemma fixed_emotion_profile_overflow (profile : Dict.t pystr Q) :
  float_sum (Dict.values (zero_fill profile)) = Infinity ->
  fixed_emotion_profile profile = map (fun e => (e, 0)) fixed_emotion_labels.
Proof.
  intros O. rewrite fixed_emotion_profile_cases, O. reflexivity.
Qed.


End LoaderFacts.

(** ** Profiles: normalisation and the JSON round trip *)

Module ProfileFacts.
Import Crawler Recommender DictFacts RoundFacts CrawlerFacts LoaderFacts.
#[local] Open Scope Q_scope.

Lemma categories_fixed : categories = fixed_emotion_labels.
Proof. vm_compute. reflexivity. Qed.

Lemma length_categories : length categories = 10%nat.
Proof. vm_compute. reflexivity. Qed.

Section Profiles.
Context `{Unicode} `{PySet}.

Lemma keys_length (profile : Dict.t pystr Q) :
  NoDup (Dict.keys profile) -> incl (Dict.keys profile) categories ->
  (length profile <= 10)%nat.
Proof.
  intros ND I. unfold Dict.keys in ND, I.
  rewrite <- (length_map fst), <- length_categories.
  exact (NoDup_incl_length ND I).
Qed.

Lemma profile_length overview tagline keywords genres :
  (length (Crawler.emotion_profile
             (analyze_movie_emotion overview tagline keywords genres)) <= 10)%nat.
Proof.
  apply keys_length; apply (profile_keys overview tagline keywords genres).
Qed.

Lemma profile_sum_tolerance overview tagline keywords genres :
  Qabs (Qsum (Dict.values
                (Crawler.emotion_profile
                   (analyze_movie_emotion overview tagline keywords genres))) - 1)
  <= 5 # 1000.
Proof.
  pose proof (profile_sum overview tagline keywords genres) as S.
  pose proof (profile_length overview tagline keywords genres) as L.
  cbv zeta in S.
  set (profile := Crawler.emotion_profile _) in *.
  assert (B : Qnat (length profile) * (1 # 2000) <= 5 # 1000).
  { assert (Qnat (length profile) <= 10).
    { unfold Qnat. change 10 with (inject_Z 10). rewrite <- Zle_Qle. lia. }
    lra. }
  lra.
Qed.


Lemma exported_total_positive overview tagline keywords genres :
  0 < Qsum (Dict.values
              (Crawler.emotion_profile
                 (analyze_movie_emotion overview tagline keywords genres))).
Proof.
  pose proof (profile_sum_tolerance overview tagline keywords genres) as S.
  apply Qabs_Qle_condition in S. lra.
Qed.

(** Every value of a profile is a share of [0, 1] with three decimals. *)
Lemma profile_value overview tagline keywords genres e v :
  In (e, v)
     (Crawler.emotion_profile
        (analyze_movie_emotion overview tagline keywords genres)) ->
  0 <= v <= 1 /\ py_round v 3 = v.
Proof.
  rewrite profile_spec. intros I.
  destruct (emotion_scores_of_spec overview tagline keywords genres) as (W & N & T).
  set (scores := emotion_scores_of overview tagline keywords genres) in *.
  clearbody scores.
  apply in_map_iff in I as (s & E & I).
  pose proof (f_equal snd E) as E'. cbn [snd] in E'. subst v.
  split; [|apply py_round_idem].
  apply rounded_double_unit, share_unit.
  - rewrite T. apply nat_sum_In. unfold Dict.values. now apply in_map.
  - rewrite T. now apply well_scored_total.
Qed.

(** The values of a profile add up to a number of thousandths, 995 to 1005
    of them. *)
Lemma exported_total_thousandths overview tagline keywords genres :
  exists K : Z,
    Qsum (Dict.values
            (Crawler.emotion_profile
               (analyze_movie_emotion overview tagline keywords genres)))
    == inject_Z K * (1 # 1000)
    /\ (995 <= K <= 1005)%Z.
Proof.
  pose proof (profile_sum_tolerance overview tagline keywords genres) as S.
  rewrite profile_spec in *.
  rewrite values_map_values in *.
  destruct (Qsum_thousandths
              (map (fun e => true_divide
                               (snd e)
                               (snd (emotion_scores_of overview tagline keywords genres)))
                   (fst (emotion_scores_of overview tagline keywords genres))))
    as [K E].
  rewrite map_map in E. exists K. split; [exact E|].
  now apply (thousandths_near_one _ K E).
Qed.

(** The loader applied to a profile of the scorer: the double nearest to
    each quotient is rounded like the quotient itself, as no quotient of
    thousandths by 995 to 1005 thousandths is near a tie of the third
    decimal. *)
Lemma reload_spec overview tagline keywords genres :
  let exported_profile :=
    Crawler.emotion_profile
      (analyze_movie_emotion overview tagline keywords genres) in
  let total := Qsum (Dict.values exported_profile) in
  fixed_emotion_profile exported_profile
  = map (fun e => (e, py_round (Dict.get_default exported_profile e 0 / total) 3))
        fixed_emotion_labels.
Proof.
  cbv zeta.
  destruct (profile_keys overview tagline keywords genres) as (ND & I & _).
  pose proof (exported_total_positive overview tagline keywords genres) as P.
  pose proof (profile_sum_tolerance overview tagline keywords genres) as S.
  destruct (exported_total_thousandths overview tagline keywords genres)
    as (K & TK & BK).
  pose proof (profile_value overview tagline keywords genres) as PV.
  set (profile := Crawler.emotion_profile _) in *.
  assert (T : Qsum (Dict.values (zero_fill profile)) == Qsum (Dict.values profile)).
  { rewrite zero_fill_values.
    apply Qsum_dense; [exact NoDup_fixed_emotion_labels | exact ND |].
    now rewrite <- categories_fixed. }
  assert (F : Forall (fun entry => 0 <= snd entry) profile).
  { apply Forall_forall. intros [e v] J. now apply (PV e v J). }
  apply Qabs_Qle_condition in S.
  rewrite fixed_emotion_profile_spec.
  - apply map_ext. intros e. f_equal.
    rewrite (py_round_comp (Dict.get_default profile e 0 / Qsum (Dict.values profile))
                           (Dict.get_default profile e 0
                            / Qsum (Dict.values (zero_fill profile))))
      by now rewrite T.
    unfold Dict.get_default. destruct (Dict.get profile e) as [v|] eqn:G.
    + apply get_In in G. destruct (PV e v G) as [U R].
      apply (rounded_quotient_of_thousandths v _ (round_half_even (v * 1000)) K).
      * apply rounded_is_thousandths. exact R.
      * rewrite T. exact TK.
      * exact BK.
      * exact U.
    + apply (rounded_quotient_of_thousandths 0 _ 0 K).
      * reflexivity.
      * rewrite T. exact TK.
      * exact BK.
      * lra.
  - exact F.
  - rewrite T. split; [exact P|].
    assert (O : 2 < double_overflow) by reflexivity. lra.
Qed.

(** C6, as the code has it. Reloading the exported records gives every record
    the profile of the loader's zero-fill and renormalisation.  That profile
    has exactly the ten fixed categories; a category the exported profile
    lacks is 0; a category it has carries the exported value divided by the
    sum of the exported values and rounded to three decimals again, which is
    the exported value itself whenever the exported values add up to exactly
    1 and is never further than 0.006 from it. *)
Theorem roundtrip_profile (fetched : list (catalog_item * option item_detail)) :
  let data := crawl_records fetched in
  map Recommender.emotion_profile (load_movies_from_json (map exported data))
  = map (fun m => fixed_emotion_profile (md_emotion_profile m)) data
  /\ forall m, In m data ->
       let exported_profile := md_emotion_profile m in
       let reloaded := fixed_emotion_profile exported_profile in
       let total := Qsum (Dict.values exported_profile) in
       Dict.keys reloaded = fixed_emotion_labels
       /\ (forall e, In e fixed_emotion_labels ->
                     ~ In e (Dict.keys exported_profile) ->
                     Dict.get reloaded e = Some 0)
       /\ (forall e v, Dict.get exported_profile e = Some v ->
                       Dict.get reloaded e = Some (py_round (v / total) 3))
       /\ (total == 1 ->
           forall e v, Dict.get exported_profile e = Some v ->
                       Dict.get reloaded e = Some v)
       /\ (forall e v, Dict.get exported_profile e = Some v ->
                       exists w, Dict.get reloaded e = Some w
                                 /\ Qabs (w - v) <= 6 # 1000).
Proof.
  cbv zeta. split.
  - unfold load_movies_from_json. rewrite !map_map. reflexivity.
  - intros m I. unfold crawl_records in I. apply in_map_iff in I as (f & <- & _).
    unfold merge_record. cbn [md_emotion_profile].
    set (overview := item_overview (fst f)).
    set (tagline := match snd f with Some d => detail_tagline d | None => [] end).
    set (keywords := match snd f with Some d => detail_keywords d | None => [] end).
    set (genres := match snd f with Some d => detail_genres d | None => [] end).
    destruct (profile_keys overview tagline keywords (Some genres)) as (ND & C & _).
    rewrite reload_spec.
    set (profile := Crawler.emotion_profile _) in *.
    set (total := Qsum (Dict.values profile)).
    assert (K : forall e v, Dict.get profile e = Some v -> In e fixed_emotion_labels).
    { intros e v G. rewrite <- categories_fixed. apply C. apply get_In in G.
      exact (in_map fst _ _ G). }
    assert (R : forall e v, Dict.get profile e = Some v ->
                Dict.get (map (fun e => (e, py_round (Dict.get_default profile e 0 / total) 3))
                              fixed_emotion_labels) e
                = Some (py_round (v / total) 3)).
    { intros e v G.
      rewrite (get_map_keys (fun e => py_round (Dict.get_default profile e 0 / total) 3))
        by (eapply K; eassumption).
      unfold Dict.get_default. now rewrite G. }
    split; [|split; [|split; [|split]]].
    + unfold Dict.keys. rewrite map_map. apply map_id.
    + intros e L N.
      rewrite (get_map_keys (fun e => py_round (Dict.get_default profile e 0 / total) 3))
        by assumption.
      unfold Dict.get_default. rewrite (proj2 (get_None profile e) N).
      reflexivity.
    + exact R.
    + intros T e v G. rewrite (R e v G). f_equal.
      destruct (profile_value overview tagline keywords (Some genres) e v) as [_ V];
        [now apply get_In|].
      rewrite (py_round_comp _ v); [exact V|]. rewrite T. field.
    + intros e v G. eexists. split; [exact (R e v G)|].
      apply renormalized_close.
      * now apply (profile_value overview tagline keywords (Some genres) e v), get_In.
      * apply profile_sum_tolerance.
Qed.

End Profiles.

Section Examples.
#[local] Existing Instance Reference.basic_unicode.
#[local] Existing Instance Reference.first_seen.

(** One hit out of eighty: the double nearest to 1 / 80 lies above 0.0125
    and is rounded up, where the quotient itself, a tie, would go down to the
    even 0.012. *)
Example one_eightieth :
  py_round (true_divide 1 80) 3 = thousandths 13
  /\ py_round (1 # 80) 3 = thousandths 12.
Proof. vm_compute. split; reflexivity. Qed.






(** Stored values of both signs with the positive sum 3: the two large
    quotients are doubles with one binary place, which rounding to three
    decimals leaves as they are, and the loaded profile adds up to 1.333. *)
Example loader_mixed_signs :
  fixed_emotion_profile
    [(u "joy", inject_Z (10 ^ 16)); (u "sadness", inject_Z (2 - 10 ^ 16));
     (u "fear", 1)]
  = [(u "joy", 6666666666666667 # 2); (u "sadness", - 6666666666666665 # 2);
     (u "anger", 0); (u "fear", thousandths 333); (u "love", 0); (u "hope", 0);
     (u "loneliness", 0); (u "inspiration", 0); (u "tension", 0); (u "peace", 0)]
  /\ Qsum (Dict.values
             (fixed_emotion_profile
                [(u "joy", inject_Z (10 ^ 16)); (u "sadness", inject_Z (2 - 10 ^ 16));
                 (u "fear", 1)]))
     == 1333 # 1000.
Proof. vm_compute. split; reflexivity. Qed.

Definition sample_item (overview : pystr) : catalog_item * option item_detail :=
  ({| item_id := 1; item_title := u "sample"; item_overview := overview |}, None).

(** C6, refuted as stated: the exported profile 0.667, 0.167, 0.167 adds up
    to 1.001, and the loader's renormalisation turns 0.667 into 0.666. *)
Lemma roundtrip_changes_joy :
  map md_emotion_profile (crawl_records [sample_item (u "happy happy tear hope")])
  = [[(u "joy", thousandths 667); (u "sadness", thousandths 167);
      (u "hope", thousandths 167)]]
  /\ map (fun r => Dict.get (Recommender.emotion_profile r) (u "joy"))
         (load_movies_from_json
            (map exported
                 (crawl_records [sample_item (u "happy happy tear hope")])))
     = [Some (thousandths 666)].
Proof. vm_compute. split; reflexivity. Qed.

(** An exported profile that adds up to exactly 1 is reloaded unchanged. *)
Lemma roundtrip_profile_witness :
  In (merge_record (fst (sample_item (u "happy"))) None)
     (crawl_records [sample_item (u "happy")])
  /\ Qsum (Dict.values
             (md_emotion_profile (merge_record (fst (sample_item (u "happy"))) None)))
     == 1
  /\ Dict.get
       (fixed_emotion_profile
          (md_emotion_profile (merge_record (fst (sample_item (u "happy"))) None)))
       (u "joy")
     = Some 1.
Proof.
  assert (I : In (merge_record (fst (sample_item (u "happy"))) None)
                 (crawl_records [sample_item (u "happy")])) by (left; reflexivity).
  split; [exact I|]. split; [vm_compute; reflexivity|].
  pose proof (roundtrip_profile [sample_item (u "happy")]) as T.
  cbv zeta in T. destruct T as [_ T]. specialize (T _ I).
  destruct T as (_ & _ & _ & T & _).
  apply T; vm_compute; reflexivity.
Defined.

End Examples.
End ProfileFacts.

(** ** The query analyser *)

Module QueryFacts.
Import Recommender DictFacts RoundFacts LoaderFacts.
#[local] Open Scope Q_scope.

(** A closed distribution up to rounding: some entry, every value positive,
    and a total within [2 ^ -53] of one for each entry. *)
Definition distributionb (d : Dict.t pystr Q) : bool :=
  negb (Nat.eqb (length d) 0)
  && forallb (fun e => Qlt_bool 0 (snd e)) d
  && Qle_bool (Qabs (Qsum (Dict.values d) - 1)) (Qnat (length d) * (1 # 2 ^ 53)).

Definition distribution (d : Dict.t pystr Q) : Prop :=
  d <> [] /\ Forall (fun e => 0 < snd e) d
  /\ Qabs (Qsum (Dict.values d) - 1) <= Qnat (length d) * (1 # 2 ^ 53).

Lemma distributionb_spec (d : Dict.t pystr Q) : distributionb d = true -> distribution d.
Proof.
  unfold distributionb. rewrite !andb_true_iff. intros [[N P] S]. split; [|split].
  - destruct d; [discriminate | discriminate].
  - apply Forall_forall. intros e I. rewrite forallb_forall in P.
    now apply Qlt_bool_iff, P.
  - now apply Qle_bool_iff.
Qed.

Lemma nat_sum_positive (l : list (pystr * nat)) :
  nat_sum (map snd (filter (fun e => (0 <? snd e)%nat) l)) = nat_sum (map snd l).
Proof.
  induction l as [|e l IH]; [reflexivity|]. cbn [filter map].
  destruct (0 <? snd e)%nat eqn:E; cbn [map]; rewrite !nat_sum_cons, IH.
  - reflexivity.
  - apply Nat.ltb_ge in E. lia.
Qed.

(** Hit counts divided by their total, each quotient a double, form a
    distribution up to rounding. *)
Lemma shares_distribution (counts : Dict.t pystr nat) :
  (0 < nat_sum (Dict.values counts) <= 100)%nat ->
  distribution
    (map (fun e => (fst e, true_divide (snd e) (nat_sum (Dict.values counts))))
         (filter (fun e => (0 <? snd e)%nat) counts)).
Proof.
  intros [P B]. set (total := nat_sum (Dict.values counts)) in *.
  pose proof (Qnat_nonzero total P) as NZ.
  assert (TP : 0 < Qnat total).
  { unfold Qnat. change 0 with (inject_Z 0). rewrite <- Zlt_Qlt. lia. }
  assert (TB : Qnat total <= 100).
  { unfold Qnat. change 100 with (inject_Z 100). rewrite <- Zle_Qle. lia. }
  assert (U : forall x, In x (filter (fun e => (0 <? snd e)%nat) counts) ->
                        1 # 100 <= Qnat (snd x) / Qnat total <= 1).
  { intros x I. apply filter_In in I as [I Px]. apply Nat.ltb_lt in Px.
    assert (X1 : 1 <= Qnat (snd x)).
    { unfold Qnat. change 1 with (inject_Z 1). rewrite <- Zle_Qle. lia. }
    split.
    - apply Qle_shift_div_l; [exact TP | lra].
    - apply share_unit; [|exact P]. apply nat_sum_In.
      unfold Dict.values. now apply in_map. }
  split; [|split].
  - intros E. apply map_eq_nil in E.
    pose proof (nat_sum_positive counts) as S. rewrite E in S.
    unfold total, Dict.values in P. rewrite <- S in P. unfold nat_sum in P.
    simpl in P. lia.
  - apply Forall_forall. intros e I. apply in_map_iff in I as (x & <- & I).
    cbn [snd]. unfold true_divide. destruct (U x I) as [L R].
    pose proof (double_err (Qnat (snd x) / Qnat total)) as D.
    rewrite Qabs_pos in D by lra.
    assert (D' : Qabs (double (Qnat (snd x) / Qnat total) - Qnat (snd x) / Qnat total)
                 <= 1 # 2 ^ 53) by (apply D; lra).
    apply Qabs_Qle_condition in D'.
    assert (S : (1 # 2 ^ 53) < 1 # 100) by reflexivity. lra.
  - rewrite values_map_values, length_map. unfold true_divide.
    pose proof (Qsum_double_err
                  (map (fun e => Qnat (snd e) / Qnat total)
                       (filter (fun e => (0 <? snd e)%nat) counts))) as D.
    rewrite map_map, length_map in D.
    assert (S1 : Qsum (map (fun e => Qnat (snd e) / Qnat total)
                           (filter (fun e => (0 <? snd e)%nat) counts)) == 1).
    { rewrite <- (map_map snd (fun c => Qnat c / Qnat total)).
      rewrite Qsum_shares by exact P. rewrite nat_sum_positive.
      fold (Dict.values counts). fold total. field. exact NZ. }
    rewrite S1 in D. apply D.
    apply Forall_forall. intros y I. apply in_map_iff in I as (x & <- & I).
    destruct (U x I) as [L R]. rewrite Qabs_pos; lra.
Qed.

(** Counting one more hit for a category of the table. *)
Lemma nat_sum_count (d : Dict.t pystr nat) (k : pystr) :
  In k (Dict.keys d) ->
  nat_sum (Dict.values (Dict.set d k (Dict.get_default d k 0 + 1)%nat))
  = (nat_sum (Dict.values d) + 1)%nat.
Proof.
  induction d as [|[k' v] d IH]; intros I; [destruct I|].
  unfold Dict.get_default. cbn [Dict.get Dict.set].
  destruct (key_eqb k' k) eqn:E.
  - cbn [Dict.values map snd]. rewrite !nat_sum_cons. lia.
  - cbn [Dict.values map snd]. rewrite !nat_sum_cons.
    unfold Dict.get_default, Dict.values in IH.
    rewrite IH; [lia|].
    destruct I as [I|I]; [|exact I]. cbn [fst] in I. subst k'.
    rewrite key_eqb_refl in E. discriminate.
Qed.

Section Query.
Context `{Unicode}.

Lemma keys_count_keywords query query_lower (counts : Dict.t pystr nat) entry :
  In (fst entry) (Dict.keys counts) ->
  Dict.keys (count_keywords query query_lower counts entry) = Dict.keys counts.
Proof.
  unfold count_keywords. generalize (snd entry) as keywords.
  intros keywords. revert counts.
  induction keywords as [|k keywords IH]; intros counts I; [reflexivity|].
  cbn [fold_left].
  destruct (contains k query || contains k query_lower); [|now apply IH].
  rewrite IH; rewrite keys_set_present; auto.
Qed.

Lemma keys_emotion_counts query :
  Dict.keys (emotion_counts query) = map fst emotion_keywords.
Proof.
  unfold emotion_counts.
  set (init := map (fun entry => (fst entry, 0%nat)) emotion_keywords).
  assert (K : Dict.keys init = map fst emotion_keywords)
    by (unfold init, Dict.keys; now rewrite map_map).
  rewrite <- K.
  assert (I : incl (map fst emotion_keywords) (Dict.keys init))
    by (rewrite K; apply incl_refl).
  revert I. generalize init as counts. generalize emotion_keywords as table.
  induction table as [|e table IH]; intros counts I; [reflexivity|].
  cbn [fold_left]. rewrite IH.
  - apply keys_count_keywords. apply I. now left.
  - rewrite keys_count_keywords by (apply I; now left).
    intros k J. apply I. now right.
Qed.

(** Every keyword of a category counts at most once. *)
Lemma count_keywords_bound query query_lower (counts : Dict.t pystr nat) entry :
  In (fst entry) (Dict.keys counts) ->
  (nat_sum (Dict.values (count_keywords query query_lower counts entry))
   <= nat_sum (Dict.values counts) + length (snd entry))%nat.
Proof.
  unfold count_keywords. generalize (snd entry) as keywords.
  intros keywords. revert counts.
  induction keywords as [|k keywords IH]; intros counts I; cbn [fold_left length];
    [lia|].
  destruct (contains k query || contains k query_lower).
  - specialize (IH (Dict.set counts (fst entry)
                             (Dict.get_default counts (fst entry) 0 + 1)%nat)).
    rewrite nat_sum_count in IH by exact I.
    rewrite keys_set_present in IH by exact I. specialize (IH I). lia.
  - specialize (IH counts I). lia.
Qed.

Lemma emotion_counts_bound query :
  (nat_sum (Dict.values (emotion_counts query)) <= 69)%nat.
Proof.
  unfold emotion_counts.
  set (init := map (fun entry => (fst entry, 0%nat)) emotion_keywords).
  change 69%nat
    with (nat_sum (Dict.values init) + nat_sum (map (fun e => length (snd e))
                                                    emotion_keywords))%nat.
  assert (I : incl (map fst emotion_keywords) (Dict.keys init)).
  { unfold init, Dict.keys. rewrite map_map. apply incl_refl. }
  revert I. generalize init as counts. generalize emotion_keywords as table.
  induction table as [|e table IH]; intros counts I; cbn [fold_left map].
  - unfold nat_sum at 3. simpl. lia.
  - rewrite nat_sum_cons.
    pose proof (count_keywords_bound query (lower query) counts e
                  (I _ (or_introl eq_refl))) as B.
    specialize (IH (count_keywords query (lower query) counts e)).
    rewrite keys_count_keywords in IH by (apply I; now left).
    specialize (IH (fun k J => I k (or_intror J))). lia.
Qed.

(** With at least one hit, the extracted emotions are the categories with
    hits, each with its share of the hits. *)
Lemma extracted_shares query :
  let counts := emotion_counts query in
  (0 < nat_sum (Dict.values counts))%nat ->
  extract_emotions_from_query query
  = map (fun e => (fst e, true_divide (snd e) (nat_sum (Dict.values counts))))
        (filter (fun e => (0 <? snd e)%nat) counts).
Proof.
  cbv zeta. intros P. unfold extract_emotions_from_query.
  rewrite (proj2 (Nat.ltb_lt _ _) P).
  rewrite (fold_set_filter fst
             (fun e => true_divide (snd e)
                         (nat_sum (Dict.values (emotion_counts query))))
             (fun e => (0 <? snd e)%nat)).
  - reflexivity.
  - fold (Dict.keys (emotion_counts query)). rewrite keys_emotion_counts.
    apply all_distinct_NoDup. vm_compute. reflexivity.
  - intros a _ [].
Qed.

Lemma extracted_distribution query : distribution (extract_emotions_from_query query).
Proof.
  destruct (0 <? nat_sum (Dict.values (emotion_counts query)))%nat eqn:P.
  - apply Nat.ltb_lt in P. rewrite extracted_shares by exact P.
    apply shares_distribution. pose proof (emotion_counts_bound query). lia.
  - unfold extract_emotions_from_query. rewrite P.
    repeat match goal with
           | |- context [if ?c then _ else _] => destruct c
           end; apply distributionb_spec; vm_compute; reflexivity.
Qed.

End Query.
End QueryFacts.

(** ** The searches *)

Module SearchFacts.
Import Recommender DictFacts RoundFacts LoaderFacts QueryFacts.
#[local] Open Scope Q_scope.

Lemma all_zero_div (v : list Q) (n : Q) :
  0 < n -> all_zero (map (fun x => x / n) v) = all_zero v.
Proof.
  intros P. unfold all_zero. induction v as [|x v IH]; [reflexivity|].
  cbn [map forallb]. rewrite IH. f_equal.
  destruct (Qeq_bool x 0) eqn:E.
  - apply Qeq_bool_iff in E. apply Qeq_bool_iff. rewrite E. field. lra.
  - destruct (Qeq_bool (x / n) 0) eqn:D; [|reflexivity].
    apply Qeq_bool_iff in D.
    assert (Z : x == 0) by (setoid_replace x with (x / n * n) by (field; lra);
                            rewrite D; lra).
    apply Qeq_bool_iff in Z. congruence.
Qed.

Section Searches.
Context `{Unicode} `{Numerics}.

(** Dividing by the norm neither creates nor removes an all-zero vector. *)
Lemma all_zero_normalize (v : list Q) : all_zero (l2_normalize v) = all_zero v.
Proof.
  unfold l2_normalize. destruct (Qlt_bool 0 (linalg_norm v)) eqn:E; [|reflexivity].
  apply all_zero_div. now apply Qlt_bool_iff.
Qed.

(** The labels the first loop keeps, with their clamped intensities. *)
Definition kept (labels : list pystr) (target_emotions : Dict.t pystr Q)
  : Dict.t pystr Q :=
  fold_left
    (fun acc entry => Dict.set acc (mapped_label (fst entry)) (clamp01 (snd entry)))
    (filter (fun e => known_label labels (fst e)) target_emotions) [].

Lemma convert_emotions_from labels (target : Dict.t pystr Q) d w :
  fold_left
    (fun acc entry =>
       if known_label labels (fst entry)
       then (Dict.set (fst acc) (mapped_label (fst entry)) (clamp01 (snd entry)),
             snd acc)
       else (fst acc, snd acc ++ [UnknownLabel (fst entry)]))
    target (d, w)
  = (fold_left
       (fun acc entry => Dict.set acc (mapped_label (fst entry)) (clamp01 (snd entry)))
       (filter (fun e => known_label labels (fst e)) target) d,
     w ++ map (fun e => UnknownLabel (fst e))
              (filter (fun e => negb (known_label labels (fst e))) target)).
Proof.
  revert d w; induction target as [|e target IH]; intros d w; cbn [fold_left filter].
  - now rewrite app_nil_r.
  - destruct (known_label labels (fst e)); cbn [negb fst snd fold_left map];
      rewrite IH; [reflexivity|]. now rewrite <- app_assoc.
Qed.

Lemma convert_emotions_spec labels (target : Dict.t pystr Q) :
  convert_emotions labels target
  = (kept labels target,
     map (fun e => UnknownLabel (fst e))
         (filter (fun e => negb (known_label labels (fst e))) target)).
Proof. unfold convert_emotions. now rewrite convert_emotions_from. Qed.

Lemma filter_filter {A : Type} (p : A -> bool) (l : list A) :
  filter p (filter p l) = filter p l
  /\ filter (fun a => negb (p a)) (filter p l) = [].
Proof.
  induction l as [|a l [IH1 IH2]]; [split; reflexivity|]. cbn [filter].
  destruct (p a) eqn:E; cbn [filter]; rewrite ?E; cbn [negb]; rewrite ?IH1, ?IH2;
    split; reflexivity.
Qed.

Lemma convert_emotions_known labels (target : Dict.t pystr Q) :
  convert_emotions labels (filter (fun e => known_label labels (fst e)) target)
  = (kept labels target, []).
Proof.
  rewrite convert_emotions_spec. unfold kept.
  destruct (filter_filter (fun e : pystr * Q => known_label labels (fst e)) target)
    as [F1 F2].
  now rewrite F1, F2.
Qed.

(** C10, as the code has it.  For every query the extracted emotions are a
    non-empty mapping with positive values: with at least one keyword hit,
    the categories with hits, each with the double nearest to its share of
    the hits.  The values add up to 1 up to rounding, within [2 ^ -53] for
    each entry, so the mood recommendation is always the emotion search on
    them; the semantic branch is never taken. *)
Theorem mood_always_emotion_search (query : pystr) :
  let extracted := extract_emotions_from_query query in
  let counts := emotion_counts query in
  let total_hits := nat_sum (Dict.values counts) in
  extracted <> []
  /\ Forall (fun e => 0 < snd e) extracted
  /\ (total_hits = 0%nat
      \/ extracted
         = map (fun e => (fst e, double (Qnat (snd e) / Qnat total_hits)))
               (filter (fun e => (0 <? snd e)%nat) counts))
  /\ Qabs (Qsum (Dict.values extracted) - 1) <= Qnat (length extracted) * (1 # 2 ^ 53)
  /\ forall st top_k,
       get_recommendation_by_mood st query top_k = emotion_search st extracted top_k.
Proof.
  cbv zeta. destruct (extracted_distribution query) as (N & P & S).
  split; [exact N|]. split; [exact P|]. split; [|split; [exact S|]].
  - destruct (Nat.eq_dec (nat_sum (Dict.values (emotion_counts query))) 0) as [Z|Z];
      [now left | right].
    apply extracted_shares. lia.
  - intros st top_k. unfold get_recommendation_by_mood.
    destruct (extract_emotions_from_query query); [congruence | reflexivity].
Qed.

End Searches.

Section Examples.
#[local] Existing Instance Reference.basic_unicode.

(** One keyword of each of six categories. *)
Definition six_moods : pystr := u "快乐悲伤愤怒恐惧希望孤独".

(** Doubles added from left to right, every sum rounded to a double. *)
Definition double_sum (values : list Q) : Q :=
  fold_left (fun acc value => double (acc + value)) values 0.

(** C10, refuted as stated: six categories with one hit each get the double
    nearest to 1/6 each.  These six values add up to [1 - 2 ^ -54], and added
    from left to right in double arithmetic to [1 - 2 ^ -53], the double
    below 1: not to 1. *)
Lemma six_equal_shares :
  extract_emotions_from_query six_moods
  = [(u "joy", double (1 # 6)); (u "sadness", double (1 # 6));
     (u "anger", double (1 # 6)); (u "fear", double (1 # 6));
     (u "hope", double (1 # 6)); (u "loneliness", double (1 # 6))]
  /\ double (1 # 6) < 1 # 6
  /\ Qsum (Dict.values (extract_emotions_from_query six_moods)) == 1 - (1 # 2 ^ 54)
  /\ double_sum (Dict.values (extract_emotions_from_query six_moods))
     == 1 - (1 # 2 ^ 53)
  /\ ~ Qsum (Dict.values (extract_emotions_from_query six_moods)) == 1
  /\ ~ double_sum (Dict.values (extract_emotions_from_query six_moods)) == 1.
Proof.
  split; [vm_compute; reflexivity|].
  split; [vm_compute; reflexivity|].
  split; [vm_compute; reflexivity|].
  split; [vm_compute; reflexivity|].
  split; vm_compute; intros E; discriminate E.
Qed.

(** The defaults 0.8 and 0.2 are doubles that add up to 1 in double
    arithmetic, and to a little more than 1 as the numbers they are. *)
Example default_shares :
  extract_emotions_from_query (u "无聊")
  = [(u "loneliness", double (8 # 10)); (u "sadness", double (2 # 10))]
  /\ double_sum [double (8 # 10); double (2 # 10)] == 1
  /\ Qsum [double (8 # 10); double (2 # 10)] == 1 + (1 # 2 ^ 54).
Proof. vm_compute. repeat split. Qed.

End Examples.
End SearchFacts.

(** ** The emotion matrix and the exported columns *)

Module IndexFacts.
Import Recommender DictFacts RoundFacts LoaderFacts.

Lemma insert_str_perm (x : pystr) (l : list pystr) : Permutation (insert_str x l) (x :: l).
Proof.
  induction l as [|y l IH]; simpl; [reflexivity|].
  destruct (str_leb x y); [reflexivity|]. rewrite IH. apply perm_swap.
Qed.

Lemma sorted_strings_perm (l : list pystr) : Permutation (sorted_strings l) l.
Proof.
  induction l as [|x l IH]; simpl; [reflexivity|].
  rewrite insert_str_perm. now constructor.
Qed.

Lemma str_leb_total (a b : pystr) : str_leb a b = false -> str_leb b a = true.
Proof.
  revert b; induction a as [|x a IH]; intros [|y b]; simpl; try congruence.
  destruct (x <? y)%N eqn:L1; [discriminate|].
  destruct (y <? x)%N eqn:L2; [reflexivity|]. apply IH.
Qed.

Lemma insert_str_sorted (x : pystr) (l : list pystr) :
  Sorted (fun a b => str_leb a b = true) l ->
  Sorted (fun a b => str_leb a b = true) (insert_str x l).
Proof.
  induction 1 as [|y l S IH Hd]; simpl; [repeat constructor|].
  destruct (str_leb x y) eqn:E.
  - repeat constructor; assumption.
  - constructor; [assumption|].
    destruct l as [|z l]; simpl in *.
    + constructor. now apply str_leb_total.
    + destruct (str_leb x z); constructor.
      * now apply str_leb_total.
      * now inversion Hd.
Qed.

(** [sorted] returns its argument rearranged in code-point order. *)
Lemma sorted_strings_sorted (l : list pystr) :
  Sorted (fun a b => str_leb a b = true) (sorted_strings l).
Proof.
  induction l as [|x l IH]; simpl; [constructor|]. now apply insert_str_sorted.
Qed.

Lemma clamp01_range (x : Q) : (0 <= clamp01 x <= 1)%Q.
Proof.
  unfold clamp01. destruct (Qlt_bool x 1) eqn:A.
  - apply Qlt_bool_iff in A. destruct (Qlt_bool 0 x) eqn:B.
    + apply Qlt_bool_iff in B. lra.
    + lra.
  - change (Qlt_bool 0 1) with true. cbv iota. lra.
Qed.

Lemma clamp01_id (x : Q) : (0 <= x <= 1)%Q -> (clamp01 x == x)%Q.
Proof.
  intros [L U]. unfold clamp01. destruct (Qlt_bool x 1) eqn:A.
  - destruct (Qlt_bool 0 x) eqn:B; [reflexivity|].
    destruct (Qlt_le_dec 0 x) as [P|P]; [|lra].
    apply Qlt_bool_iff in P. congruence.
  - change (Qlt_bool 0 1) with true. cbv iota.
    destruct (Qlt_le_dec x 1) as [P|P]; [|lra].
    apply Qlt_bool_iff in P. congruence.
Qed.

Section Index.
Context `{Unicode} `{PySet} `{Numerics}.

(** A row of the matrix: for each label in turn the clamped value of the
    profile, 0 where the profile has none. *)
Lemma emotion_row_spec (labels : list pystr) (m : movie) :
  NoDup labels ->
  emotion_row labels m
  = map (fun e => clamp01 (Dict.get_default (emotion_profile m) e 0%Q)) labels.
Proof.
  intros ND. unfold emotion_row, full_profile.
  rewrite (fold_set_map (fun e => e)
             (fun e => clamp01 (Dict.get_default (emotion_profile m) e 0%Q)))
    by (now rewrite map_id).
  apply map_ext_in. intros e I. unfold Dict.get_default at 1.
  now rewrite (get_map_keys
                 (fun e => clamp01 (Dict.get_default (emotion_profile m) e 0%Q))).
Qed.

(** C7, as the code has it. The matrix of the index has one row per record
    and ten columns, in the order in which the fixed labels are declared (joy,
    sadness, anger, fear, love, hope, loneliness, inspiration, tension,
    peace); an entry is the record's profile value clamped to [0, 1], and 0
    for a category the profile lacks.  The columns of the crawler's
    emotion-vector file are the categories that occur in some exported
    profile, each once, in ascending code-point order: for a crawled batch a
    sorted selection of the ten. *)
Theorem emotion_matrix_columns (st : state) (ms : list movie)
  (data : list Crawler.movie_data)
  (fetched : list (Crawler.catalog_item * option Crawler.item_detail)) :
  let st' := extract_emotion_vectors st ms in
  let columns := Crawler.emotion_columns data in
  emotion_labels st'
  = [ u "joy"; u "sadness"; u "anger"; u "fear"; u "love";
      u "hope"; u "loneliness"; u "inspiration"; u "tension"; u "peace" ]
  /\ emotion_vectors st'
     = Some (map (fun m =>
                    map (fun e => clamp01 (Dict.get_default (emotion_profile m) e 0%Q))
                        (emotion_labels st'))
                 ms)
  /\ (forall x, (0 <= clamp01 x <= 1)%Q /\ ((0 <= x <= 1)%Q -> (clamp01 x == x)%Q))
  /\ fst (Crawler.save_emotion_vectors data)
     = [u "movie_id"; u "title"; u "year"; u "rank"] ++ columns
  /\ Sorted (fun a b => str_leb a b = true) columns
  /\ NoDup columns
  /\ (forall e, In e columns <->
                exists m, In m data /\ In e (Dict.keys (Crawler.md_emotion_profile m)))
  /\ incl (Crawler.emotion_columns (Crawler.crawl_records fetched))
          fixed_emotion_labels.
Proof.
  cbv zeta.
  assert (M : forall d e, In e (Crawler.emotion_columns d) <->
                exists m, In m d /\ In e (Dict.keys (Crawler.md_emotion_profile m))).
  { intros d e. unfold Crawler.emotion_columns. split.
    - intros I. apply (Permutation_in _ (sorted_strings_perm _)) in I.
      apply (proj1 (set_order_In _ _)) in I. now apply (proj1 (in_flat_map _ _ _)) in I.
    - intros I. apply (Permutation_in _ (Permutation_sym (sorted_strings_perm _))).
      apply (proj2 (set_order_In _ _)). now apply (proj2 (in_flat_map _ _ _)). }
  split; [reflexivity|]. split; [|split; [|split; [|split; [|split; [|split]]]]].
  - cbn [emotion_vectors emotion_labels extract_emotion_vectors].
    now rewrite (map_ext _ _ (fun m => emotion_row_spec fixed_emotion_labels m
                                         NoDup_fixed_emotion_labels)).
  - intros x. split; [apply clamp01_range | apply clamp01_id].
  - reflexivity.
  - apply sorted_strings_sorted.
  - unfold Crawler.emotion_columns.
    apply (Permutation_NoDup (Permutation_sym (sorted_strings_perm _))).
    apply set_order_NoDup.
  - apply M.
  - intros e I. apply M in I as (m & I & K).
    unfold Crawler.crawl_records in I. apply in_map_iff in I as (f & <- & _).
    unfold Crawler.merge_record in K. cbn [Crawler.md_emotion_profile] in K.
    rewrite <- ProfileFacts.categories_fixed.
    eapply CrawlerFacts.profile_keys; exact K.
Qed.

End Index.

Section Examples.
#[local] Existing Instance Reference.basic_unicode.
#[local] Existing Instance Reference.first_seen.
#[local] Existing Instance Reference.small_arrays.

(** C7, refuted as stated: the labels of the index are not in sorted order,
    and the file exported for a batch whose only profile is [joy] has that
    single emotion column. *)
Lemma columns_not_sorted_nor_ten :
  emotion_labels (extract_emotion_vectors initial [])
  = [ u "joy"; u "sadness"; u "anger"; u "fear"; u "love";
      u "hope"; u "loneliness"; u "inspiration"; u "tension"; u "peace" ]
  /\ sorted_strings (emotion_labels (extract_emotion_vectors initial []))
     = [ u "anger"; u "fear"; u "hope"; u "inspiration"; u "joy";
         u "loneliness"; u "love"; u "peace"; u "sadness"; u "tension" ]
  /\ str_leb (u "joy") (u "anger") = false
  /\ fst (Crawler.save_emotion_vectors
            (Crawler.crawl_records [ProfileFacts.sample_item (u "happy")]))
     = [u "movie_id"; u "title"; u "year"; u "rank"; u "joy"].
Proof. vm_compute. repeat split. Qed.

End Examples.
End IndexFacts.

(** ** Rankings *)

Module RankFacts.
Import Recommender DictFacts RoundFacts LoaderFacts QueryFacts SearchFacts SortFacts.
#[local] Open Scope Q_scope.

(** The elements of [l] at the given indices, in the order of the indices. *)
Definition pick {A : Type} (l : list A) (indices : list nat) : list A :=
  flat_map (fun i => match nth_error l i with Some a => [a] | None => [] end) indices.

Section Pick.
Context {A : Type}.
Implicit Types (l : list A) (indices : list nat).

Lemma pick_shift (a : A) l indices : pick (a :: l) (map S indices) = pick l indices.
Proof.
  unfold pick. induction indices as [|i indices IH]; [reflexivity|].
  cbn [map flat_map nth_error]. now rewrite IH.
Qed.

Lemma pick_nil indices : pick (@nil A) indices = [].
Proof.
  unfold pick. induction indices as [|i indices IH]; [reflexivity|].
  cbn [flat_map]. rewrite IH. now destruct i.
Qed.

Lemma pick_seq l : pick l (seq 0 (length l)) = l.
Proof.
  induction l as [|a l IH]; [reflexivity|].
  cbn [length seq]. rewrite <- seq_shift.
  change (pick (a :: l) (0%nat :: map S (seq 0 (length l))))
    with (a :: pick (a :: l) (map S (seq 0 (length l)))).
  now rewrite pick_shift, IH.
Qed.

Lemma pick_all l indices :
  Permutation indices (seq 0 (length l)) -> Permutation (pick l indices) l.
Proof.
  intros P. rewrite <- (pick_seq l) at 2. unfold pick.
  now apply Permutation_flat_map.
Qed.

Lemma pick_In l indices (a : A) :
  In a (pick l indices) <-> exists i, In i indices /\ nth_error l i = Some a.
Proof.
  unfold pick. rewrite in_flat_map. split; intros (i & I & E); exists i; split; auto.
  - destruct (nth_error l i) as [b|]; [|destruct E].
    destruct E as [->|[]]. reflexivity.
  - rewrite E. now left.
Qed.

Lemma pick_incl l indices : incl (pick l indices) l.
Proof.
  intros a I. apply pick_In in I as (i & _ & E). eapply nth_error_In. exact E.
Qed.

Lemma pick_length l indices :
  (forall i, In i indices -> (i < length l)%nat) ->
  length (pick l indices) = length indices.
Proof.
  unfold pick. induction indices as [|i indices IH]; intros B; [reflexivity|].
  cbn [flat_map]. rewrite length_app, IH by (intros j J; apply B; now right).
  destruct (nth_error l i) eqn:E; [reflexivity|].
  apply nth_error_None in E. specialize (B i (or_introl eq_refl)). lia.
Qed.

Lemma nth_map_error (f : A -> Q) l i (a : A) :
  nth_error l i = Some a -> nth i (map f l) 0 = f a.
Proof.
  revert i; induction l as [|b l IH]; intros [|i]; simpl; try discriminate.
  - now intros [= ->].
  - apply IH.
Qed.

(** Indices in falling order of their values pick elements in falling order
    of the score. *)
Lemma pick_sorted (f : A -> Q) l indices :
  StronglySorted (fun i j => nth j (map f l) 0 <= nth i (map f l) 0) indices ->
  StronglySorted (fun a b => f b <= f a) (pick l indices).
Proof.
  induction 1 as [|i indices S IH F]; [constructor|].
  change (pick l (i :: indices))
    with ((match nth_error l i with Some a => [a] | None => [] end)
          ++ pick l indices).
  destruct (nth_error l i) as [a|] eqn:E; [|exact IH].
  constructor; [exact IH|].
  apply Forall_forall. intros b I. apply pick_In in I as (j & J & Ej).
  rewrite Forall_forall in F. specialize (F j J).
  now rewrite (nth_map_error f l i a E), (nth_map_error f l j b Ej) in F.
Qed.

End Pick.

Lemma ranked_pick (ms : list movie) (f : movie -> Q)
  (with_score : movie -> Q -> scored) (indices : list nat) :
  ranked ms (map f ms) with_score indices
  = map (fun m => (with_score m (f m), f m)) (pick ms indices).
Proof.
  unfold ranked, pick. induction indices as [|i indices IH]; [reflexivity|].
  cbn [flat_map]. rewrite map_app, IH. f_equal.
  destruct (nth_error ms i) as [m|] eqn:E; [|reflexivity].
  cbn [map]. now rewrite (nth_map_error f ms i m E).
Qed.

Lemma Permutation_bound (indices : list nat) (n : nat) :
  Permutation indices (seq 0 n) -> forall i, In i indices -> (i < n)%nat.
Proof.
  intros P i I. apply (Permutation_in _ P) in I. apply in_seq in I. lia.
Qed.


Lemma slice_from_last {A : Type} (l : list A) (k : Z) :
  (1 <= k <= Z.of_nat (length l))%Z ->
  slice_from l (- k) = skipn (length l - Z.to_nat k) l
  /\ length (slice_from l (- k)) = Z.to_nat k.
Proof.
  intros B. unfold slice_from.
  assert (E : (- k <? 0)%Z = true) by (apply Z.ltb_lt; lia).
  rewrite E, Z.opp_involutive. split; [reflexivity|]. rewrite length_skipn. lia.
Qed.

(** The keys of a dictionary filled in the order of [ids]: every id once,
    at the place where it first occurs. *)
Definition first_ids (ids : list movie_id) : list movie_id :=
  fold_left (fun seen k => if existsb (key_eqb k) seen then seen else seen ++ [k])
            ids [].

Lemma existsb_key_eqb (k : movie_id) (l : list movie_id) :
  existsb (key_eqb k) l = true <-> In k l.
Proof.
  rewrite existsb_exists. split.
  - intros (x & I & E). apply key_eqb_eq in E. now subst.
  - intros I. exists k. split; [assumption | apply key_eqb_refl].
Qed.








Lemma first_ids_from_distinct (ids seen : list movie_id) :
  NoDup ids -> (forall k, In k ids -> ~ In k seen) ->
  fold_left (fun seen k => if existsb (key_eqb k) seen then seen else seen ++ [k])
            ids seen
  = seen ++ ids.
Proof.
  intros N. revert seen. induction N as [|i ids Ni N IH]; intros seen D; cbn [fold_left].
  - now rewrite app_nil_r.
  - destruct (existsb (key_eqb i) seen) eqn:E.
    + apply existsb_key_eqb in E. exfalso. apply (D i); [now left | exact E].
    + rewrite IH.
      * now rewrite <- app_assoc.
      * intros k I J. apply in_app_iff in J as [J|[<-|[]]]; [|contradiction].
        apply (D k); [now right | exact J].
Qed.

(** Ids that are pairwise distinct are their own first occurrences. *)
Lemma first_ids_distinct (ids : list movie_id) : NoDup ids -> first_ids ids = ids.
Proof.
  intros N. unfold first_ids. rewrite first_ids_from_distinct; [reflexivity | exact N|].
  intros k _ [].
Qed.



Section Rankings.
Context `{Unicode} `{Numerics}.

(** The similarity of one record to the query, as [semantic_search] computes
    it for every record of the index. *)
Definition semantic_of (query : pystr) (m : movie) : Q :=
  cos_sim (encode query) (encode (movie_text m)).

(** The normalized target vector of [emotion_search]. *)
Definition target_vector (target : Dict.t pystr Q) : list Q :=
  l2_normalize
    (target_vector_of fixed_emotion_labels
       (fst (convert_emotions fixed_emotion_labels target))).

(** The similarity of one record to the target, as [emotion_search] computes
    it for every record of the index; the search computes none when the
    target vector is all zeros, and the hybrid search then counts 0. *)
Definition emotion_of (target : Dict.t pystr Q) (m : movie) : Q :=
  if all_zero (target_vector target) then 0
  else cosine_similarity (target_vector target) (emotion_row fixed_emotion_labels m).

Definition with_semantic (m : movie) (score : Q) : scored :=
  {| scored_movie := m; semantic_score := score; emotion_score := 0 |}.

Definition with_emotion (m : movie) (score : Q) : scored :=
  {| scored_movie := m; semantic_score := 0; emotion_score := score |}.

Definition search_warnings (target : Dict.t pystr Q) : list warning :=
  map (fun e => UnknownLabel (fst e))
      (filter (fun e => negb (known_label fixed_emotion_labels (fst e))) target)
  ++ (if all_zero (target_vector target) then [ZeroTargetVector] else []).

Lemma semantic_search_spec (ms : list movie) (query : pystr) (top_k : Z) :
  (0 <= top_k)%Z ->
  exists order,
    Permutation order (seq 0 (length ms))
    /\ StronglySorted
         (fun i j => nth j (map (semantic_of query) ms) 0
                     <= nth i (map (semantic_of query) ms) 0) order
    /\ semantic_search (index_movies initial ms) query top_k
       = Ok ([], map (fun m => (with_semantic m (semantic_of query m),
                                semantic_of query m))
                     (pick ms (firstn (Z.to_nat (Z.min top_k (Z.of_nat (length ms))))
                                      order))).
Proof.
  intros P. unfold semantic_search.
  change (semantic_embeddings (index_movies initial ms))
    with (Some (map (fun m => encode (movie_text m)) ms)).
  change (movies (index_movies initial ms)) with ms. cbv iota.
  rewrite map_map. fold (semantic_of query).
  assert (E : (Z.min top_k (Z.of_nat (length ms)) <? 0)%Z = false)
    by (apply Z.ltb_ge; lia).
  rewrite E.
  destruct (topk_spec (map (semantic_of query) ms)
              (Z.to_nat (Z.min top_k (Z.of_nat (length ms)))))
    as (order & Pm & S & T); [rewrite length_map; lia|].
  rewrite length_map in Pm.
  exists order. split; [exact Pm|]. split; [exact S|].
  rewrite T. now rewrite ranked_pick.
Qed.

Lemma emotion_search_zero (ms : list movie) (target : Dict.t pystr Q) (top_k : Z) :
  all_zero (target_vector target) = true ->
  emotion_search (index_movies initial ms) target top_k
  = Ok (search_warnings target, []).
Proof.
  intros Z0. unfold emotion_search, search_warnings.
  change (emotion_vectors (index_movies initial ms))
    with (Some (map (emotion_row fixed_emotion_labels) ms)).
  change (emotion_labels (index_movies initial ms)) with fixed_emotion_labels.
  cbv iota. fold (target_vector target). rewrite Z0.
  now rewrite convert_emotions_spec.
Qed.

Lemma match_nonempty {A B : Type} (l : list A) (x y : B) :
  l <> [] -> match l with [] => x | _ :: _ => y end = y.
Proof. destruct l; [congruence | reflexivity]. Qed.

Lemma emotion_search_spec (ms : list movie) (target : Dict.t pystr Q) (top_k : Z) :
  ms <> [] -> all_zero (target_vector target) = false ->
  emotion_search (index_movies initial ms) target top_k
  = Ok (search_warnings target,
        map (fun m => (with_emotion m (emotion_of target m), emotion_of target m))
            (pick ms
               (rev (slice_from (argsort (map (emotion_of target) ms))
                                (- Z.min top_k (Z.of_nat (length ms))))))).
Proof.
  intros NE Z0. unfold emotion_search, search_warnings.
  change (emotion_vectors (index_movies initial ms))
    with (Some (map (emotion_row fixed_emotion_labels) ms)).
  change (emotion_labels (index_movies initial ms)) with fixed_emotion_labels.
  change (movies (index_movies initial ms)) with ms.
  cbv iota. fold (target_vector target). rewrite Z0.
  rewrite match_nonempty by (intros E; apply map_eq_nil in E; contradiction).
  rewrite convert_emotions_spec. cbn [snd]. rewrite app_nil_r, map_map.
  rewrite (map_ext (fun m => cosine_similarity (target_vector target)
                               (emotion_row fixed_emotion_labels m))
                   (emotion_of target))
    by (intros m; unfold emotion_of; now rewrite Z0).
  now rewrite ranked_pick.
Qed.

(** Over a non-empty index the emotion search returns. *)
Lemma emotion_search_returns (ms : list movie) (target : Dict.t pystr Q) (top_k : Z) :
  ms <> [] ->
  exists rs,
    emotion_search (index_movies initial ms) target top_k
    = Ok (search_warnings target, rs).
Proof.
  intros NE. destruct (all_zero (target_vector target)) eqn:Z0.
  - exists []. now apply emotion_search_zero.
  - eexists. now apply emotion_search_spec.
Qed.







(** The ranking of the emotion search over a non-empty index, for a target
    vector that is not all zeros and [top_k >= 1]: the records at the last
    [min(top_k, n)] indices of the ascending argsort, read backwards. *)
Lemma emotion_search_ranking (ms : list movie) (target : Dict.t pystr Q) (top_k : Z) :
  ms <> [] -> (1 <= top_k)%Z -> all_zero (target_vector target) = false ->
  let capped := Nat.min (Z.to_nat top_k) (length ms) in
  let chosen :=
    pick ms (rev (skipn (length ms - capped) (argsort (map (emotion_of target) ms)))) in
  emotion_search (index_movies initial ms) target top_k
  = Ok (search_warnings target,
        map (fun m => (with_emotion m (emotion_of target m), emotion_of target m))
            chosen)
  /\ length chosen = capped
  /\ incl chosen ms
  /\ StronglySorted (fun a b => emotion_of target b <= emotion_of target a) chosen.
Proof.
  intros NE K Z0 capped chosen.
  set (sims := map (emotion_of target) ms) in *.
  assert (P : Permutation (argsort sims) (seq 0 (length ms))).
  { unfold sims. rewrite <- (length_map (emotion_of target) ms). apply argsort_perm. }
  assert (L : length (argsort sims) = length ms)
    by now rewrite (Permutation_length P), length_seq.
  assert (Pos : (0 < length ms)%nat) by (destruct ms; [congruence | simpl; lia]).
  destruct (slice_from_last (argsort sims) (Z.min top_k (Z.of_nat (length ms))))
    as [E Ln]; [rewrite L; lia|].
  assert (C : (length (argsort sims) - Z.to_nat (Z.min top_k (Z.of_nat (length ms)))
               = length ms - capped)%nat) by (unfold capped; lia).
  rewrite C in E.
  split; [|split; [|split]].
  - rewrite (emotion_search_spec ms target top_k NE Z0). fold sims. now rewrite E.
  - unfold chosen. rewrite pick_length.
    + rewrite length_rev, length_skipn, L. unfold capped. lia.
    + intros i I. apply in_rev in I.
      apply (Permutation_bound (argsort sims)); [exact P|].
      rewrite <- (firstn_skipn (length ms - capped) (argsort sims)).
      apply in_app_iff. now right.
  - apply pick_incl.
  - unfold chosen. apply pick_sorted. fold sims.
    apply (StronglySorted_rev (fun i j => nth i sims 0 <= nth j sims 0)).
    apply StronglySorted_skipn, argsort_sorted.
Qed.



End Rankings.

(** *** Closed examples, at the reference instances *)

Section Examples.
#[local] Existing Instance Reference.basic_unicode.
#[local] Existing Instance Reference.small_arrays.

Definition sample_movie (n : Z) (name : pystr) (profile : Dict.t pystr Q) : movie :=
  {| id := IntId n;
     title := name;
     emotion_profile := profile;
     mood_tags := [];
     dominant_emotions := [];
     emotional_complexity := 0 |}.

(** A ranking read as rows of title, semantic score, emotion score and
    ranking score, the scores in lowest terms. *)
Definition summary (o : outcome (list warning * results)) : list (pystr * Q * Q * Q) :=
  match o with
  | Ok (_, rs) =>
    map (fun r => (title (scored_movie (fst r)),
                   Qred (semantic_score (fst r)),
                   Qred (emotion_score (fst r)),
                   Qred (snd r)))
        rs
  | _ => []
  end.

Definition two_movies : list movie :=
  [ sample_movie 1 (u "first") [(u "joy", 1)];
    sample_movie 2 (u "second") [(u "joy", 1)] ].







(** With top-K 0 the slice [[-0:]] of emotion search keeps every index. *)
Lemma emotion_search_top_k_zero :
  summary (emotion_search (index_movies initial two_movies) [(u "joy", 1)] 0)
  = [(u "second", 0, 1, 1); (u "first", 0, 1, 1)].
Proof. vm_compute. reflexivity. Qed.

End Examples.
End RankFacts.

(** ** Substrings *)

Module TextFacts.

Lemma is_prefix_split (p s : pystr) :
  is_prefix p s = true <-> exists r, s = p ++ r.
Proof.
  revert s; induction p as [|c p IH]; intros s.
  - split; [intros _; now exists s | reflexivity].
  - destruct s as [|d s]; simpl.
    + split; [discriminate | intros (r & E); discriminate].
    + rewrite andb_true_iff, N.eqb_eq, IH. split.
      * intros [-> (r & ->)]. now exists r.
      * intros (r & E). injection E as -> ->. split; [reflexivity | now exists r].
Qed.

(** [sub in text]: [text] is [sub] between two other strings. *)
Lemma contains_split (sub text : pystr) :
  contains sub text = true <-> exists l r, text = l ++ sub ++ r.
Proof.
  induction text as [|c text IH].
  - simpl. rewrite orb_false_r, is_prefix_split. split.
    + intros (r & E). exists [], r. exact E.
    + intros (l & r & E). destruct l; [now exists r|discriminate].
  - change (contains sub (c :: text))
      with (is_prefix sub (c :: text) || contains sub text).
    rewrite orb_true_iff, is_prefix_split, IH. split.
    + intros [(r & E)|(l & r & E)].
      * exists [], r. exact E.
      * exists (c :: l), r. simpl. now rewrite E.
    + intros (l & r & E). destruct l as [|d l].
      * left. now exists r.
      * right. injection E as -> ->. now exists l, r.
Qed.

(** A string that occurs in [text] brings its own substrings with it. *)
Lemma contains_inside (before sub after text : pystr) :
  contains (before ++ sub ++ after) text = true -> contains sub text = true.
Proof.
  rewrite !contains_split. intros (l & r & ->).
  exists (l ++ before), (after ++ r). now rewrite <- !app_assoc.
Qed.

Lemma existsb_str_eqb (e : pystr) (l : list pystr) :
  existsb (str_eqb e) l = true <-> In e l.
Proof.
  rewrite existsb_exists. split.
  - intros (x & I & E). apply str_eqb_eq in E. now subst.
  - intros I. exists e. split; [assumption | now apply str_eqb_eq].
Qed.

(** A member of a prefix of a list is a member of the list. *)
Lemma In_firstn {A : Type} (n : nat) (l : list A) (a : A) :
  In a (firstn n l) -> In a l.
Proof.
  intros I. rewrite <- (firstn_skipn n l). apply in_app_iff. now left.
Qed.

End TextFacts.

(** ** Review sentiment *)

Module SentimentFacts.
Import Crawler Catalog DictFacts RoundFacts LoaderFacts TextFacts.
#[local] Open Scope Q_scope.

Lemma Qnat_pos (n : nat) : (0 < n)%nat -> 0 < Qnat n.
Proof. intros P. unfold Qnat. change 0 with (inject_Z 0). rewrite <- Zlt_Qlt. lia. Qed.

Lemma Qnat_nonneg (n : nat) : 0 <= Qnat n.
Proof. unfold Qnat. change 0 with (inject_Z 0). rewrite <- Zle_Qle. lia. Qed.

Lemma Qnat_plus (a b : nat) : Qnat (a + b) == Qnat a + Qnat b.
Proof. unfold Qnat. now rewrite Nat2Z.inj_add, inject_Z_plus. Qed.

Lemma Qnat_lt (a b : nat) : Qnat a < Qnat b <-> (a < b)%nat.
Proof. unfold Qnat. rewrite <- Zlt_Qlt. lia. Qed.

Lemma Qlt_bool_reflect (a b : Q) (c : bool) : (a < b <-> c = true) -> Qlt_bool a b = c.
Proof.
  intros E. destruct c.
  - apply Qlt_bool_iff, E. reflexivity.
  - destruct (Qlt_bool a b) eqn:L; [|reflexivity].
    apply Qlt_bool_iff, E in L. discriminate.
Qed.

(** The two thresholds, in terms of the counts. *)
Lemma share_thresholds (p n : nat) :
  (0 < p + n)%nat ->
  Qlt_bool (6 # 10) (Qnat p / Qnat (p + n)) = (3 * n <? 2 * p)%nat
  /\ Qlt_bool (Qnat p / Qnat (p + n)) (4 # 10) = (3 * p <? 2 * n)%nat.
Proof.
  intros T. pose proof (Qnat_pos _ T) as TP. pose proof (Qnat_plus p n) as S.
  pose proof (Qnat_nonneg p) as P0. pose proof (Qnat_nonneg n) as N0.
  assert (D : Qnat p / Qnat (p + n) * Qnat (p + n) == Qnat p) by (field; lra).
  set (s := Qnat p / Qnat (p + n)) in *.
  assert (A : 3 * Qnat n < 2 * Qnat p <-> (3 * n < 2 * p)%nat).
  { unfold Qnat. rewrite <- (Qnat_lt (3 * n) (2 * p)). unfold Qnat.
    rewrite !Nat2Z.inj_mul, !inject_Z_mult. reflexivity. }
  assert (B : 3 * Qnat p < 2 * Qnat n <-> (3 * p < 2 * n)%nat).
  { unfold Qnat. rewrite <- (Qnat_lt (3 * p) (2 * n)). unfold Qnat.
    rewrite !Nat2Z.inj_mul, !inject_Z_mult. reflexivity. }
  split; apply Qlt_bool_reflect; rewrite Nat.ltb_lt.
  - rewrite <- A. split; intros L; nra.
  - rewrite <- B. split; intros L; nra.
Qed.

Section Sentiment.
Context `{Unicode}.

(** The result in closed form, when some keyword is found. *)
Lemma sentiment_of_counts (text : pystr) :
  let p := count_present positive_words (lower text) in
  let n := count_present negative_words (lower text) in
  text <> [] -> (0 < p + n)%nat ->
  analyze_review_sentiment text
  = {| sentiment :=
         if (3 * n <? 2 * p)%nat then u "positive"
         else if (3 * p <? 2 * n)%nat then u "negative"
         else u "neutral";
       score := Qnat p / Qnat (p + n) |}.
Proof.
  intros p n NE T. destruct text as [|c text]; [congruence|].
  unfold analyze_review_sentiment. fold p n.
  assert (Z0 : (p + n =? 0)%nat = false) by (apply Nat.eqb_neq; lia).
  rewrite Z0. destruct (share_thresholds p n T) as [A B]. now rewrite A, B.
Qed.

Lemma sentiment_without_hits (text : pystr) :
  text = []
  \/ (count_present positive_words (lower text)
      + count_present negative_words (lower text) = 0)%nat ->
  analyze_review_sentiment text = neutral.
Proof.
  intros [->|Z0]; [reflexivity|]. destruct text as [|c text]; [reflexivity|].
  unfold analyze_review_sentiment. now rewrite Z0.
Qed.

(** The score of any text is a number of [0, 1]. *)
Lemma sentiment_score_unit (text : pystr) :
  0 <= score (analyze_review_sentiment text) <= 1.
Proof.
  pose proof (sentiment_of_counts text) as E. cbv zeta in E.
  pose proof (sentiment_without_hits text) as N.
  set (p := count_present positive_words (lower text)) in *.
  set (n := count_present negative_words (lower text)) in *.
  destruct (Nat.eq_dec (p + n) 0) as [Z0|NZ].
  - rewrite N by (now right). cbn. lra.
  - destruct text as [|c text].
    + rewrite N by (now left). cbn. lra.
    + rewrite E by (try discriminate; lia). cbn [score].
      apply share_unit; lia.
Qed.

(** X1. The sentiment of a review.  An empty text and a text without any
    keyword are neutral with score 0.5.  Otherwise the score is the share of
    positive keywords among the keywords found, a number of [0, 1], and the
    label follows the counts: positive when twice the positive count exceeds
    three times the negative count, negative when twice the negative count
    exceeds three times the positive count, neutral in between. *)
Theorem review_sentiment_thresholds (text : pystr) :
  let p := count_present positive_words (lower text) in
  let n := count_present negative_words (lower text) in
  let r := analyze_review_sentiment text in
  0 <= score r <= 1
  /\ (text = [] \/ (p + n = 0)%nat -> r = neutral)
  /\ (text <> [] -> (0 < p + n)%nat ->
      score r = Qnat p / Qnat (p + n)
      /\ sentiment r
         = if (3 * n <? 2 * p)%nat then u "positive"
           else if (3 * p <? 2 * n)%nat then u "negative"
           else u "neutral").
Proof.
  cbv zeta. split; [apply sentiment_score_unit|].
  split; [apply sentiment_without_hits|].
  intros NE T. rewrite (sentiment_of_counts text NE T). split; reflexivity.
Qed.

Lemma count_present_member (words : list pystr) (word text : pystr) :
  In word words -> contains word text = true -> (0 < count_present words text)%nat.
Proof.
  intros I C. unfold count_present.
  assert (J : In word (filter (fun w => contains w text) words))
    by (apply filter_In; split; assumption).
  destruct (filter _ words); [destruct J | simpl; lia].
Qed.

(** X2. The keywords are looked up as substrings, so a review that says
    "dislike" also counts the positive keyword "like": whatever else it
    says, its score is strictly between 0 and 1, never the 0 of a review with
    negative keywords only. *)
Theorem dislike_counts_as_like (text : pystr) :
  text <> [] -> contains (u "dislike") (lower text) = true ->
  (0 < count_present positive_words (lower text))%nat
  /\ (0 < count_present negative_words (lower text))%nat
  /\ 0 < score (analyze_review_sentiment text) < 1.
Proof.
  intros NE C.
  assert (L : contains (u "like") (lower text) = true).
  { apply (contains_inside (u "dis") (u "like") []).
    assert (E : u "dis" ++ u "like" ++ [] = u "dislike") by (vm_compute; reflexivity).
    now rewrite E. }
  assert (P : (0 < count_present positive_words (lower text))%nat).
  { apply (count_present_member _ (u "like")); [|exact L].
    apply existsb_str_eqb. vm_compute. reflexivity. }
  assert (N : (0 < count_present negative_words (lower text))%nat).
  { apply (count_present_member _ (u "dislike")); [|exact C].
    apply existsb_str_eqb. vm_compute. reflexivity. }
  split; [exact P|]. split; [exact N|].
  rewrite (sentiment_of_counts text NE) by lia. cbn [score].
  set (p := count_present positive_words (lower text)) in *.
  set (n := count_present negative_words (lower text)) in *.
  pose proof (Qnat_pos p P) as PP. pose proof (Qnat_pos n N) as NP.
  pose proof (Qnat_plus p n) as Sum.
  split; [apply Qlt_shift_div_l | apply Qlt_shift_div_r]; lra.
Qed.

End Sentiment.

Section Examples.
#[local] Existing Instance Reference.basic_unicode.

Lemma dislike_counts_as_like_witness :
  length (u "I dislike it") = 12%nat
  /\ contains (u "dislike") (lower (u "I dislike it")) = true
  /\ 0 < score (analyze_review_sentiment (u "I dislike it")) < 1.
Proof.
  split; [reflexivity|]. split; [vm_compute; reflexivity|].
  pose proof (dislike_counts_as_like (u "I dislike it")
                ltac:(discriminate) ltac:(vm_compute; reflexivity)) as T.
  destruct T as (_ & _ & T). exact T.
Defined.

End Examples.
End SentimentFacts.

(** ** Listings and the batch *)

Module CatalogFacts.
Import Crawler Catalog DictFacts.

Section Listing.
Context {R : Type} `{EqKey R}.
Variable movie_info : R -> catalog_item.

Lemma list_index_bound (results : list R) (movie : R) :
  In movie results -> list_index results movie < length results.
Proof.
  induction results as [|r results IH]; intros I; [destruct I|]. simpl.
  destruct (key_eqb r movie) eqn:E; [lia|].
  destruct I as [->|I]; [rewrite key_eqb_refl in E; discriminate|].
  specialize (IH I). lia.
Qed.

Lemma list_index_nth (results : list R) (movie : R) :
  In movie results -> nth_error results (list_index results movie) = Some movie.
Proof.
  induction results as [|r results IH]; intros I; [destruct I|]. simpl.
  destruct (key_eqb r movie) eqn:E.
  - apply key_eqb_eq in E. now subst.
  - destruct I as [->|I]; [rewrite key_eqb_refl in E; discriminate|]. now apply IH.
Qed.

(** In a list without repetition an entry is found where it stands. *)
Lemma list_index_NoDup (before after : list R) (movie : R) :
  NoDup (before ++ movie :: after) ->
  list_index (before ++ movie :: after) movie = length before.
Proof.
  induction before as [|r before IH]; intros ND; simpl.
  - now rewrite key_eqb_refl.
  - inversion_clear ND as [|? ? N ND'].
    rewrite key_eqb_neq; [now rewrite IH|].
    intros ->. apply N, in_app_iff. right. now left.
Qed.

(** X3. The rank of a listed entry is [(page - 1) * 20 + 1] plus the
    position of the first entry of the page equal to it.  A failed request
    lists nothing.  On a page of pairwise different entries the ranks are
    the consecutive numbers from [(page - 1) * 20 + 1] on, in page order; on
    any page the rank of the entry at position [i] is at most
    [(page - 1) * 20 + i + 1] and at least [(page - 1) * 20 + 1]. *)
Theorem listing_ranks (page : Z) (results : list R) :
  let listing := get_top_rated_movies movie_info page (Some (Some results)) in
  get_top_rated_movies movie_info page None = []
  /\ get_top_rated_movies movie_info page (Some None) = []
  /\ map info listing = map movie_info results
  /\ (forall i entry, nth_error listing i = Some entry ->
        ((page - 1) * 20 + 1 <= top_rated_rank entry
         <= (page - 1) * 20 + Z.of_nat i + 1)%Z)
  /\ (NoDup results ->
      map top_rated_rank listing
      = map (fun i => ((page - 1) * 20 + Z.of_nat i + 1)%Z) (seq 0 (length results))).
Proof.
  cbv zeta. unfold get_top_rated_movies. cbn [field_or].
  split; [reflexivity|]. split; [reflexivity|]. split; [|split].
  - rewrite map_map. reflexivity.
  - intros i entry E. rewrite nth_error_map in E.
    destruct (nth_error results i) as [movie|] eqn:M; [|discriminate].
    injection E as <-. cbn [top_rated_rank].
    assert (B : list_index results movie <= i).
    { clear page. revert i M. induction results as [|r results IH]; intros i M.
      - destruct i; discriminate.
      - simpl. destruct (key_eqb r movie) eqn:K; [lia|].
        destruct i as [|i]; simpl in M.
        + injection M as ->. rewrite key_eqb_refl in K. discriminate.
        + specialize (IH i M). lia. }
    lia.
  - intros ND. rewrite map_map. cbn [top_rated_rank].
    assert (G : forall before,
               NoDup (before ++ results) ->
               map (fun movie =>
                      ((page - 1) * 20
                       + Z.of_nat (list_index (before ++ results) movie) + 1)%Z)
                   results
               = map (fun i => ((page - 1) * 20 + Z.of_nat i + 1)%Z)
                     (seq (length before) (length results))).
    { clear ND. induction results as [|r results IH]; intros before ND; [reflexivity|].
      cbn [map length seq]. rewrite (list_index_NoDup before results r ND). f_equal.
      specialize (IH (before ++ [r])). rewrite <- app_assoc in IH. cbn [app] in IH.
      rewrite IH by exact ND. rewrite length_app. cbn [length].
      now rewrite Nat.add_1_r. }
    exact (G [] ND).
Qed.

End Listing.

(** *** The page loop *)

Lemma pages_needed_ceiling (num_movies : Z) :
  (20 * (pages_needed num_movies - 1) < num_movies <= 20 * pages_needed num_movies)%Z.
Proof.
  unfold pages_needed.
  pose proof (Z.div_mod num_movies 20 ltac:(lia)) as D.
  pose proof (Z.mod_pos_bound num_movies 20 ltac:(lia)) as B.
  destruct (num_movies mod 20 =? 0)%Z eqn:E.
  - apply Z.eqb_eq in E. lia.
  - apply Z.eqb_neq in E. lia.
Qed.

Lemma firstn_seq (k start len : nat) :
  firstn k (seq start len) = seq start (Nat.min k len).
Proof.
  revert start len; induction k as [|k IH]; intros start [|len]; try reflexivity.
  cbn [seq firstn Nat.min]. now rewrite IH.
Qed.

Section Crawl.
Context `{Unicode} `{PySet}.
Variable top_rated : Z -> list listed.
Variable details_of : Z -> option item_detail.
Variable reviews_of : Z -> Z -> list review_data.

Definition id_of (movie : listed) : Z := item_id (info movie).

(** What the page loop keeps true: the ids collected are those of the list,
    no id occurs twice, and every entry stands on a requested page. *)
Definition consistent (st : collecting) : Prop :=
  NoDup (map id_of (movie_list st))
  /\ (forall i, In i (collected_ids st) <-> In i (map id_of (movie_list st)))
  /\ (forall movie, In movie (movie_list st) ->
        exists page, In page (requested st) /\ In movie (top_rated page)).

Lemma add_new_consistent (st : collecting) (movie : listed) (page : Z) :
  consistent st -> In page (requested st) -> In movie (top_rated page) ->
  consistent (add_new st movie) /\ requested (add_new st movie) = requested st.
Proof.
  intros (ND & Ids & Src) P M. unfold add_new.
  destruct (existsb (Z.eqb (item_id (info movie))) (collected_ids st)) eqn:E.
  - split; [repeat split; assumption || apply Ids | reflexivity].
  - split; [|reflexivity].
    assert (Fresh : ~ In (id_of movie) (map id_of (movie_list st))).
    { intros I. apply Ids in I.
      assert (X : existsb (Z.eqb (item_id (info movie))) (collected_ids st) = true).
      { apply existsb_exists. exists (id_of movie). split; [exact I|].
        apply Z.eqb_refl. }
      congruence. }
    unfold consistent. cbn [movie_list collected_ids requested]. split; [|split].
    + rewrite map_app. apply NoDup_app; [exact ND | repeat constructor; simpl; tauto|].
      intros i I [<-|[]]. contradiction.
    + intros i. rewrite map_app, in_app_iff. simpl. rewrite Ids.
      unfold id_of. tauto.
    + intros m I. apply in_app_iff in I as [I|[<-|[]]]; [now apply Src|].
      now exists page.
Qed.

Lemma fold_add_new_consistent (movies : list listed) (st : collecting) (page : Z) :
  consistent st -> In page (requested st) -> incl movies (top_rated page) ->
  consistent (fold_left add_new movies st)
  /\ requested (fold_left add_new movies st) = requested st.
Proof.
  revert st; induction movies as [|m movies IH]; intros st C P I; [now split|].
  cbn [fold_left].
  destruct (add_new_consistent st m page C P (I m (or_introl eq_refl))) as [C' R'].
  destruct (IH (add_new st m) C') as [C'' R''].
  - now rewrite R'.
  - intros x J. apply I. now right.
  - split; [exact C''|]. now rewrite R''.
Qed.

Lemma collect_consistent (num_movies : Z) (pages : list Z) (st : collecting) :
  consistent st ->
  consistent (collect top_rated num_movies pages st)
  /\ exists k, requested (collect top_rated num_movies pages st)
               = requested st ++ firstn k pages.
Proof.
  revert st; induction pages as [|page pages IH]; intros st C.
  - split; [exact C|]. exists 0. cbn. now rewrite app_nil_r.
  - cbn [collect].
    set (st1 := {| movie_list := movie_list st;
                   collected_ids := collected_ids st;
                   requested := requested st ++ [page] |}).
    assert (C1 : consistent st1).
    { destruct C as (ND & Ids & Src). repeat split; try assumption; try apply Ids.
      intros m I. destruct (Src m I) as (p & P & M). exists p.
      split; [|exact M]. cbn. apply in_app_iff. now left. }
    assert (P1 : In page (requested st1)) by (cbn; apply in_app_iff; right; now left).
    destruct (top_rated page) as [|m movies] eqn:E.
    + split; [exact C1|]. exists 1. reflexivity.
    + destruct (fold_add_new_consistent (m :: movies) st1 page C1 P1) as [C2 R2].
      { rewrite E. apply incl_refl. }
      destruct (num_movies <=? Z.of_nat (length (movie_list (fold_left add_new (m :: movies) st1))))%Z.
      * split; [exact C2|]. exists 1. now rewrite R2.
      * destruct (IH _ C2) as [C3 (k & R3)]. split; [exact C3|].
        exists (S k). rewrite R3, R2. cbn [requested st1 firstn].
        now rewrite <- app_assoc.
Qed.

Lemma collected_consistent (num_movies : Z) :
  consistent (collected top_rated num_movies)
  /\ exists j, requested (collected top_rated num_movies) = map Z.of_nat (seq 1 j)
               /\ (Z.of_nat j <= Z.max (pages_needed num_movies) 0)%Z.
Proof.
  unfold collected.
  destruct (collect_consistent num_movies (page_range num_movies)
              {| movie_list := []; collected_ids := []; requested := [] |})
    as [C (k & R)].
  { repeat split; try constructor; simpl; tauto. }
  split; [exact C|]. cbn [requested app] in R. unfold page_range in R.
  rewrite firstn_map, firstn_seq in R.
  eexists. split; [exact R|]. lia.
Qed.

Lemma NoDup_slice_to {A : Type} (l : list A) (k : Z) : NoDup l -> NoDup (slice_to l k).
Proof. unfold slice_to. destruct (k <? 0)%Z; apply NoDup_firstn. Qed.

Lemma crawl_ids (num_movies max_reviews_per_movie : Z) :
  map (fun c => id (merged c))
      (crawl_top_rated_movies top_rated details_of reviews_of num_movies
         max_reviews_per_movie)
  = slice_to (map id_of (movie_list (collected top_rated num_movies))) num_movies.
Proof.
  unfold crawl_top_rated_movies. rewrite map_map, SortFacts.slice_to_map.
  apply map_ext. intros movie. reflexivity.
Qed.

(** The ids of a batch are pairwise distinct. *)
Lemma crawl_ids_NoDup (num_movies max_reviews_per_movie : Z) :
  NoDup (map (fun c => id (merged c))
             (crawl_top_rated_movies top_rated details_of reviews_of num_movies
                max_reviews_per_movie)).
Proof.
  rewrite crawl_ids. apply NoDup_slice_to.
  apply (collected_consistent num_movies).
Qed.

(** X4. A crawl for [num_movies] movies requests the listing pages 1, 2, ...
    in turn, at most [ceil(num_movies / 20)] of them and none at all for
    [num_movies <= 0]; it returns at most [num_movies] records with pairwise
    distinct ids, each built from an entry of a requested page with that
    entry's rank, its review count being the number of its reviews. *)
Theorem crawl_batch (num_movies max_reviews_per_movie : Z) :
  let batch :=
    crawl_top_rated_movies top_rated details_of reviews_of num_movies
      max_reviews_per_movie in
  let pages := requested (collected top_rated num_movies) in
  NoDup (map (fun c => id (merged c)) batch)
  /\ (Z.of_nat (length batch) <= Z.max num_movies 0)%Z
  /\ (exists j, pages = map Z.of_nat (seq 1 j)
                /\ (20 * (Z.of_nat j - 1) < Z.max num_movies 0)%Z)
  /\ ((num_movies <= 0)%Z -> pages = [] /\ batch = [])
  /\ Forall (fun c =>
               review_count c = length (reviews c)
               /\ reviews c = reviews_of (id (merged c)) max_reviews_per_movie
               /\ exists page movie,
                    In page pages /\ In movie (top_rated page)
                    /\ merged c = merge_record (info movie) (details_of (id_of movie))
                    /\ tmdb_top_rated_rank c = top_rated_rank movie)
            batch.
Proof.
  cbv zeta.
  destruct (collected_consistent num_movies) as [(ND & Ids & Src) (j & R & J)].
  pose proof (pages_needed_ceiling num_movies) as Ceil.
  assert (Empty : (num_movies <= 0)%Z ->
                  requested (collected top_rated num_movies) = []
                  /\ movie_list (collected top_rated num_movies) = []).
  { intros N. unfold collected, page_range.
    assert (Z0 : Z.to_nat (pages_needed num_movies) = 0) by lia.
    rewrite Z0. split; reflexivity. }
  split; [apply crawl_ids_NoDup|]. split; [|split; [|split]].
  - unfold crawl_top_rated_movies. rewrite length_map.
    destruct (Z_le_gt_dec num_movies 0) as [N|P].
    + destruct (Empty N) as [_ ->]. unfold slice_to.
      destruct (num_movies <? 0)%Z; rewrite firstn_nil; simpl; lia.
    + unfold slice_to.
      assert (Neg : (num_movies <? 0)%Z = false) by (apply Z.ltb_ge; lia).
      rewrite Neg, length_firstn. lia.
  - exists j. split; [exact R|]. lia.
  - intros N. destruct (Empty N) as [Rq Ml]. split; [exact Rq|].
    unfold crawl_top_rated_movies. rewrite Ml. unfold slice_to.
    destruct (num_movies <? 0)%Z; now rewrite firstn_nil.
  - apply Forall_forall. intros c I. unfold crawl_top_rated_movies in I.
    apply in_map_iff in I as (movie & <- & I).
    apply SortFacts.slice_to_incl in I.
    cbn [review_count reviews merged tmdb_top_rated_rank].
    split; [reflexivity|]. split; [reflexivity|].
    destruct (Src movie I) as (page & P & M). now exists page, movie.
Qed.

End Crawl.
End CatalogFacts.

Module BatchCorpusFacts.
Import DictFacts CatalogFacts.

Lemma NoDup_map_injective {A B : Type} (f : A -> B) (l : list A) :
  (forall a b, f a = f b -> a = b) -> NoDup l -> NoDup (map f l).
Proof.
  intros Inj. induction 1 as [|a l N ND IH]; simpl; constructor; [|assumption].
  intros I. apply in_map_iff in I as (b & E & I). apply Inj in E. now subst.
Qed.

Section Corpus.
Context `{Unicode} `{PySet}.
Variable top_rated : Z -> list Catalog.listed.
Variable details_of : Z -> option Crawler.item_detail.
Variable reviews_of : Z -> Z -> list Catalog.review_data.

(** X5. The JSON corpus written from one crawl and loaded by the
    recommender has one record for each crawled movie, in crawl order, and
    the ids of its records are pairwise distinct: the condition under which
    the hybrid search scores every record on its own. *)
Theorem crawled_corpus_ids (num_movies max_reviews_per_movie : Z) :
  let batch :=
    Catalog.crawl_top_rated_movies top_rated details_of reviews_of num_movies
      max_reviews_per_movie in
  let corpus :=
    Recommender.load_movies_from_json
      (map (fun c => Recommender.exported (Catalog.merged c)) batch) in
  map Recommender.id corpus
  = map (fun c => Recommender.IntId (Crawler.id (Catalog.merged c))) batch
  /\ map Recommender.title corpus
     = map (fun c => Crawler.title (Catalog.merged c)) batch
  /\ NoDup (map Recommender.id corpus).
Proof.
  cbv zeta. unfold Recommender.load_movies_from_json.
  rewrite !map_map. cbn.
  split; [reflexivity|]. split; [reflexivity|].
  rewrite <- (map_map (fun c => Crawler.id (Catalog.merged c)) Recommender.IntId).
  apply NoDup_map_injective; [intros a b E; now injection E|].
  apply crawl_ids_NoDup.
Qed.

End Corpus.
End BatchCorpusFacts.

(** ** The life cycle of the index *)

Module LifecycleFacts.
Import Recommender DictFacts QueryFacts SearchFacts RankFacts.

Section Lifecycle.
Context `{Unicode} `{Numerics}.

(** Indexing replaces every attribute the searches read. *)
Lemma index_movies_fresh (st : state) (ms : list movie) :
  index_movies st ms = index_movies initial ms.
Proof. reflexivity. Qed.

(** X6. Before anything is indexed every entry point of the recommender
    raises [ValueError]: the two searches by their own test, the hybrid
    search through the semantic search it starts with, the mood
    recommendation through whichever search it hands the query to. *)
Theorem searches_need_index (st : state) (query : pystr)
  (target : Dict.t pystr Q) (target_emotions : option (Dict.t pystr Q))
  (semantic_weight emotion_weight : Q) (top_k : Z) :
  semantic_embeddings st = None -> emotion_vectors st = None ->
  semantic_search st query top_k = ValueError
  /\ emotion_search st target top_k = ValueError
  /\ hybrid_search st query target_emotions semantic_weight emotion_weight top_k
     = ValueError
  /\ get_recommendation_by_mood st query top_k = ValueError.
Proof.
  intros S E.
  assert (Sem : forall k, semantic_search st query k = ValueError)
    by (intros k; unfold semantic_search; now rewrite S).
  assert (Emo : forall t, emotion_search st t top_k = ValueError)
    by (intros t; unfold emotion_search; now rewrite E).
  split; [apply Sem|]. split; [apply Emo|]. split.
  - unfold hybrid_search. now rewrite Sem.
  - unfold get_recommendation_by_mood.
    destruct (extract_emotions_from_query query); [apply Sem | apply Emo].
Qed.

(** X7. Once a non-empty list of records is indexed, whatever the state
    before: the emotion search, the mood recommendation and the hybrid search
    return for every [top_k]; the semantic search returns for [top_k >= 0]
    and fails inside [topk] for a negative one. *)
Theorem indexed_searches_return (st : state) (ms : list movie) (query : pystr)
  (target : Dict.t pystr Q) (target_emotions : option (Dict.t pystr Q))
  (semantic_weight emotion_weight : Q) (top_k : Z) :
  ms <> [] ->
  let st' := index_movies st ms in
  (exists w rs, emotion_search st' target top_k = Ok (w, rs))
  /\ (exists w rs, get_recommendation_by_mood st' query top_k = Ok (w, rs))
  /\ (exists w rs,
         hybrid_search st' query target_emotions semantic_weight emotion_weight top_k
         = Ok (w, rs))
  /\ ((0 <= top_k)%Z -> exists rs, semantic_search st' query top_k = Ok ([], rs))
  /\ ((top_k < 0)%Z -> semantic_search st' query top_k = RuntimeError).
Proof.
  intros NE st'. unfold st'. rewrite index_movies_fresh.
  split; [|split; [|split; [|split]]].
  - destruct (emotion_search_returns ms target top_k NE) as (rs & E). eauto.
  - unfold get_recommendation_by_mood.
    destruct (extracted_distribution query) as (N & _).
    destruct (extract_emotions_from_query query) as [|e t] eqn:X; [congruence|].
    destruct (emotion_search_returns ms (e :: t) top_k NE) as (rs & E). eauto.
  - unfold hybrid_search.
    change (movies (index_movies initial ms)) with ms.
    destruct (semantic_search_spec ms query (Z.of_nat (length ms)))
      as (order & _ & _ & Es); [lia|].
    rewrite Es.
    match goal with
    | |- context [emotion_search _ ?t ?k] =>
      destruct (emotion_search_returns ms t k NE) as (rs & E); rewrite E
    end.
    eauto.
  - intros P. destruct (semantic_search_spec ms query top_k P) as (order & _ & _ & Es).
    eauto.
  - intros N. unfold semantic_search.
    change (semantic_embeddings (index_movies initial ms))
      with (Some (map (fun m => encode (movie_text m)) ms)).
    change (movies (index_movies initial ms)) with ms. cbv iota.
    assert (E : (Z.min top_k (Z.of_nat (length ms)) <? 0)%Z = true)
      by (apply Z.ltb_lt; lia).
    now rewrite E.
Qed.

End Lifecycle.

Section Examples.
#[local] Existing Instance Reference.basic_unicode.
#[local] Existing Instance Reference.small_arrays.

(** The recommender as constructed, before any call of [index_movies]. *)
Lemma searches_need_index_witness :
  semantic_embeddings initial = None
  /\ emotion_vectors initial = None
  /\ get_recommendation_by_mood initial (u "happy") 5 = ValueError.
Proof.
  split; [reflexivity|]. split; [reflexivity|].
  pose proof (searches_need_index initial (u "happy") [] None 1%Q 1%Q 5
                eq_refl eq_refl) as T.
  destruct T as (_ & _ & _ & T). exact T.
Defined.

Lemma indexed_searches_return_witness :
  length two_movies = 2%nat
  /\ exists w rs,
       get_recommendation_by_mood (index_movies initial two_movies) (u "happy") 1
       = Ok (w, rs).
Proof.
  split; [reflexivity|].
  pose proof (indexed_searches_return initial two_movies (u "happy") [] None
                1%Q 1%Q 1 ltac:(discriminate)) as T.
  cbv zeta in T. destruct T as (_ & T & _). exact T.
Defined.

End Examples.
End LifecycleFacts.

(** ** A [top_k] of zero or below *)

Module TopKFacts.
Import Recommender DictFacts QueryFacts SearchFacts SortFacts RankFacts.
#[local] Open Scope Q_scope.

Section TopK.
Context `{Unicode} `{Numerics}.

(** X8. The emotion search does not return an empty list for [top_k <= 0]:
    the slice [[-top_k:]] of the ascending [argsort] then starts at position
    [-top_k], so [top_k = 0] returns every record and [top_k = -j] all but the
    [j] least similar ones, still in falling order of similarity. *)
Theorem emotion_search_nonpositive_top_k (ms : list movie)
  (target : Dict.t pystr Q) (top_k : Z) :
  ms <> [] -> all_zero (target_vector target) = false -> (top_k <= 0)%Z ->
  exists rs,
    emotion_search (index_movies initial ms) target top_k
    = Ok (search_warnings target, rs)
    /\ length rs = (length ms - Z.to_nat (- top_k))%nat
    /\ StronglySorted (fun a b : scored * Q => snd b <= snd a) rs
    /\ (top_k = 0%Z ->
        Permutation (map (fun r => scored_movie (fst r)) rs) ms).
Proof.
  intros NE Z0 K. eexists. split; [now apply emotion_search_spec|].
  set (sims := map (emotion_of target) ms).
  assert (P : Permutation (argsort sims) (seq 0 (length ms))).
  { unfold sims. rewrite <- (length_map (emotion_of target) ms). apply argsort_perm. }
  assert (L : length (argsort sims) = length ms)
    by now rewrite (Permutation_length P), length_seq.
  assert (M : Z.min top_k (Z.of_nat (length ms)) = top_k) by lia.
  rewrite M.
  assert (E : slice_from (argsort sims) (- top_k)
              = skipn (Z.to_nat (- top_k)) (argsort sims)).
  { unfold slice_from. destruct (- top_k <? 0)%Z eqn:N; [|reflexivity].
    apply Z.ltb_lt in N. lia. }
  rewrite E. split; [|split].
  - rewrite length_map, pick_length.
    + now rewrite length_rev, length_skipn, L.
    + intros i I. apply in_rev in I.
      apply (Permutation_bound (argsort sims)); [exact P|].
      rewrite <- (firstn_skipn (Z.to_nat (- top_k)) (argsort sims)).
      apply in_app_iff. now right.
  - apply StronglySorted_map. cbn [snd]. apply pick_sorted.
    apply (StronglySorted_rev (fun i j => nth i sims 0 <= nth j sims 0)).
    apply StronglySorted_skipn, argsort_sorted.
  - intros ->. cbn [Z.opp Z.to_nat skipn].
    rewrite map_map. cbn [fst scored_movie]. rewrite map_id.
    apply pick_all. eapply Permutation_trans; [apply Permutation_sym, Permutation_rev|].
    exact P.
Qed.


End TopK.

Section Examples.
#[local] Existing Instance Reference.basic_unicode.
#[local] Existing Instance Reference.small_arrays.

(** [top_k = 0] over two records: both are returned. *)
Lemma emotion_search_nonpositive_top_k_witness :
  length two_movies = 2%nat
  /\ all_zero (target_vector [(u "joy", 1)]) = false
  /\ (0 <= 0)%Z
  /\ exists rs,
       emotion_search (index_movies initial two_movies) [(u "joy", 1)] 0
       = Ok (search_warnings [(u "joy", 1)], rs)
       /\ length rs = 2%nat.
Proof.
  split; [reflexivity|]. split; [vm_compute; reflexivity|]. split; [lia|].
  pose proof (emotion_search_nonpositive_top_k two_movies [(u "joy", 1)] 0
                ltac:(discriminate) ltac:(vm_compute; reflexivity) ltac:(lia)) as T.
  destruct T as (rs & E & L & _). exists rs. split; [exact E | exact L].
Defined.


End Examples.
End TopKFacts.

(** ** Labels, aliases and the emotions read from a query *)

Module MoodFacts.
Import Recommender DictFacts QueryFacts SearchFacts SortFacts LoaderFacts RankFacts.
Import TextFacts.
#[local] Open Scope Q_scope.

(** X10. A label passes the first loop of [emotion_search] exactly when it is
    a key of the alias table: every alias maps to one of the ten fixed
    labels, and each fixed label is its own alias.  Mapping twice is mapping
    once. *)
Theorem known_labels_are_alias_keys (emotion : pystr) :
  known_label fixed_emotion_labels emotion = Dict.mem emotion emotion_mapping
  /\ mapped_label (mapped_label emotion) = mapped_label emotion
  /\ (known_label fixed_emotion_labels emotion = true ->
      In (mapped_label emotion) fixed_emotion_labels).
Proof.
  assert (V : forall k v, Dict.get emotion_mapping k = Some v ->
                 In v fixed_emotion_labels /\ Dict.get emotion_mapping v = Some v).
  { intros k v G. apply get_In in G.
    assert (A : forallb
                  (fun kv => existsb (str_eqb (snd kv)) fixed_emotion_labels
                             && match Dict.get emotion_mapping (snd kv) with
                                | Some w => str_eqb w (snd kv)
                                | None => false
                                end)
                  emotion_mapping = true) by (vm_compute; reflexivity).
    rewrite forallb_forall in A. specialize (A _ G). cbn [snd] in A.
    apply andb_true_iff in A as [A B]. split; [now apply existsb_str_eqb|].
    destruct (Dict.get emotion_mapping v) as [w|]; [|discriminate].
    apply str_eqb_eq in B. now subst. }
  assert (F : forall l, In l fixed_emotion_labels -> Dict.get emotion_mapping l = Some l).
  { intros l I.
    assert (A : forallb
                  (fun l => match Dict.get emotion_mapping l with
                            | Some w => str_eqb w l
                            | None => false
                            end)
                  fixed_emotion_labels = true) by (vm_compute; reflexivity).
    rewrite forallb_forall in A. specialize (A _ I).
    destruct (Dict.get emotion_mapping l) as [w|]; [|discriminate].
    apply str_eqb_eq in A. now subst. }
  unfold known_label, mapped_label, Dict.mem, Dict.get_default.
  destruct (Dict.get emotion_mapping emotion) as [v|] eqn:G.
  - destruct (V _ _ G) as [I S]. rewrite S.
    split; [now apply existsb_str_eqb|]. split; [reflexivity|]. now intros _.
  - rewrite G. split; [|split; [reflexivity | now rewrite existsb_str_eqb]].
    destruct (existsb (str_eqb emotion) fixed_emotion_labels) eqn:E; [|reflexivity].
    apply existsb_str_eqb in E. rewrite (F _ E) in G. discriminate.
Qed.

(** *** The target vector *)

Lemma index_of_nth (labels : list pystr) (e : pystr) (i : nat) :
  index_of labels e = Some i -> nth_error labels i = Some e.
Proof.
  revert i; induction labels as [|l labels IH]; intros i; simpl; [discriminate|].
  destruct (str_eqb l e) eqn:E.
  - intros [= <-]. apply str_eqb_eq in E. now subst.
  - destruct (index_of labels e) as [j|]; [|discriminate].
    intros [= <-]. now apply IH.
Qed.

Lemma index_of_In (labels : list pystr) (e : pystr) :
  In e labels -> exists i, index_of labels e = Some i.
Proof.
  induction labels as [|l labels IH]; simpl; [tauto|].
  destruct (str_eqb l e) eqn:E; [eauto|].
  intros [->|I]; [rewrite (proj2 (str_eqb_eq e e) eq_refl) in E; discriminate|].
  destruct (IH I) as (i & ->). simpl. eauto.
Qed.

Lemma length_assign {A : Type} (v : list A) (i : nat) (x : A) :
  length (assign v i x) = length v.
Proof. revert i; induction v as [|y v IH]; intros [|i]; simpl; auto. Qed.

Lemma assign_same {A : Type} (v : list A) (i : nat) (x : A) :
  (i < length v)%nat -> nth_error (assign v i x) i = Some x.
Proof.
  revert i; induction v as [|y v IH]; intros [|i]; simpl; try lia; auto.
  intros L. apply IH. lia.
Qed.

Lemma assign_other {A : Type} (v : list A) (i j : nat) (x : A) :
  i <> j -> nth_error (assign v i x) j = nth_error v j.
Proof.
  revert i j; induction v as [|y v IH]; intros [|i] [|j] N; simpl; auto.
  congruence.
Qed.

Definition place (labels : list pystr) (vector : list Q) (entry : pystr * Q) : list Q :=
  match index_of labels (fst entry) with
  | Some idx => assign vector idx (snd entry)
  | None => vector
  end.

Lemma length_place labels vector entry :
  length (place labels vector entry) = length vector.
Proof. unfold place. destruct (index_of _ _); [apply length_assign | reflexivity]. Qed.

Lemma place_keeps labels (d : Dict.t pystr Q) (v : list Q) (k : pystr) (i : nat) :
  index_of labels k = Some i -> ~ In k (Dict.keys d) ->
  nth_error (fold_left (place labels) d v) i = nth_error v i.
Proof.
  intros I. revert v; induction d as [|[k' x'] d IH]; intros v N; [reflexivity|].
  cbn [fold_left]. rewrite IH by (simpl in N; tauto).
  unfold place. cbn [fst snd]. destruct (index_of labels k') as [j|] eqn:J; [|reflexivity].
  apply assign_other. intros ->. apply index_of_nth in I, J.
  rewrite I in J. injection J as ->. apply N. now left.
Qed.

(** The vector holds at the position of each label of the dictionary the
    value stored under it. *)
Lemma target_vector_entry labels (d : Dict.t pystr Q) (k : pystr) (x : Q) (i : nat) :
  NoDup (Dict.keys d) -> In (k, x) d -> index_of labels k = Some i ->
  nth_error (target_vector_of labels d) i = Some x.
Proof.
  intros ND I E. unfold target_vector_of.
  change (fun vector entry =>
            match index_of labels (fst entry) with
            | Some idx => assign vector idx (snd entry)
            | None => vector
            end) with (place labels).
  assert (L : length (repeat 0 (length labels)) = length labels) by apply repeat_length.
  revert L. generalize (repeat 0 (length labels)) as v.
  induction d as [|[k' x'] d IH]; intros v L; [destruct I|].
  inversion_clear ND as [|? ? N ND']. cbn [fold_left].
  destruct I as [[= -> ->]|I].
  - rewrite (place_keeps labels d _ k i E N). unfold place. cbn [fst snd]. rewrite E.
    apply assign_same. rewrite L. apply index_of_nth in E.
    apply nth_error_Some. congruence.
  - apply IH; auto. now rewrite length_place.
Qed.

Lemma all_zero_entry (v : list Q) (i : nat) (x : Q) :
  nth_error v i = Some x -> 0 < x -> all_zero v = false.
Proof.
  intros E P. unfold all_zero.
  destruct (forallb (fun y => Qeq_bool y 0) v) eqn:A; [|reflexivity].
  rewrite forallb_forall in A. apply nth_error_In in E. specialize (A _ E).
  apply Qeq_bool_iff in A. lra.
Qed.

Lemma clamp01_positive (x : Q) : 0 < x -> 0 < clamp01 x.
Proof.
  intros P. unfold clamp01. destruct (Qlt_bool x 1).
  - rewrite (proj2 (Qlt_bool_iff 0 x) P). exact P.
  - reflexivity.
Qed.

Section Targets.
Context `{Unicode} `{Numerics}.

(** Known labels with positive intensities give a target vector that is not
    all zeros, and no warning. *)
Lemma positive_target (target : Dict.t pystr Q) :
  target <> [] ->
  Forall (fun e => known_label fixed_emotion_labels (fst e) = true /\ 0 < snd e)
         target ->
  all_zero (target_vector target) = false /\ search_warnings target = [].
Proof.
  intros N F.
  assert (K : filter (fun e => known_label fixed_emotion_labels (fst e)) target = target).
  { clear N. induction F as [|e l [Kn _] F IH]; [reflexivity|].
    cbn [filter]. now rewrite Kn, IH. }
  assert (Z0 : all_zero (target_vector target) = false).
  { unfold target_vector. rewrite all_zero_normalize, convert_emotions_spec.
    cbn [fst]. unfold kept. rewrite K.
    set (step := fun (acc : Dict.t pystr Q) (entry : pystr * Q) =>
                   Dict.set acc (mapped_label (fst entry)) (clamp01 (snd entry))).
    assert (Inv : forall l d,
               Forall (fun e => known_label fixed_emotion_labels (fst e) = true
                                /\ 0 < snd e) l ->
               NoDup (Dict.keys d) ->
               Forall (fun e => In (fst e) fixed_emotion_labels /\ 0 < snd e) d ->
               (l <> [] \/ d <> []) ->
               let r := fold_left step l d in
               NoDup (Dict.keys r)
               /\ Forall (fun e => In (fst e) fixed_emotion_labels /\ 0 < snd e) r
               /\ r <> []).
    { induction l as [|e l IH]; intros d Fl ND Fd NE.
      - cbn. repeat split; auto. destruct NE; congruence.
      - inversion_clear Fl as [|? ? [Kn P] Fl']. cbn [fold_left]. apply IH; auto.
        + unfold step. now apply NoDup_keys_set.
        + unfold step. apply Forall_set; [assumption|]. cbn [fst snd]. split.
          * unfold known_label in Kn. now apply existsb_str_eqb in Kn.
          * now apply clamp01_positive.
        + right. unfold step. destruct d as [|[k v] d]; cbn [Dict.set]; [discriminate|].
          destruct (key_eqb k (mapped_label (fst e))); discriminate. }
    destruct (Inv target [] F (NoDup_nil _) (Forall_nil _) (or_introl N))
      as (ND & Fk & NE).
    destruct (fold_left step target []) as [|[k x] d] eqn:E; [congruence|].
    inversion Fk as [|? ? [I P] _]. cbn [fst snd] in I, P.
    destruct (index_of_In _ _ I) as (i & Ei).
    apply (all_zero_entry _ i x); [|exact P].
    apply (target_vector_entry _ _ k); auto. now left. }
  split; [exact Z0|]. unfold search_warnings. rewrite Z0, app_nil_r.
  rewrite filter_none; [reflexivity|].
  intros e I. rewrite Forall_forall in F. now rewrite (proj1 (F e I)).
Qed.

Lemma fixed_labels_known (e : pystr) :
  In e fixed_emotion_labels -> known_label fixed_emotion_labels e = true.
Proof.
  revert e. apply forallb_forall. vm_compute. reflexivity.
Qed.

(** The emotions read from a query are among the ten fixed labels. *)
Lemma extracted_labels (query : pystr) :
  incl (Dict.keys (extract_emotions_from_query query)) fixed_emotion_labels.
Proof.
  destruct (0 <? nat_sum (Dict.values (emotion_counts query)))%nat eqn:P.
  - apply Nat.ltb_lt in P. rewrite extracted_shares by exact P.
    intros k I. unfold Dict.keys in I. rewrite map_map in I.
    cbn [fst] in I. apply in_map_iff in I as (e & <- & I).
    apply filter_In in I as [I _]. apply (in_map fst) in I.
    fold (Dict.keys (emotion_counts query)) in I.
    rewrite keys_emotion_counts in I. exact I.
  - unfold extract_emotions_from_query. rewrite P.
    repeat match goal with
           | |- context [if ?c then _ else _] => destruct c
           end;
      (intros k I; apply existsb_str_eqb; revert k I; apply forallb_forall;
       vm_compute; reflexivity).
Qed.

Lemma extracted_target (query : pystr) :
  all_zero (target_vector (extract_emotions_from_query query)) = false
  /\ search_warnings (extract_emotions_from_query query) = [].
Proof.
  destruct (extracted_distribution query) as (N & P & _).
  apply positive_target; [exact N|].
  apply Forall_forall. intros e I. split.
  - apply fixed_labels_known, (extracted_labels query). now apply (in_map fst).
  - rewrite Forall_forall in P. now apply P.
Qed.

(** X11. A mood recommendation over a non-empty index with [top_k >= 1]
    prints no warning and is never empty: the emotions read from the
    description are known labels with positive intensities, so the target
    vector is not all zeros, and the emotion search returns
    [min(top_k, number of records)] records in falling order of similarity,
    each with semantic score 0. *)
Theorem mood_recommendation_results (ms : list movie) (mood_description : pystr)
  (top_k : Z) :
  ms <> [] -> (1 <= top_k)%Z ->
  exists rs,
    get_recommendation_by_mood (index_movies initial ms) mood_description top_k
    = Ok ([], rs)
    /\ length rs = Nat.min (Z.to_nat top_k) (length ms)
    /\ rs <> []
    /\ StronglySorted (fun a b : scored * Q => snd b <= snd a) rs
    /\ Forall (fun r => semantic_score (fst r) = 0
                        /\ emotion_score (fst r) = snd r
                        /\ In (scored_movie (fst r)) ms) rs.
Proof.
  intros NE K. destruct (extracted_target mood_description) as [Z0 W].
  destruct (extracted_distribution mood_description) as (N & _).
  unfold get_recommendation_by_mood.
  destruct (extract_emotions_from_query mood_description) as [|e t] eqn:X; [congruence|].
  set (target := e :: t) in *.
  eexists. split; [rewrite <- W; now apply emotion_search_spec|].
  set (sims := map (emotion_of target) ms).
  assert (P : Permutation (argsort sims) (seq 0 (length ms))).
  { unfold sims. rewrite <- (length_map (emotion_of target) ms). apply argsort_perm. }
  assert (L : length (argsort sims) = length ms)
    by now rewrite (Permutation_length P), length_seq.
  assert (Pos : (0 < length ms)%nat) by (destruct ms; [congruence | simpl; lia]).
  destruct (slice_from_last (argsort sims) (Z.min top_k (Z.of_nat (length ms))))
    as [E Ln]; [rewrite L; lia|].
  assert (Len : length (map (fun m => (with_emotion m (emotion_of target m),
                                       emotion_of target m))
                            (pick ms (rev (slice_from (argsort sims)
                                             (- Z.min top_k (Z.of_nat (length ms)))))))
                = Nat.min (Z.to_nat top_k) (length ms)).
  { rewrite length_map, pick_length.
    - rewrite length_rev, Ln. lia.
    - intros i I. apply in_rev in I.
      apply (Permutation_bound (argsort sims)); [exact P|].
      rewrite E in I.
      rewrite <- (firstn_skipn (length (argsort sims)
                                - Z.to_nat (Z.min top_k (Z.of_nat (length ms))))
                               (argsort sims)).
      apply in_app_iff. now right. }
  split; [exact Len|]. split; [|split].
  - intros Nil. rewrite Nil in Len. simpl in Len. lia.
  - apply StronglySorted_map. cbn [snd]. apply pick_sorted.
    apply (StronglySorted_rev (fun i j => nth i sims 0 <= nth j sims 0)).
    rewrite E. apply StronglySorted_skipn, argsort_sorted.
  - apply Forall_forall. intros r I. apply in_map_iff in I as (m & <- & I).
    cbn. repeat split. now apply pick_incl in I.
Qed.


End Targets.

Section Examples.
#[local] Existing Instance Reference.basic_unicode.
#[local] Existing Instance Reference.small_arrays.

Lemma mood_recommendation_results_witness :
  length two_movies = 2%nat
  /\ (1 <= 1)%Z
  /\ exists rs,
       get_recommendation_by_mood (index_movies initial two_movies) (u "happy") 1
       = Ok ([], rs)
       /\ length rs = 1%nat.
Proof.
  split; [reflexivity|]. split; [lia|].
  pose proof (mood_recommendation_results two_movies (u "happy") 1
                ltac:(discriminate) ltac:(lia)) as T.
  destruct T as (rs & E & L & _). exists rs. split; [exact E | exact L].
Defined.


End Examples.
End MoodFacts.

(** ** The target vector of the emotion search *)

Module TargetFacts.
Import Recommender DictFacts QueryFacts SearchFacts SortFacts LoaderFacts RankFacts.
Import TextFacts MoodFacts.
#[local] Open Scope Q_scope.

(** The intensity the first loop of [emotion_search] leaves for a fixed
    label: that of the last entry of the target whose label the alias table
    maps to it, clamped to [0, 1]; 0 when there is no such entry.  Entries
    whose label is not a key of the alias table do not count. *)
Definition intensity_of (target : Dict.t pystr Q) (label : pystr) : Q :=
  fold_left
    (fun intensity entry =>
       match Dict.get emotion_mapping (fst entry) with
       | Some mapped =>
         if str_eqb mapped label then clamp01 (snd entry) else intensity
       | None => intensity
       end)
    target 0.

Lemma alias_table_sound (k v : pystr) :
  Dict.get emotion_mapping k = Some v -> In v fixed_emotion_labels.
Proof.
  intros G. apply get_In in G.
  assert (A : forallb (fun kv => existsb (str_eqb (snd kv)) fixed_emotion_labels)
                      emotion_mapping = true) by (vm_compute; reflexivity).
  rewrite forallb_forall in A. specialize (A _ G). cbn [snd] in A.
  now apply existsb_str_eqb.
Qed.

Lemma fixed_labels_aliased (l : pystr) :
  In l fixed_emotion_labels -> Dict.get emotion_mapping l = Some l.
Proof.
  intros I.
  assert (A : forallb
                (fun l => match Dict.get emotion_mapping l with
                          | Some w => str_eqb w l
                          | None => false
                          end)
                fixed_emotion_labels = true) by (vm_compute; reflexivity).
  rewrite forallb_forall in A. specialize (A _ I).
  destruct (Dict.get emotion_mapping l) as [w|]; [|discriminate].
  apply str_eqb_eq in A. now subst.
Qed.

(** A label passes the first loop exactly when it is a key of the alias
    table. *)
Lemma known_label_mem (e : pystr) :
  known_label fixed_emotion_labels e = Dict.mem e emotion_mapping.
Proof.
  unfold known_label, mapped_label, Dict.mem, Dict.get_default.
  destruct (Dict.get emotion_mapping e) as [v|] eqn:G.
  - apply existsb_str_eqb. exact (alias_table_sound e v G).
  - destruct (existsb (str_eqb e) fixed_emotion_labels) eqn:E; [|reflexivity].
    apply existsb_str_eqb in E. rewrite (fixed_labels_aliased _ E) in G. discriminate.
Qed.

Lemma get_default_set (d : Dict.t pystr Q) (k l : pystr) (v : Q) :
  Dict.get_default (Dict.set d k v) l 0
  = if str_eqb k l then v else Dict.get_default d l 0.
Proof.
  unfold Dict.get_default. destruct (str_eqb k l) eqn:E.
  - apply str_eqb_eq in E. subst l. now rewrite get_set_same.
  - rewrite get_set_other; [reflexivity|].
    intros ->. rewrite (proj2 (str_eqb_eq l l) eq_refl) in E. discriminate.
Qed.

(** What the first loop stores under a label. *)
Lemma kept_intensity (target : Dict.t pystr Q) (label : pystr) :
  Dict.get_default (kept fixed_emotion_labels target) label 0
  = intensity_of target label.
Proof.
  unfold kept, intensity_of.
  change 0 with (Dict.get_default (@nil (pystr * Q)) label 0) at 2.
  generalize (@nil (pystr * Q)) as d.
  induction target as [|e target IH]; intros d; [reflexivity|].
  cbn [filter fold_left]. rewrite known_label_mem.
  unfold Dict.mem.
  destruct (Dict.get emotion_mapping (fst e)) as [mapped|] eqn:G.
  - assert (M : mapped_label (fst e) = mapped)
      by (unfold mapped_label, Dict.get_default; now rewrite G).
    cbn [fold_left]. rewrite IH, M. f_equal. apply get_default_set.
  - apply IH.
Qed.

Lemma kept_NoDup (labels : list pystr) (target : Dict.t pystr Q) :
  NoDup (Dict.keys (kept labels target)).
Proof.
  unfold kept.
  assert (N : NoDup (Dict.keys (@nil (pystr * Q)))) by constructor.
  revert N. generalize (@nil (pystr * Q)) as d.
  induction (filter (fun e => known_label labels (fst e)) target) as [|e l IH];
    intros d N; [exact N|].
  cbn [fold_left]. apply IH. now apply NoDup_keys_set.
Qed.

Lemma index_of_position (labels : list pystr) (l : pystr) (i : nat) :
  NoDup labels -> nth_error labels i = Some l -> index_of labels l = Some i.
Proof.
  revert i. induction labels as [|x labels IH]; intros [|i] ND E; try discriminate.
  - injection E as ->. cbn. now rewrite (proj2 (str_eqb_eq l l) eq_refl).
  - inversion_clear ND as [|? ? N ND']. cbn in E. cbn [index_of].
    destruct (str_eqb x l) eqn:X.
    + apply str_eqb_eq in X. subst x. apply nth_error_In in E. contradiction.
    + now rewrite (IH i ND' E).
Qed.

Lemma length_target_vector_of (labels : list pystr) (d : Dict.t pystr Q) :
  length (target_vector_of labels d) = length labels.
Proof.
  unfold target_vector_of.
  change (fun vector entry =>
            match index_of labels (fst entry) with
            | Some idx => assign vector idx (snd entry)
            | None => vector
            end) with (place labels).
  rewrite <- (repeat_length 0 (length labels)) at 2.
  generalize (repeat 0 (length labels)) as v.
  induction d as [|e d IH]; intros v; [reflexivity|].
  cbn [fold_left]. now rewrite IH, length_place.
Qed.

(** The second loop: the vector holds, at the position of each label, what
    the dictionary stores under it, and 0 where it stores nothing. *)
Lemma target_vector_of_spec (labels : list pystr) (d : Dict.t pystr Q) :
  NoDup labels -> NoDup (Dict.keys d) ->
  target_vector_of labels d = map (fun l => Dict.get_default d l 0) labels.
Proof.
  intros NL ND. apply nth_error_ext. intros i.
  destruct (nth_error labels i) as [l|] eqn:E.
  - rewrite (map_nth_error _ _ _ E).
    pose proof (index_of_position labels l i NL E) as P.
    unfold Dict.get_default. destruct (Dict.get d l) as [x|] eqn:G.
    + apply (target_vector_entry labels d l x i ND); [now apply get_In | exact P].
    + apply get_None in G. unfold target_vector_of.
      change (fun vector entry =>
                match index_of labels (fst entry) with
                | Some idx => assign vector idx (snd entry)
                | None => vector
                end) with (place labels).
      rewrite (place_keeps labels d _ l i P G).
      apply nth_error_repeat. apply nth_error_Some. congruence.
  - apply nth_error_None in E.
    rewrite (proj2 (nth_error_None _ _)) by (rewrite length_target_vector_of; lia).
    symmetry. apply nth_error_None. rewrite length_map. lia.
Qed.

(** The mapped target vector, before it is normalized. *)
Lemma mapped_target_vector (target : Dict.t pystr Q) :
  target_vector_of fixed_emotion_labels
    (fst (convert_emotions fixed_emotion_labels target))
  = map (intensity_of target) fixed_emotion_labels.
Proof.
  rewrite convert_emotions_spec. cbn [fst].
  rewrite target_vector_of_spec by (try apply kept_NoDup; exact NoDup_fixed_emotion_labels).
  apply map_ext. intros l. apply kept_intensity.
Qed.

(** Entries outside the alias table leave every intensity as it is. *)
Lemma intensity_of_aliased (target : Dict.t pystr Q) (label : pystr) :
  intensity_of (filter (fun e => Dict.mem (fst e) emotion_mapping) target) label
  = intensity_of target label.
Proof.
  unfold intensity_of. generalize 0 as x.
  induction target as [|e target IH]; intros x; [reflexivity|].
  cbn [filter fold_left]. unfold Dict.mem at 1.
  destruct (Dict.get emotion_mapping (fst e)) as [mapped|] eqn:G.
  - cbn [fold_left]. rewrite G. apply IH.
  - apply IH.
Qed.

Section Targets.
Context `{Unicode} `{Numerics}.

(** The records the emotion search picks are in falling order of similarity,
    whatever the bound of the slice. *)
Lemma emotion_choice_sorted (ms : list movie) (target : Dict.t pystr Q) (k : Z) :
  StronglySorted (fun a b => emotion_of target b <= emotion_of target a)
    (pick ms (rev (slice_from (argsort (map (emotion_of target) ms)) k))).
Proof.
  set (sims := map (emotion_of target) ms).
  apply pick_sorted. fold sims.
  apply (StronglySorted_rev (fun i j => nth i sims 0 <= nth j sims 0)).
  unfold slice_from. destruct (k <? 0)%Z; apply StronglySorted_skipn, argsort_sorted.
Qed.

(** C4. The emotion search drops exactly the labels that are not keys of the
    alias table, each with a warning and in input order, and builds the
    target vector from the remaining labels alone: the entry of a fixed
    category is the clamped intensity of the last remaining label the table
    maps to it, and 0 without one.  When that vector is all zeros the search
    warns and returns the empty list, whatever is indexed.  Otherwise, over a
    non-empty index, it returns the ranking the remaining labels give on
    their own: indexed records in falling order of their cosine similarity
    to the normalized vector, min(top-K, number of records) of them for
    top-K at least 1; over an index without records [cosine_similarity]
    raises [ValueError]. *)
Theorem emotion_search_labels (ms : list movie) (target : Dict.t pystr Q) (top_k : Z) :
  let st := index_movies initial ms in
  let aliased (e : pystr * Q) := Dict.mem (fst e) emotion_mapping in
  let dropped := filter (fun e => negb (aliased e)) target in
  let remaining := filter aliased target in
  let vector := map (intensity_of remaining) fixed_emotion_labels in
  let zero := all_zero vector in
  let similarity m :=
    cosine_similarity (l2_normalize vector) (emotion_row fixed_emotion_labels m) in
  target_vector_of fixed_emotion_labels
    (fst (convert_emotions fixed_emotion_labels target)) = vector
  /\ (zero = true ->
      emotion_search st target top_k
      = Ok (map (fun e => UnknownLabel (fst e)) dropped ++ [ZeroTargetVector], [])
      /\ emotion_search st remaining top_k = Ok ([ZeroTargetVector], []))
  /\ (zero = false -> ms = [] -> emotion_search st target top_k = ValueError)
  /\ (zero = false -> ms <> [] ->
      exists rs,
        emotion_search st target top_k
        = Ok (map (fun e => UnknownLabel (fst e)) dropped, rs)
        /\ emotion_search st remaining top_k = Ok ([], rs)
        /\ StronglySorted (fun a b : scored * Q => snd b <= snd a) rs
        /\ Forall (fun r => In (scored_movie (fst r)) ms
                            /\ snd r = similarity (scored_movie (fst r))
                            /\ emotion_score (fst r) = snd r
                            /\ semantic_score (fst r) = 0) rs
        /\ ((1 <= top_k)%Z ->
            length rs = Nat.min (Z.to_nat top_k) (length ms) /\ rs <> [])).
Proof.
  intros st aliased dropped remaining vector zero similarity.
  assert (V : forall t, (t = target \/ t = remaining) ->
              target_vector_of fixed_emotion_labels
                (fst (convert_emotions fixed_emotion_labels t)) = vector).
  { intros t [->| ->]; rewrite mapped_target_vector; unfold vector; apply map_ext;
      intros l; unfold remaining, aliased; now rewrite ?intensity_of_aliased. }
  assert (TV : forall t, (t = target \/ t = remaining) ->
               target_vector t = l2_normalize vector).
  { intros t T. unfold target_vector. now rewrite (V t T). }
  assert (Z0 : forall t, (t = target \/ t = remaining) ->
               all_zero (target_vector t) = zero).
  { intros t T. rewrite (TV t T). apply all_zero_normalize. }
  assert (Wt : search_warnings target
               = map (fun e => UnknownLabel (fst e)) dropped
                 ++ (if zero then [ZeroTargetVector] else [])).
  { unfold search_warnings. rewrite (Z0 target (or_introl eq_refl)). f_equal. f_equal.
    apply filter_ext. intros e. unfold aliased. now rewrite known_label_mem. }
  assert (Wr : search_warnings remaining = if zero then [ZeroTargetVector] else []).
  { unfold search_warnings. rewrite (Z0 remaining (or_intror eq_refl)).
    rewrite (filter_ext (fun e => negb (known_label fixed_emotion_labels (fst e)))
                        (fun e => negb (aliased e)))
      by (intros e; unfold aliased; now rewrite known_label_mem).
    unfold remaining. now rewrite (proj2 (filter_filter aliased target)). }
  split; [apply V; now left|]. split; [|split].
  - intros Z. rewrite Z in Wt, Wr. rewrite <- Wt, <- Wr.
    split; apply emotion_search_zero; rewrite Z0; tauto.
  - intros Z -> . unfold st, emotion_search.
    change (emotion_vectors (index_movies initial []))
      with (Some (@nil (list Q))).
    change (emotion_labels (index_movies initial [])) with fixed_emotion_labels.
    cbv iota. fold (target_vector target).
    rewrite (Z0 target (or_introl eq_refl)), Z. reflexivity.
  - intros Z NE. rewrite Z, app_nil_r in Wt. rewrite Z in Wr.
    assert (Zt : all_zero (target_vector target) = false) by (rewrite Z0; tauto).
    assert (Zr : all_zero (target_vector remaining) = false) by (rewrite Z0; tauto).
    assert (E : forall m, emotion_of remaining m = emotion_of target m).
    { intros m. unfold emotion_of.
      now rewrite Zt, Zr, (TV target), (TV remaining) by tauto. }
    pose proof (emotion_search_spec ms target top_k NE Zt) as Et.
    pose proof (emotion_search_spec ms remaining top_k NE Zr) as Er.
    rewrite (map_ext (emotion_of remaining) (emotion_of target) E) in Er.
    rewrite (map_ext (fun m => (with_emotion m (emotion_of remaining m),
                                emotion_of remaining m))
                     (fun m => (with_emotion m (emotion_of target m),
                                emotion_of target m))) in Er
      by (intros m; now rewrite E).
    rewrite Wt in Et. rewrite Wr in Er.
    pose proof (emotion_choice_sorted ms target
                  (- Z.min top_k (Z.of_nat (length ms)))) as Sorted.
    pose proof (pick_incl ms (rev (slice_from (argsort (map (emotion_of target) ms))
                                              (- Z.min top_k (Z.of_nat (length ms))))))
      as In_ms.
    set (chosen := pick ms _) in *.
    eexists. split; [exact Et|]. split; [exact Er|]. split; [|split].
    + apply StronglySorted_map. cbn [snd]. exact Sorted.
    + apply Forall_forall. intros r I. apply in_map_iff in I as (m & <- & I).
      cbn [fst snd scored_movie with_emotion emotion_score semantic_score].
      split; [now apply In_ms|]. split; [|split; reflexivity].
      unfold emotion_of, similarity. now rewrite Zt, (TV target) by tauto.
    + intros K.
      destruct (emotion_search_ranking ms target top_k NE K Zt) as (Et' & Ln & _).
      cbv zeta in Et', Ln. rewrite Wt, Et in Et'. injection Et' as Et'.
      rewrite Et', length_map, Ln. split; [reflexivity|].
      intros Nil. apply (f_equal (@length _)) in Nil. rewrite length_map, Ln in Nil.
      cbn in Nil.
      assert (0 < length ms)%nat by (destruct ms; [congruence | simpl; lia]). lia.
Qed.

End Targets.

Section Examples.
#[local] Existing Instance Reference.basic_unicode.
#[local] Existing Instance Reference.small_arrays.

Definition mood_movies : list movie :=
  [ sample_movie 1 (u "tearful") [(u "sadness", 1)];
    sample_movie 2 (u "cheerful") [(u "joy", 1)] ].

(** One label outside the alias table and one Chinese alias of joy: the
    first is reported, the second alone makes the target vector, and the
    record with joy is ranked first.  A target of labels outside the table
    is reported label by label and nothing is returned. *)
Lemma emotion_search_labels_witness :
  length mood_movies = 2%nat
  /\ (1 <= 2)%Z
  /\ map (intensity_of [(u "wonder", 1 # 2); (u "快乐", 3 # 4)]) fixed_emotion_labels
     = [3 # 4; 0; 0; 0; 0; 0; 0; 0; 0; 0]
  /\ (exists rs,
         emotion_search (index_movies initial mood_movies)
           [(u "wonder", 1 # 2); (u "快乐", 3 # 4)] 2
         = Ok ([UnknownLabel (u "wonder")], rs)
         /\ emotion_search (index_movies initial mood_movies) [(u "快乐", 3 # 4)] 2
            = Ok ([], rs)
         /\ length rs = 2%nat
         /\ map (fun r => (title (scored_movie (fst r)), Qred (snd r))) rs
            = [(u "cheerful", 1); (u "tearful", 0)])
  /\ emotion_search (index_movies initial mood_movies)
       [(u "wonder", 1 # 2); (u "awe", 1)] 2
     = Ok ([UnknownLabel (u "wonder"); UnknownLabel (u "awe"); ZeroTargetVector], []).
Proof.
  split; [reflexivity|]. split; [lia|]. split; [vm_compute; reflexivity|]. split.
  - pose proof (emotion_search_labels mood_movies
                  [(u "wonder", 1 # 2); (u "快乐", 3 # 4)] 2) as T.
    cbv zeta in T. destruct T as (_ & _ & _ & N).
    destruct (N ltac:(vm_compute; reflexivity) ltac:(discriminate))
      as (rs & E1 & E2 & _ & _ & L).
    destruct (L ltac:(lia)) as (L2 & _).
    exists rs. split; [exact E1|]. split; [exact E2|]. split; [exact L2|].
    assert (R : Ok ([UnknownLabel (u "wonder")], rs)
                = emotion_search (index_movies initial mood_movies)
                    [(u "wonder", 1 # 2); (u "快乐", 3 # 4)] 2) by (symmetry; exact E1).
    vm_compute in R. injection R as ->. vm_compute. reflexivity.
  - pose proof (emotion_search_labels mood_movies
                  [(u "wonder", 1 # 2); (u "awe", 1)] 2) as T.
    cbv zeta in T. destruct T as (_ & Z & _).
    exact (proj1 (Z ltac:(vm_compute; reflexivity))).
Defined.

End Examples.
End TargetFacts.

(** ** The analysis record: dominant emotions and mood tags *)

Module AnalysisFacts.
Import Crawler DictFacts RoundFacts SortFacts CrawlerFacts LoaderFacts ProfileFacts.
#[local] Open Scope Q_scope.

Lemma StronglySorted_filter {A : Type} (R : A -> A -> Prop) (p : A -> bool)
  (l : list A) : StronglySorted R l -> StronglySorted R (filter p l).
Proof.
  induction 1 as [|a l S IH F]; simpl; [constructor|].
  destruct (p a); [|assumption]. constructor; [assumption|].
  apply Forall_forall. intros b I. apply filter_In in I as [I _].
  rewrite Forall_forall in F. now apply F.
Qed.

Lemma Qsum_bound (xs : list Q) (h : Q) :
  Forall (fun x => x <= h) xs -> Qsum xs <= Qnat (length xs) * h.
Proof.
  induction 1 as [|x xs L F IH].
  - vm_compute. discriminate.
  - rewrite Qsum_cons. cbn [length]. unfold Qnat in *.
    rewrite Nat2Z.inj_succ, <- Z.add_1_r, inject_Z_plus.
    change (inject_Z 1) with 1. lra.
Qed.

(** The dominant emotions of any profile with distinct keys. *)
Lemma dominant_of_spec (profile : Dict.t pystr Q) :
  NoDup (Dict.keys profile) ->
  let value e := Dict.get_default profile e 0 in
  (length (dominant_of profile) <= 3)%nat
  /\ NoDup (dominant_of profile)
  /\ (forall e, In e (dominant_of profile) ->
                In e (Dict.keys profile) /\ 1 # 10 < value e)
  /\ StronglySorted (fun a b => value b <= value a) (dominant_of profile).
Proof.
  intros ND value. unfold dominant_of.
  set (sorted := sorted_desc snd profile).
  assert (P : Permutation sorted profile) by apply sorted_desc_perm.
  assert (NS : NoDup (map fst sorted)).
  { apply (Permutation_NoDup (Permutation_sym (Permutation_map fst P))). exact ND. }
  assert (V : forall e, In e sorted -> value (fst e) = snd e).
  { intros [k v] I. apply (Permutation_in _ P) in I. unfold value, Dict.get_default.
    now rewrite (In_get profile k v ND I). }
  assert (Top : incl (firstn 3 sorted) sorted).
  { intros e I. rewrite <- (firstn_skipn 3 sorted). apply in_app_iff. now left. }
  split; [|split; [|split]].
  - rewrite length_map.
    eapply Nat.le_trans; [apply filter_length_le|]. rewrite length_firstn. lia.
  - apply NoDup_map_filter. rewrite <- firstn_map. now apply NoDup_firstn.
  - intros k I. apply in_map_iff in I as (e & <- & I).
    apply filter_In in I as [I G]. apply Top in I. split.
    + apply (in_map fst), (Permutation_in _ P), I.
    + rewrite (V e I). now apply Qlt_bool_iff.
  - apply StronglySorted_map.
    assert (S : StronglySorted (fun a b : pystr * Q => snd b <= snd a)
                  (filter (fun e => Qlt_bool (1 # 10) (snd e)) (firstn 3 sorted)))
      by (apply StronglySorted_filter, StronglySorted_firstn, sorted_desc_sorted).
    assert (I : incl (filter (fun e => Qlt_bool (1 # 10) (snd e)) (firstn 3 sorted))
                     sorted)
      by (intros e J; apply filter_In in J as [J _]; now apply Top).
    revert S I.
    generalize (filter (fun e : pystr * Q => Qlt_bool (1 # 10) (snd e))
                       (firstn 3 sorted)) as l.
    induction l as [|a l IH]; intros S I; [constructor|].
    inversion_clear S as [|? ? S' F]. constructor.
    + apply IH; [assumption|]. intros e J. apply I. now right.
    + apply Forall_forall. intros b J. rewrite Forall_forall in F.
      rewrite (V a), (V b) by (apply I; first [now left | now right]). now apply F.
Qed.

(** The greatest value of a profile is above 0.1 when fewer than ten
    categories share a total within half a thousandth each of one. *)
Lemma dominant_of_nonempty (profile : Dict.t pystr Q) :
  profile <> [] -> (length profile <= 9)%nat ->
  Qabs (Qsum (Dict.values profile) - 1) <= Qnat (length profile) * (1 # 2000) ->
  dominant_of profile <> [].
Proof.
  intros NE L S. unfold dominant_of.
  pose proof (sorted_desc_perm snd profile) as P.
  pose proof (sorted_desc_sorted snd profile) as Sd.
  destruct (sorted_desc snd profile) as [|h sorted] eqn:E.
  - apply Permutation_nil in P. congruence.
  - cbn [firstn filter].
    assert (B : Forall (fun x => x <= snd h) (Dict.values profile)).
    { apply Forall_forall. intros x I. apply in_map_iff in I as (e & <- & I).
      apply (Permutation_in _ (Permutation_sym P)) in I.
      inversion_clear Sd as [|? ? _ F]. destruct I as [<-|I]; [lra|].
      rewrite Forall_forall in F. now apply F. }
    apply Qsum_bound in B. unfold Dict.values in B. rewrite length_map in B.
    apply Qabs_Qle_condition in S. destruct S as [S _].
    assert (N1 : 1 <= Qnat (length profile)).
    { unfold Qnat. change 1 with (inject_Z 1). rewrite <- Zle_Qle.
      destruct profile; [congruence | simpl; lia]. }
    assert (N9 : Qnat (length profile) <= 9).
    { unfold Qnat. change 9 with (inject_Z 9). rewrite <- Zle_Qle. lia. }
    assert (G : 1 # 10 < snd h).
    { fold (Dict.values profile) in B.
      set (n := Qnat (length profile)) in *. set (t := Qsum (Dict.values profile)) in *.
      destruct (Qlt_le_dec (1 # 10) (snd h)) as [G|G]; [exact G|]. exfalso. nra. }
    apply Qlt_bool_iff in G. rewrite G. discriminate.
Qed.

Section Analysis.
Context `{Unicode} `{PySet}.

Lemma analysis_fields (overview tagline : pystr) (keywords : list pystr)
  (genres : option (list pystr)) :
  let a := analyze_movie_emotion overview tagline keywords genres in
  dominant_emotions a = dominant_of (emotion_profile a)
  /\ mood_tags a = generate_mood_tags (emotion_profile a)
  /\ emotional_complexity a = length (emotion_profile a).
Proof.
  unfold analyze_movie_emotion.
  cbn [dominant_emotions mood_tags emotional_complexity emotion_profile].
  repeat split.
Qed.

(** X13. The dominant emotions of an analysed movie are at most three
    distinct categories of its profile, each with a value above 0.1, listed
    in falling order of value; the emotional complexity is the number of
    categories of the profile, between 1 and 10; and a profile of fewer than
    ten categories always has a dominant emotion. *)
Theorem dominant_emotions_of_analysis (overview tagline : pystr)
  (keywords : list pystr) (genres : option (list pystr)) :
  let a := analyze_movie_emotion overview tagline keywords genres in
  let value e := Dict.get_default (emotion_profile a) e 0 in
  (length (dominant_emotions a) <= 3)%nat
  /\ NoDup (dominant_emotions a)
  /\ (forall e, In e (dominant_emotions a) ->
                In e (Dict.keys (emotion_profile a)) /\ 1 # 10 < value e)
  /\ StronglySorted (fun x y => value y <= value x) (dominant_emotions a)
  /\ emotional_complexity a = length (Dict.keys (emotion_profile a))
  /\ (1 <= emotional_complexity a <= 10)%nat
  /\ ((emotional_complexity a <= 9)%nat -> dominant_emotions a <> []).
Proof.
  cbv zeta.
  destruct (profile_keys overview tagline keywords genres) as (ND & I & NE).
  pose proof (profile_sum overview tagline keywords genres) as S. cbv zeta in S.
  pose proof (keys_length _ ND I) as L10.
  destruct (analysis_fields overview tagline keywords genres) as (D & _ & C).
  set (a := analyze_movie_emotion overview tagline keywords genres) in *.
  clearbody a. rewrite D, C.
  destruct (dominant_of_spec (emotion_profile a) ND) as (A1 & A2 & A3 & A4).
  repeat (split; [assumption|]).
  split; [unfold Dict.keys; now rewrite length_map|]. split.
  - split; [|exact L10]. destruct (emotion_profile a); [congruence | simpl; lia].
  - intros L9. now apply dominant_of_nonempty.
Qed.

End Analysis.
End AnalysisFacts.

Module TagFacts.
Import Crawler DictFacts RoundFacts SortFacts CrawlerFacts LoaderFacts ProfileFacts.
Import AnalysisFacts.

Lemma is_prefix_app (p s : pystr) : is_prefix p (p ++ s) = true.
Proof.
  induction p as [|c p IH]; [reflexivity|]. simpl. now rewrite N.eqb_refl, IH.
Qed.

(** A tag of the first loop: an intensity word before the category. *)
Definition graded (tag : pystr) : bool :=
  is_prefix (u "非常") tag || is_prefix (u "有些") tag.

Definition grade_tags (emotion_profile : Dict.t pystr Q) : list pystr :=
  flat_map
    (fun entry =>
       if Qle_bool (15 # 100) (snd entry) then [u "非常" ++ fst entry]
       else if Qle_bool (5 # 100) (snd entry) then [u "有些" ++ fst entry]
       else [])
    emotion_profile.

Lemma grade_tags_graded (profile : Dict.t pystr Q) :
  Forall (fun t => graded t = true) (grade_tags profile).
Proof.
  apply Forall_forall. intros t I. apply in_flat_map in I as (e & _ & I).
  unfold graded.
  destruct (Qle_bool (15 # 100) (snd e)); [|destruct (Qle_bool (5 # 100) (snd e))];
    try (now destruct I); destruct I as [<-|[]]; rewrite is_prefix_app;
    [reflexivity | apply orb_true_r].
Qed.

Lemma grade_tags_keys (profile : Dict.t pystr Q) (t : pystr) :
  In t (grade_tags profile) ->
  exists k, In k (Dict.keys profile) /\ (t = u "非常" ++ k \/ t = u "有些" ++ k).
Proof.
  intros I. apply in_flat_map in I as (e & J & I). exists (fst e).
  split; [now apply in_map|].
  destruct (Qle_bool (15 # 100) (snd e)); [|destruct (Qle_bool (5 # 100) (snd e))];
    try (now destruct I); destruct I as [<-|[]]; auto.
Qed.

Lemma grades_differ (a b : pystr) : u "非常" ++ a <> u "有些" ++ b.
Proof.
  intros E. apply (f_equal (fun l => hd 0%N l)) in E. vm_compute in E. discriminate.
Qed.

Lemma grade_tags_NoDup (profile : Dict.t pystr Q) :
  NoDup (Dict.keys profile) -> NoDup (grade_tags profile).
Proof.
  induction profile as [|e profile IH]; intros ND; [constructor|].
  inversion_clear ND as [|? ? N ND']. specialize (IH ND').
  change (grade_tags (e :: profile))
    with ((if Qle_bool (15 # 100) (snd e) then [u "非常" ++ fst e]
           else if Qle_bool (5 # 100) (snd e) then [u "有些" ++ fst e]
           else []) ++ grade_tags profile).
  assert (Fresh : forall pre, pre = u "非常" \/ pre = u "有些" ->
                    ~ In (pre ++ fst e) (grade_tags profile)).
  { intros pre Pre I. apply grade_tags_keys in I as (k & K & E).
    assert (k = fst e); [|subst; contradiction].
    destruct Pre as [->| ->], E as [E|E].
    - now apply app_inv_head in E.
    - now apply grades_differ in E.
    - symmetry in E. now apply grades_differ in E.
    - now apply app_inv_head in E. }
  destruct (Qle_bool (15 # 100) (snd e)); [|destruct (Qle_bool (5 # 100) (snd e))];
    cbn [app]; try assumption; constructor; auto.
Qed.

(** Tags so far: no tag twice, each a graded tag or one of [seen]. *)
Definition tidy (seen tags : list pystr) : Prop :=
  NoDup tags /\ Forall (fun t => graded t = true \/ In t seen) tags.

Lemma tidy_append_if (seen tags : list pystr) (c : bool) (tag : pystr) :
  tidy seen tags -> graded tag = false -> existsb (str_eqb tag) seen = false ->
  tidy (tag :: seen) (if c then tags ++ [tag] else tags).
Proof.
  intros [ND F] G S.
  assert (F' : Forall (fun t => graded t = true \/ In t (tag :: seen)) tags).
  { eapply Forall_impl; [|exact F]. intros t [A|A]; [now left | right; now right]. }
  destruct c; [|split; assumption]. split.
  - apply NoDup_app; [assumption | repeat constructor; simpl; tauto |].
    intros t I [E|[]]. subst t. rewrite Forall_forall in F.
    destruct (F tag I) as [A|A].
    + congruence.
    + assert (X : existsb (str_eqb tag) seen = true)
        by (apply existsb_exists; exists tag; split;
            [assumption | now apply str_eqb_eq]).
      congruence.
  - apply Forall_app. split; [assumption|]. constructor; [|constructor].
    right. now left.
Qed.

Section Tags.
Context `{Unicode} `{PySet}.

Lemma set_order_length (small tags : list pystr) :
  NoDup small -> incl small tags -> length small <= length (set_order tags).
Proof.
  intros ND I. apply NoDup_incl_length; [assumption|].
  intros t J. apply set_order_In. now apply I.
Qed.

(** A profile with distinct categories gets at least two tags. *)
Lemma generate_mood_tags_two (profile : Dict.t pystr Q) :
  NoDup (Dict.keys profile) -> 2 <= length (generate_mood_tags profile).
Proof.
  intros ND. destruct profile as [|e profile]; [vm_compute; lia|].
  unfold generate_mood_tags. rewrite length_firstn.
  set (p := e :: profile) in *.
  fold (grade_tags p).
  match goal with
  | |- context [length ?t <? 2] => set (tags := t)
  end.
  assert (T : tidy [u "励志感人"; u "心灵平静"; u "紧张刺激"; u "悲伤但充满希望"; u "温暖治愈"]
                   tags).
  { unfold tags.
    repeat (apply tidy_append_if; [| vm_compute; reflexivity | vm_compute; reflexivity]).
    fold (grade_tags p).
    split; [now apply grade_tags_NoDup|].
    eapply Forall_impl; [|apply grade_tags_graded]. intros t G. now left. }
  destruct T as [NT _]. clearbody tags.
  assert (M : exists m, max_by snd p = Some m) by (unfold p, max_by; eexists; reflexivity).
  destruct M as ([max_emotion v] & M). rewrite M. clear M. cbv beta iota.
  match goal with
  | |- 2 <= Nat.min 6 ?n => enough (2 <= n) by lia
  end.
  destruct (length tags <? 2) eqn:L.
  - destruct (existsb (str_eqb max_emotion) [u "joy"; u "love"]);
      [|destruct (existsb (str_eqb max_emotion) [u "sadness"; u "fear"; u "tension"])];
      match goal with
      | |- 2 <= length (set_order (tags ++ ?g)) =>
        change 2 with (length g); apply set_order_length;
          [apply all_distinct_NoDup; vm_compute; reflexivity
          | intros t I; apply in_app_iff; now right]
      end.
  - apply Nat.ltb_ge in L. eapply Nat.le_trans; [exact L|].
    apply set_order_length; [assumption | apply incl_refl].
Qed.

(** X14. Every analysed movie gets at least two and at most six mood tags,
    no tag twice: the graded tags of distinct categories and the combination
    tags are pairwise different, and when fewer than two of them apply two
    generic tags are added. *)
Theorem mood_tags_of_analysis (overview tagline : pystr) (keywords : list pystr)
  (genres : option (list pystr)) :
  let a := analyze_movie_emotion overview tagline keywords genres in
  2 <= length (mood_tags a) <= 6 /\ NoDup (mood_tags a).
Proof.
  cbv zeta.
  destruct (profile_keys overview tagline keywords genres) as (ND & _ & _).
  destruct (analysis_fields overview tagline keywords genres) as (_ & M & _).
  set (a := analyze_movie_emotion overview tagline keywords genres) in *.
  clearbody a. rewrite M. split; [split|].
  - now apply generate_mood_tags_two.
  - destruct (emotion_profile a); [vm_compute; lia|].
    unfold generate_mood_tags. rewrite length_firstn. lia.
  - destruct (emotion_profile a).
    + apply all_distinct_NoDup. vm_compute. reflexivity.
    + unfold generate_mood_tags. apply NoDup_firstn, set_order_NoDup.
Qed.

End Tags.
End TagFacts.

(** ** From the JSON corpus to the matrix *)

Module CorpusFacts.
Import Recommender DictFacts RoundFacts LoaderFacts IndexFacts.
#[local] Open Scope Q_scope.

Lemma Forall2_map_same {A B C : Type} (R : B -> C -> Prop) (f : A -> B) (g : A -> C)
  (l : list A) :
  (forall a, In a l -> R (f a) (g a)) -> Forall2 R (map f l) (map g l).
Proof.
  induction l as [|a l IH]; intros E; simpl; constructor.
  - apply E. now left.
  - apply IH. intros b I. apply E. now right.
Qed.

(** The loaded profile is a function of the ten labels. *)
Lemma loaded_profile_shape (profile : Dict.t pystr Q) :
  exists f,
    fixed_emotion_profile profile = map (fun e => (e, f e)) fixed_emotion_labels
    /\ (Forall (fun entry => 0 <= snd entry) profile ->
        forall e, In e fixed_emotion_labels -> 0 <= f e <= 1).
Proof.
  set (g := fun e => Dict.get_default profile e 0).
  eexists. split; [apply fixed_emotion_profile_cases|].
  intros F e I. cbv beta.
  pose proof (zero_fill_nonneg profile F) as G0.
  pose proof (float_sum_from_nonneg _ 0 (Qle_refl 0) G0) as M.
  fold (float_sum (Dict.values (zero_fill profile))) in M.
  assert (Le : g e <= Qsum (Dict.values (zero_fill profile))).
  { apply Qsum_member; [exact G0|]. rewrite zero_fill_values. now apply in_map. }
  pose proof (get_default_nonneg profile e F) as Ge. fold (g e) in Ge |- *.
  destruct (float_sum (Dict.values (zero_fill profile))) as [t| |] eqn:S;
    [|vm_compute; split; discriminate | congruence].
  apply float_sum_finite in S. rewrite <- S in Le.
  cbn [positive_total float_divide]. destruct (Qlt_bool 0 t) eqn:P.
  - apply Qlt_bool_iff in P. apply rounded_double_unit.
    split; [apply Qle_shift_div_l | apply Qle_shift_div_r]; lra.
  - destruct (Qlt_le_dec 0 t) as [C|C]; [apply Qlt_bool_iff in C; congruence|].
    split; lra.
Qed.

(** X15. Every record loaded from the JSON corpus has the ten fixed labels,
    in their declared order, as the keys of its profile.  When the stored
    values are not negative the loaded values lie in [0, 1], and the row the
    index builds for the record is the loaded profile itself: the clamp of
    [extract_emotion_vectors] changes nothing. *)
Theorem loaded_profiles_fill_the_matrix (data : list json_movie) :
  let ms := load_movies_from_json data in
  length ms = length data
  /\ Forall (fun m => Dict.keys (emotion_profile m) = fixed_emotion_labels) ms
  /\ (Forall (fun jm => Forall (fun entry => 0 <= snd entry)
                               (or_default (json_emotion_profile jm) [])) data ->
      Forall (fun m =>
                Forall (fun v => 0 <= v <= 1) (Dict.values (emotion_profile m))
                /\ Forall2 Qeq (emotion_row fixed_emotion_labels m)
                               (Dict.values (emotion_profile m)))
             ms).
Proof.
  cbv zeta. unfold load_movies_from_json. split; [apply length_map|]. split.
  - apply Forall_forall. intros m I. apply in_map_iff in I as (jm & <- & _).
    cbn [emotion_profile].
    destruct (loaded_profile_shape (or_default (json_emotion_profile jm) []))
      as (f & E & _).
    rewrite E. unfold Dict.keys. rewrite map_map. apply map_id.
  - intros F. apply Forall_forall. intros m I. apply in_map_iff in I as (jm & <- & I).
    rewrite Forall_forall in F. specialize (F jm I).
    rewrite (emotion_row_spec _ _ NoDup_fixed_emotion_labels).
    cbn [emotion_profile].
    destruct (loaded_profile_shape (or_default (json_emotion_profile jm) []))
      as (f & E & U).
    specialize (U F). rewrite E. unfold Dict.values. rewrite map_map. cbn [snd].
    split.
    + apply Forall_forall. intros v J. apply in_map_iff in J as (e & <- & J). now apply U.
    + apply Forall2_map_same. intros e J.
      unfold Dict.get_default. rewrite (get_map_keys f _ e J).
      apply clamp01_id. now apply U.
Qed.

End CorpusFacts.

Module SplitFacts.
Import TextFacts.

Lemma contains_single (c : codepoint) (text : pystr) :
  contains [c] text = true <-> In c text.
Proof.
  rewrite contains_split. split.
  - intros (l & r & ->). apply in_app_iff. right. now left.
  - intros I. apply in_split in I as (l & r & ->). now exists l, r.
Qed.

Lemma contains_single_false (c : codepoint) (text : pystr) :
  ~ In c text -> contains [c] text = false.
Proof.
  intros N. destruct (contains [c] text) eqn:E; [|reflexivity].
  now apply contains_single in E.
Qed.

(** A text without the separator is a single piece. *)
Lemma split_from_plain (c : codepoint) (text : pystr) (maxsplit : option nat)
  (piece : pystr) :
  ~ In c text -> split_from [c] text maxsplit 0 piece = [piece ++ text].
Proof.
  revert piece; induction text as [|d text IH]; intros piece N.
  - now rewrite app_nil_r.
  - assert (E : (c =? d)%N = false) by (apply N.eqb_neq; intros ->; apply N; now left).
    assert (T : split_from [c] text maxsplit 0 (piece ++ [d]) = [piece ++ d :: text]).
    { rewrite IH by (intros I; apply N; now right). now rewrite <- app_assoc. }
    destruct maxsplit as [[|m]|]; cbn [split_from is_prefix]; rewrite ?E; cbn [andb];
      first [reflexivity | exact T].
Qed.

(** The first separator closes the first piece. *)
Lemma split_from_first (c : codepoint) (first rest : pystr) (maxsplit : option nat)
  (piece : pystr) :
  ~ In c first -> maxsplit <> Some 0 ->
  split_from [c] (first ++ c :: rest) maxsplit 0 piece
  = (piece ++ first) :: split_from [c] rest (option_map Nat.pred maxsplit) 0 [].
Proof.
  revert piece; induction first as [|d first IH]; intros piece N M.
  - rewrite app_nil_r.
    destruct maxsplit as [[|m]|]; [congruence| |];
      cbn [app split_from is_prefix]; rewrite N.eqb_refl; reflexivity.
  - assert (E : (c =? d)%N = false) by (apply N.eqb_neq; intros ->; apply N; now left).
    assert (T : split_from [c] (first ++ c :: rest) maxsplit 0 (piece ++ [d])
                = (piece ++ d :: first)
                  :: split_from [c] rest (option_map Nat.pred maxsplit) 0 []).
    { rewrite IH by (auto; intros I; apply N; now right). now rewrite <- app_assoc. }
    destruct maxsplit as [[|m]|]; [congruence| |];
      cbn [app split_from is_prefix]; rewrite E; cbn [andb]; exact T.
Qed.

(** Splitting what [join] built gives the pieces back. *)
Lemma split_join (c : codepoint) (pieces : list pystr) :
  pieces <> [] -> Forall (fun x => ~ In c x) pieces ->
  str_split (join [c] pieces) [c] = pieces.
Proof.
  intros NE F. unfold str_split. revert NE.
  induction F as [|x pieces N F IH]; intros NE; [now elim NE|].
  destruct pieces as [|y pieces].
  - cbn [join]. now rewrite split_from_plain.
  - change (join [c] (x :: y :: pieces)) with (x ++ c :: join [c] (y :: pieces)).
    rewrite split_from_first by (auto; discriminate). cbn [app option_map].
    now rewrite IH.
Qed.

Lemma In_join (c : codepoint) (sep : pystr) (pieces : list pystr) :
  In c (join sep pieces) -> In c sep \/ exists x, In x pieces /\ In c x.
Proof.
  induction pieces as [|x pieces IH]; [intros []|].
  destruct pieces as [|y pieces].
  - cbn [join]. intros I. right. exists x. split; [now left | exact I].
  - change (join sep (x :: y :: pieces)) with (x ++ sep ++ join sep (y :: pieces)).
    rewrite !in_app_iff. intros [I|[I|I]].
    + right. exists x. split; [now left | exact I].
    + now left.
    + destruct (IH I) as [J|(z & J & K)]; [now left|].
      right. exists z. split; [now right | exact K].
Qed.

End SplitFacts.

(** ** Lists in CSV cells *)

Module CellFacts.
Import Crawler Recommender Console DictFacts TextFacts SplitFacts CrawlerFacts.
Import AnalysisFacts TagFacts.

Definition bar : codepoint := 124%N.

Lemma split_cell_join (cells : list pystr) :
  Forall (fun x => ~ In bar x) cells ->
  split_cell (join (u "|") cells) = if 2 <=? length cells then cells else [].
Proof.
  intros F. unfold split_cell. change (u "|") with [bar].
  destruct cells as [|x [|y cells]].
  - reflexivity.
  - cbn [join length Nat.leb]. inversion_clear F as [|? ? N _].
    now rewrite contains_single_false.
  - change (2 <=? length (x :: y :: cells)) with true. cbv iota.
    assert (C : contains [bar] (join [bar] (x :: y :: cells)) = true).
    { apply contains_single.
      change (join [bar] (x :: y :: cells)) with (x ++ bar :: join [bar] (y :: cells)).
      apply in_app_iff. right. now left. }
    rewrite C. apply split_join; [discriminate | exact F].
Qed.

Definition bar_free (text : pystr) : bool := negb (existsb (N.eqb bar) text).

Lemma bar_free_spec (text : pystr) : bar_free text = true -> ~ In bar text.
Proof.
  unfold bar_free. rewrite negb_true_iff. intros E I.
  assert (X : existsb (N.eqb bar) text = true)
    by (apply existsb_exists; exists bar; split; [exact I | apply N.eqb_refl]).
  congruence.
Qed.

Lemma categories_bar_free (k : pystr) : In k categories -> ~ In bar k.
Proof.
  intros I. apply bar_free_spec. revert k I. apply forallb_forall.
  vm_compute. reflexivity.
Qed.

Lemma Forall_append_if (P : pystr -> Prop) (c : bool) (tag : pystr) (tags : list pystr) :
  Forall P tags -> P tag -> Forall P (if c then tags ++ [tag] else tags).
Proof.
  intros F T. destruct c; [|exact F]. apply Forall_app. split; [exact F|].
  now constructor.
Qed.

Section Cells.
Context `{Unicode} `{PySet}.

(** The tags that do not depend on a category. *)
Definition plain_tags : list pystr :=
  [ u "温暖治愈"; u "悲伤但充满希望"; u "紧张刺激"; u "心灵平静"; u "励志感人";
    u "情感丰富"; u "值得推荐"; u "引人深思"; u "情感强烈"; u "情感真挚"; u "值得一看" ].

(** A property of the graded tags of a profile and of the plain tags holds
    for the tags generated. *)
Lemma mood_tags_all (P : pystr -> Prop) (profile : Dict.t pystr Q) :
  Forall P (grade_tags profile) -> Forall P plain_tags ->
  Forall P (generate_mood_tags profile).
Proof.
  intros G F. rewrite Forall_forall in F.
  assert (Plain : forall tag, existsb (str_eqb tag) plain_tags = true -> P tag)
    by (intros tag E; apply F; now apply existsb_str_eqb).
  apply Forall_forall. intros t J.
  destruct profile as [|e profile].
  - apply Plain. apply existsb_str_eqb.
    assert (S : incl [u "情感丰富"; u "引人深思"; u "值得一看"] plain_tags).
    { intros x X. apply existsb_str_eqb. revert x X. apply forallb_forall.
      vm_compute. reflexivity. }
    apply S. exact J.
  - unfold generate_mood_tags in J. apply In_firstn in J.
    apply (proj1 (set_order_In _ _)) in J.
    set (p := e :: profile) in *. fold (grade_tags p) in J.
    assert (M : exists m, max_by snd p = Some m)
      by (unfold p, max_by; eexists; reflexivity).
    destruct M as ([max_emotion v] & M). rewrite M in J. cbv beta iota in J.
    match type of J with
    | context [length ?l <? 2] => set (tags := l) in J
    end.
    assert (T : Forall P tags).
    { unfold tags.
      repeat (apply Forall_append_if; [|apply Plain; vm_compute; reflexivity]).
      exact G. }
    clearbody tags. revert t J. apply Forall_forall.
    repeat match goal with
           | |- Forall _ (if ?c then _ else _) => destruct c
           end;
      try exact T;
      (apply Forall_app; split;
       [exact T | repeat constructor; apply Plain; vm_compute; reflexivity]).
Qed.

(** No tag of a profile over the ten categories holds the separator. *)
Lemma mood_tags_bar_free (profile : Dict.t pystr Q) :
  incl (Dict.keys profile) categories ->
  Forall (fun t => ~ In bar t) (generate_mood_tags profile).
Proof.
  intros I. apply mood_tags_all.
  - apply Forall_forall. intros t K.
    apply grade_tags_keys in K as (k & Kk & [->| ->]);
      (intros B; apply in_app_iff in B as [B|B];
       [revert B; apply bar_free_spec; vm_compute; reflexivity
       | revert B; apply categories_bar_free, I, Kk]).
  - apply Forall_forall. intros t K. apply bar_free_spec. revert t K.
    apply forallb_forall. vm_compute. reflexivity.
Qed.

(** X16. The CSV files hold a list in one cell, its items joined by "|", and
    the loader splits a cell only if it holds a "|".  A list of two or more
    items comes back as written; a list of one item comes back empty.  For an
    analysed movie this keeps the mood tags, of which there are always two or
    more, and loses the dominant emotion of a movie that has exactly one. *)
Theorem csv_lists_round_trip (overview tagline : pystr) (keywords : list pystr)
  (genres : option (list pystr)) :
  let a := analyze_movie_emotion overview tagline keywords genres in
  (forall cells, Forall (fun x => ~ In bar x) cells ->
     split_cell (join (u "|") cells) = if 2 <=? length cells then cells else [])
  /\ split_cell (join (u "|") (Crawler.mood_tags a)) = Crawler.mood_tags a
  /\ split_cell (join (u "|") (Crawler.dominant_emotions a))
     = if length (Crawler.dominant_emotions a) =? 1 then []
       else Crawler.dominant_emotions a.
Proof.
  cbv zeta. split; [exact split_cell_join|].
  destruct (profile_keys overview tagline keywords genres) as (ND & I & _).
  destruct (analysis_fields overview tagline keywords genres) as (D & M & _).
  set (a := analyze_movie_emotion overview tagline keywords genres) in *.
  clearbody a. rewrite D, M. split.
  - rewrite split_cell_join by now apply mood_tags_bar_free.
    pose proof (generate_mood_tags_two (Crawler.emotion_profile a) ND) as L.
    destruct (2 <=? length (generate_mood_tags (Crawler.emotion_profile a))) eqn:E;
      [reflexivity|].
    apply Nat.leb_gt in E. lia.
  - destruct (dominant_of_spec (Crawler.emotion_profile a) ND) as (_ & _ & K & _).
    rewrite split_cell_join.
    + destruct (dominant_of (Crawler.emotion_profile a)) as [|x [|y l]]; reflexivity.
    + apply Forall_forall. intros e J. apply categories_bar_free, I. now apply K.
Qed.

End Cells.
End CellFacts.

(** * A reference instance for numbers as text

    [decimal_numbers] prints as [format(x, '.nf')] does and reads the decimal
    numerals [float] accepts without an exponent: an optional sign, digits,
    and an optional point followed by digits. *)

Module Decimals.
Import TextFacts SplitFacts RoundFacts.

Definition digit (d : N) : codepoint := (48 + d)%N.

Definition is_digit (c : codepoint) : bool := ((48 <=? c) && (c <=? 57))%N.

(** The last [width] digits of [n]. *)
Fixpoint fixed_digits (width : nat) (n : N) : pystr :=
  match width with
  | O => []
  | S w => fixed_digits w (n / 10) ++ [digit (n mod 10)]
  end.

Fixpoint drop_zeros (digits : pystr) : pystr :=
  match digits with
  | c :: ((_ :: _) as rest) => if (c =? 48)%N then drop_zeros rest else digits
  | _ => digits
  end.

(** The digits of [n] without leading zeros. *)
Definition int_digits (n : N) : pystr :=
  drop_zeros (fixed_digits (S (N.to_nat (N.log2 n))) n).

Definition digits_value (digits : pystr) : N :=
  fold_left (fun acc c => (acc * 10 + (c - 48))%N) digits 0%N.

Definition print_fixed (x : Q) (n : nat) : pystr :=
  let z := round_half_even (x * inject_Z (10 ^ Z.of_nat n))%Q in
  let k := Z.to_N (Z.abs z) in
  let scale := (10 ^ N.of_nat n)%N in
  (if Qlt_bool x 0 then [45%N] else [])
  ++ int_digits (k / scale)
  ++ match n with
     | O => []
     | S _ => 46%N :: fixed_digits n (k mod scale)
     end.

Definition read_parts (negative : bool) (whole fraction : pystr) : option Q :=
  if forallb is_digit whole && forallb is_digit fraction
     && negb (Nat.eqb (length whole + length fraction) 0)
  then
    let n := length fraction in
    let k := (digits_value whole * 10 ^ N.of_nat n + digits_value fraction)%N in
    let z := if negative then (- Z.of_N k)%Z else Z.of_N k in
    Some (Qred (Qmake z (Z.to_pos (10 ^ Z.of_nat n))))
  else None.

Definition read_unsigned (negative : bool) (body : pystr) : option Q :=
  match str_split_max body [46%N] 1 with
  | [whole] => read_parts negative whole []
  | [whole; fraction] => read_parts negative whole fraction
  | _ => None
  end.

Definition read_decimal (text : pystr) : option Q :=
  match text with
  | 45%N :: body => read_unsigned true body
  | 43%N :: body => read_unsigned false body
  | _ => read_unsigned false text
  end.

(** *** Digits *)

Lemma digit_cases (d : N) (P : codepoint -> Prop) :
  (d < 10)%N ->
  P 48%N -> P 49%N -> P 50%N -> P 51%N -> P 52%N -> P 53%N -> P 54%N -> P 55%N ->
  P 56%N -> P 57%N -> P (digit d).
Proof.
  intros L. unfold digit.
  assert (C : (d = 0 \/ d = 1 \/ d = 2 \/ d = 3 \/ d = 4 \/ d = 5 \/ d = 6 \/ d = 7
               \/ d = 8 \/ d = 9)%N) by lia.
  intros. repeat destruct C as [->|C]; try subst d; assumption.
Qed.

Lemma digit_mod (n : N) (P : codepoint -> Prop) :
  P 48%N -> P 49%N -> P 50%N -> P 51%N -> P 52%N -> P 53%N -> P 54%N -> P 55%N ->
  P 56%N -> P 57%N -> P (digit (n mod 10)).
Proof. apply digit_cases. apply N.mod_lt. discriminate. Qed.

Lemma fixed_digits_all (P : codepoint -> Prop) (width : nat) (n : N) :
  P 48%N -> P 49%N -> P 50%N -> P 51%N -> P 52%N -> P 53%N -> P 54%N -> P 55%N ->
  P 56%N -> P 57%N -> Forall P (fixed_digits width n).
Proof.
  intros. revert n. induction width as [|w IH]; intros n; [constructor|].
  cbn [fixed_digits]. apply Forall_app. split; [apply IH|].
  constructor; [|constructor]. now apply digit_mod.
Qed.

Lemma length_fixed_digits (width : nat) (n : N) : length (fixed_digits width n) = width.
Proof.
  revert n. induction width as [|w IH]; intros n; [reflexivity|].
  cbn [fixed_digits]. rewrite length_app, IH. simpl. lia.
Qed.

Lemma drop_zeros_incl (digits : pystr) : incl (drop_zeros digits) digits.
Proof.
  induction digits as [|c digits IH]; [apply incl_refl|].
  destruct digits as [|d rest]; [apply incl_refl|].
  cbn [drop_zeros]. destruct (c =? 48)%N; [|apply incl_refl].
  intros x I. right. now apply IH.
Qed.

Lemma drop_zeros_nonempty (digits : pystr) : digits <> [] -> drop_zeros digits <> [].
Proof.
  induction digits as [|c digits IH]; intros NE; [assumption|].
  destruct digits as [|d rest]; [assumption|].
  cbn [drop_zeros]. destruct (c =? 48)%N; [apply IH|]; discriminate.
Qed.

Lemma value_from (digits : pystr) (acc : N) :
  fold_left (fun acc c => (acc * 10 + (c - 48))%N) digits acc
  = (acc * 10 ^ N.of_nat (length digits) + digits_value digits)%N.
Proof.
  unfold digits_value. revert acc. induction digits as [|c digits IH]; intros acc.
  - cbn. lia.
  - cbn [fold_left length]. rewrite IH, (IH (0 * 10 + (c - 48))%N).
    rewrite Nat2N.inj_succ, N.pow_succ_r'. lia.
Qed.

Lemma value_app (a b : pystr) :
  digits_value (a ++ b)
  = (digits_value a * 10 ^ N.of_nat (length b) + digits_value b)%N.
Proof. unfold digits_value at 1. rewrite fold_left_app. apply value_from. Qed.

Lemma value_drop_zeros (digits : pystr) :
  digits_value (drop_zeros digits) = digits_value digits.
Proof.
  induction digits as [|c digits IH]; [reflexivity|].
  destruct digits as [|d rest]; [reflexivity|].
  change (drop_zeros (c :: d :: rest))
    with (if (c =? 48)%N then drop_zeros (d :: rest) else c :: d :: rest).
  destruct (c =? 48)%N eqn:E; [|reflexivity].
  apply N.eqb_eq in E. subst c. rewrite IH.
  change (48%N :: d :: rest) with ([48%N] ++ d :: rest). rewrite value_app.
  reflexivity.
Qed.

Lemma value_digit (d : N) : (d < 10)%N -> digits_value [digit d] = d.
Proof. intros L. unfold digits_value, digit. cbn [fold_left]. lia. Qed.

Lemma value_fixed_digits (width : nat) (n : N) :
  digits_value (fixed_digits width n) = (n mod 10 ^ N.of_nat width)%N.
Proof.
  revert n. induction width as [|w IH]; intros n.
  - cbn. now rewrite N.mod_1_r.
  - cbn [fixed_digits]. rewrite value_app, IH.
    rewrite value_digit by (apply N.mod_lt; discriminate).
    cbn [length]. change (N.of_nat 1) with 1%N. rewrite N.pow_1_r.
    rewrite Nat2N.inj_succ, N.pow_succ_r'.
    rewrite (N.Div0.mod_mul_r n 10 (10 ^ N.of_nat w)). lia.
Qed.

Lemma value_int_digits (n : N) : digits_value (int_digits n) = n.
Proof.
  unfold int_digits. rewrite value_drop_zeros, value_fixed_digits.
  apply N.mod_small.
  destruct n as [|p]; [cbn; lia|].
  pose proof (N.log2_spec (N.pos p) ltac:(lia)) as [_ U].
  rewrite Nat2N.inj_succ, N2Nat.id.
  eapply N.lt_le_trans; [exact U|].
  apply N.pow_le_mono_l. lia.
Qed.

Lemma is_digit_cases (P : codepoint -> Prop) (digits : pystr) :
  Forall (fun c => c = 48 \/ c = 49 \/ c = 50 \/ c = 51 \/ c = 52 \/ c = 53
                   \/ c = 54 \/ c = 55 \/ c = 56 \/ c = 57)%N digits ->
  forallb is_digit digits = true /\ ~ In 46%N digits
  /\ forallb (fun c => existsb (N.eqb c) (u "0123456789.-")) digits = true.
Proof.
  intros F. split; [|split].
  - apply forallb_forall. intros c I. rewrite Forall_forall in F.
    specialize (F c I).
    repeat destruct F as [->|F]; try subst c; reflexivity.
  - intros I. rewrite Forall_forall in F. specialize (F _ I). lia.
  - apply forallb_forall. intros c I. rewrite Forall_forall in F.
    specialize (F c I).
    repeat destruct F as [->|F]; try subst c; vm_compute; reflexivity.
Qed.

Lemma fixed_digits_digits (width : nat) (n : N) :
  Forall (fun c => c = 48 \/ c = 49 \/ c = 50 \/ c = 51 \/ c = 52 \/ c = 53
                   \/ c = 54 \/ c = 55 \/ c = 56 \/ c = 57)%N
         (fixed_digits width n).
Proof. apply fixed_digits_all; tauto. Qed.

Lemma int_digits_digits (n : N) :
  Forall (fun c => c = 48 \/ c = 49 \/ c = 50 \/ c = 51 \/ c = 52 \/ c = 53
                   \/ c = 54 \/ c = 55 \/ c = 56 \/ c = 57)%N
         (int_digits n)
  /\ int_digits n <> [].
Proof.
  unfold int_digits. split.
  - apply Forall_forall. intros c I. apply drop_zeros_incl in I.
    pose proof (fixed_digits_digits (S (N.to_nat (N.log2 n))) n) as F.
    rewrite Forall_forall in F. now apply F.
  - apply drop_zeros_nonempty. intros E.
    apply (f_equal (@length codepoint)) in E. rewrite length_fixed_digits in E.
    discriminate.
Qed.

(** *** The two laws *)

Lemma print_fixed_plain (x : Q) (n : nat) :
  forallb (fun c => existsb (N.eqb c) (u "0123456789.-")) (print_fixed x n) = true.
Proof.
  unfold print_fixed. cbv zeta.
  set (k := Z.to_N (Z.abs (round_half_even (x * inject_Z (10 ^ Z.of_nat n))))).
  destruct (int_digits_digits (k / 10 ^ N.of_nat n)) as [D _].
  pose proof (proj2 (proj2 (is_digit_cases (fun _ => True) _ D))) as W.
  pose proof (proj2 (proj2 (is_digit_cases (fun _ => True) _
                              (fixed_digits_digits n (k mod 10 ^ N.of_nat n))))) as F.
  rewrite forallb_forall in W, F.
  apply forallb_forall. intros c I. apply in_app_iff in I as [I|I].
  - destruct (Qlt_bool x 0); [|destruct I]. destruct I as [<-|[]]. reflexivity.
  - apply in_app_iff in I as [I|I]; [now apply W|].
    destruct n as [|n]; [destruct I|]. destruct I as [<-|I]; [reflexivity|].
    now apply F.
Qed.

Lemma read_print_unsigned (negative : bool) (k : N) (n : nat) :
  read_unsigned negative
    (int_digits (k / 10 ^ N.of_nat n)
     ++ match n with
        | O => []
        | S _ => 46%N :: fixed_digits n (k mod 10 ^ N.of_nat n)
        end)
  = Some (Qred (Qmake (if negative then (- Z.of_N k)%Z else Z.of_N k)
                      (Z.to_pos (10 ^ Z.of_nat n)))).
Proof.
  destruct (int_digits_digits (k / 10 ^ N.of_nat n)) as [D NE].
  destruct (is_digit_cases (fun _ => True) _ D) as (Dw & Pw & _).
  assert (Pow : (10 ^ N.of_nat n <> 0)%N) by (apply N.pow_nonzero; discriminate).
  unfold read_unsigned, str_split_max. destruct n as [|n].
  - rewrite app_nil_r, split_from_plain by exact Pw. cbn [app].
    unfold read_parts. rewrite Dw. cbn [forallb andb length].
    rewrite Nat.add_0_r.
    assert (L : Nat.eqb (length (int_digits (k / 10 ^ N.of_nat 0))) 0 = false).
    { apply Nat.eqb_neq. intros E. apply length_zero_iff_nil in E. contradiction. }
    rewrite L. cbn [negb]. cbv zeta. rewrite value_int_digits.
    change (N.of_nat 0) with 0%N. change (digits_value []) with 0%N.
    rewrite N.pow_0_r, N.div_1_r, N.mul_1_r, N.add_0_r. reflexivity.
  - rewrite split_from_first by (auto; discriminate).
    cbn [app option_map Nat.pred].
    destruct (is_digit_cases (fun _ => True) _
                (fixed_digits_digits (S n) (k mod 10 ^ N.of_nat (S n))))
      as (Df & Pf & _).
    rewrite split_from_plain by exact Pf. cbn [app].
    unfold read_parts. rewrite Dw, Df. cbn [andb].
    rewrite length_fixed_digits.
    assert (L : Nat.eqb (length (int_digits (k / 10 ^ N.of_nat (S n))) + S n) 0 = false)
      by (apply Nat.eqb_neq; lia).
    rewrite L. cbn [negb]. cbv zeta.
    rewrite value_int_digits, value_fixed_digits.
    rewrite N.Div0.mod_mod by exact Pow.
    assert (K : (k / 10 ^ N.of_nat (S n) * 10 ^ N.of_nat (S n)
                 + k mod 10 ^ N.of_nat (S n))%N = k).
    { rewrite (N.div_mod k (10 ^ N.of_nat (S n)) Pow) at 3. lia. }
    now rewrite K.
Qed.

Lemma read_print (x : Q) (n : nat) :
  read_decimal (print_fixed x n) = Some (py_round x n).
Proof.
  unfold print_fixed, py_round. cbv zeta.
  set (scale := inject_Z (10 ^ Z.of_nat n)).
  assert (SP : (0 < scale)%Q).
  { unfold scale. change 0%Q with (inject_Z 0). rewrite <- Zlt_Qlt.
    apply Z.pow_pos_nonneg; lia. }
  set (z := round_half_even (x * scale)).
  set (k := Z.to_N (Z.abs z)).
  pose proof (read_print_unsigned (Qlt_bool x 0) k n) as R.
  set (tail := match n with
               | O => []
               | S _ => 46%N :: fixed_digits n (k mod 10 ^ N.of_nat n)
               end) in *.
  assert (Zk : (if Qlt_bool x 0 then (- Z.of_N k)%Z else Z.of_N k) = z).
  { unfold k. rewrite Z2N.id by lia. destruct (Qlt_bool x 0) eqn:S.
    - apply LoaderFacts.Qlt_bool_iff in S.
      assert (Zn : (z <= 0)%Z).
      { apply round_half_even_le. change (inject_Z 0) with 0%Q. nra. }
      lia.
    - assert (P : (0 <= x)%Q).
      { destruct (Qlt_le_dec x 0) as [L|L]; [|exact L].
        apply LoaderFacts.Qlt_bool_iff in L. congruence. }
      assert (Zp : (0 <= z)%Z).
      { apply round_half_even_ge. change (inject_Z 0) with 0%Q. nra. }
      lia. }
  rewrite Zk in R. rewrite <- R. clear R Zk.
  destruct (Qlt_bool x 0); [reflexivity|]. cbn [app].
  destruct (int_digits_digits (k / 10 ^ N.of_nat n)) as [D NE].
  destruct (int_digits (k / 10 ^ N.of_nat n)) as [|d rest]; [congruence|].
  inversion_clear D as [|? ? Dd _]. cbn [app].
  repeat destruct Dd as [->|Dd]; try subst d; reflexivity.
Qed.

#[export] Instance decimal_numbers : PyFloat :=
  {| float_of_str := read_decimal;
     format_fixed := print_fixed;
     format_fixed_plain := print_fixed_plain;
     float_of_format := read_print |}.

End Decimals.

(** ** The console *)

Module ConsoleFacts.
Import Recommender Console RoundFacts LoaderFacts.
#[local] Open Scope Q_scope.






End ConsoleFacts.

(** ** Counters *)

Module CounterFacts.
Import Crawler Exports DictFacts.

Lemma get_bump_one (counter : Dict.t pystr nat) (key k : pystr) :
  Dict.get_default (bump counter key 1) k 0
  = (Dict.get_default counter k 0 + if str_eqb key k then 1 else 0)%nat.
Proof.
  unfold bump, Dict.get_default. destruct (str_eqb key k) eqn:E.
  - apply str_eqb_eq in E. subst k. rewrite get_set_same. reflexivity.
  - rewrite get_set_other; [lia|]. intros ->.
    rewrite (proj2 (str_eqb_eq k k) eq_refl) in E. discriminate.
Qed.

Fixpoint occurrences (k : pystr) (keys : list pystr) : nat :=
  match keys with
  | [] => 0
  | key :: rest => (if str_eqb key k then 1 else 0) + occurrences k rest
  end.

Lemma get_count_all (keys : list pystr) (counter : Dict.t pystr nat) (k : pystr) :
  Dict.get_default (count_all keys counter) k 0
  = (Dict.get_default counter k 0 + occurrences k keys)%nat.
Proof.
  unfold count_all. revert counter; induction keys as [|key keys IH]; intros counter.
  - simpl. lia.
  - cbn [fold_left occurrences]. rewrite IH, get_bump_one. lia.
Qed.

Lemma occurrences_NoDup (k : pystr) (keys : list pystr) :
  NoDup keys -> (occurrences k keys <= 1)%nat.
Proof.
  induction 1 as [|key keys N ND IH]; [simpl; lia|]. cbn [occurrences].
  destruct (str_eqb key k) eqn:E; [|lia].
  apply str_eqb_eq in E. subst key.
  assert (Z0 : occurrences k keys = 0%nat); [|lia].
  clear IH ND. induction keys as [|x keys IH]; [reflexivity|]. cbn [occurrences].
  destruct (str_eqb x k) eqn:X.
  - apply str_eqb_eq in X. subst x. exfalso. apply N. now left.
  - apply IH. intros I. apply N. now right.
Qed.

(** A counter keeps distinct keys, positive counts and only the keys it was
    given. *)
Definition counted (P : pystr -> Prop) (counter : Dict.t pystr nat) : Prop :=
  NoDup (Dict.keys counter)
  /\ Forall (fun e => P (fst e) /\ (0 < snd e)%nat) counter.

Lemma count_all_counted (P : pystr -> Prop) (keys : list pystr)
  (counter : Dict.t pystr nat) :
  counted P counter -> Forall P keys -> counted P (count_all keys counter).
Proof.
  unfold count_all. intros C F. revert counter C.
  induction F as [|key keys Pk F IH]; intros counter C; [exact C|].
  cbn [fold_left]. apply IH. destruct C as [ND Fc]. split.
  - unfold bump. now apply NoDup_keys_set.
  - unfold bump. apply Forall_set; [exact Fc|]. cbn [fst snd]. split; [exact Pk | lia].
Qed.

(** The counter over the lists of a batch, each list without repetition:
    no count exceeds the number of lists. *)
Lemma counter_of_lists (P : pystr -> Prop) {A : Type} (keys_of : A -> list pystr)
  (batch : list A) :
  Forall (fun a => NoDup (keys_of a) /\ Forall P (keys_of a)) batch ->
  let counter :=
    fold_left (fun counter a => count_all (keys_of a) counter) batch [] in
  counted P counter
  /\ Forall (fun e => (snd e <= length batch)%nat) counter.
Proof.
  intros F.
  assert (G : forall counter,
             counted P counter ->
             let r := fold_left (fun counter a => count_all (keys_of a) counter)
                                batch counter in
             counted P r
             /\ forall k, (Dict.get_default r k 0
                           <= Dict.get_default counter k 0 + length batch)%nat).
  { induction F as [|a batch [ND Fa] F IH]; intros counter C.
    - cbn. split; [exact C|]. intros k. lia.
    - cbn [fold_left length].
      destruct (IH (count_all (keys_of a) counter)) as [C' B].
      { now apply count_all_counted. }
      split; [exact C'|]. intros k. specialize (B k).
      rewrite get_count_all in B. pose proof (occurrences_NoDup k _ ND). lia. }
  cbv zeta. destruct (G []) as [C B]; [split; constructor|].
  split; [exact C|]. apply Forall_forall. intros [k n] I.
  specialize (B k). unfold Dict.get_default in B at 1.
  rewrite (In_get _ k n (proj1 C) I) in B. cbn in B. cbn [snd]. lia.
Qed.

End CounterFacts.

(** ** Reviews and statistics *)

Module ExportFacts.
Import Crawler Catalog Exports DictFacts RoundFacts LoaderFacts CrawlerFacts.
Import TextFacts SentimentFacts CatalogFacts AnalysisFacts TagFacts CorpusFacts.
Import CounterFacts.
#[local] Open Scope Q_scope.

Lemma mean_unit (xs : list Q) :
  xs <> [] -> Forall (fun x => 0 <= x <= 1) xs -> 0 <= mean xs <= 1.
Proof.
  intros NE F. unfold mean.
  assert (P : 0 < Qnat (length xs)).
  { apply Qnat_pos. destruct xs; [congruence | simpl; lia]. }
  assert (L : 0 <= Qsum xs).
  { apply Qsum_nonneg. eapply Forall_impl; [|exact F]. intros x [A _]. exact A. }
  assert (U : Qsum xs <= Qnat (length xs) * 1).
  { apply Qsum_bound. eapply Forall_impl; [|exact F]. intros x [_ A]. exact A. }
  split; [apply Qle_shift_div_l | apply Qle_shift_div_r]; lra.
Qed.

Section Reviews.
Context `{Unicode}.

(** X18. The reviews kept for a movie are the first [max_reviews] of the
    response, or all but the last [-max_reviews] when [max_reviews] is
    negative, and none when the request fails; each carries the sentiment of
    its own text and the source "tmdb".  The average sentiment written to the
    enhanced CSV is 0.5 for a movie without reviews and a number of [0, 1]
    otherwise. *)
Theorem reviews_and_average (results : list tmdb_review) (max_reviews : Z) :
  let reviews := get_movie_reviews (Some (Some results)) max_reviews in
  get_movie_reviews None max_reviews = []
  /\ get_movie_reviews (Some None) max_reviews = []
  /\ length reviews
     = (if (max_reviews <? 0)%Z then length results - Z.to_nat (- max_reviews)
        else Nat.min (Z.to_nat max_reviews) (length results))%nat
  /\ Forall (fun r => review_sentiment_of r = analyze_review_sentiment (content r)
                      /\ source r = u "tmdb"
                      /\ 0 <= score (review_sentiment_of r) <= 1) reviews
  /\ avg_sentiment [] = 1 # 2
  /\ 0 <= avg_sentiment reviews <= 1.
Proof.
  cbv zeta. split; [reflexivity|]. split.
  { unfold get_movie_reviews, slice_to. cbn [field_or length].
    destruct (max_reviews <? 0)%Z; now rewrite firstn_nil. }
  unfold get_movie_reviews. cbn [field_or].
  match goal with
  | |- length ?l = _ /\ _ => set (reviews := l)
  end.
  assert (F : Forall (fun r => review_sentiment_of r = analyze_review_sentiment (content r)
                               /\ source r = u "tmdb"
                               /\ 0 <= score (review_sentiment_of r) <= 1)
                     reviews).
  { apply Forall_forall. intros r I. apply in_map_iff in I as (x & <- & _).
    cbn [review_sentiment_of content source]. split; [reflexivity|].
    split; [reflexivity|]. apply sentiment_score_unit. }
  split; [|split; [exact F|split; [reflexivity|]]].
  - unfold reviews. rewrite length_map. unfold slice_to.
    destruct (max_reviews <? 0)%Z; rewrite length_firstn; lia.
  - clearbody reviews.
    destruct reviews as [|r reviews]; [unfold avg_sentiment; lra|].
    unfold avg_sentiment. apply py_round_unit. apply mean_unit; [discriminate|].
    apply Forall_forall. intros x I. apply in_map_iff in I as (y & <- & I).
    rewrite Forall_forall in F. apply (F y I).
Qed.

End Reviews.

Lemma distribution_lines_spec (P : pystr -> Prop) (counter : Dict.t pystr nat)
  (total : nat) :
  (0 < total)%nat -> counted P counter ->
  Forall (fun e => (snd e <= total)%nat) counter ->
  let lines := distribution_lines counter total in
  Forall (fun line =>
            P (fst (fst line))
            /\ (1 <= snd (fst line) <= total)%nat
            /\ snd line == Qnat (snd (fst line)) / Qnat total * 100
            /\ 0 < snd line <= 100) lines
  /\ NoDup (map (fun line => fst (fst line)) lines)
  /\ StronglySorted (fun a b => (snd (fst b) <= snd (fst a))%nat) lines.
Proof.
  intros T [ND F] B. cbv zeta. unfold distribution_lines.
  set (sorted := sorted_desc (fun e : pystr * nat => Qnat (snd e)) counter).
  assert (Pm : Permutation sorted counter) by apply SortFacts.sorted_desc_perm.
  pose proof (Qnat_pos total T) as TP.
  split; [|split].
  - apply Forall_forall. intros line I. apply in_map_iff in I as ([k n] & <- & I).
    apply (Permutation_in _ Pm) in I. cbn [fst snd].
    rewrite Forall_forall in F, B. destruct (F _ I) as [Pk Pos].
    specialize (B _ I). cbn [fst snd] in Pk, Pos, B.
    split; [exact Pk|]. split; [lia|]. split; [reflexivity|].
    pose proof (share_unit n total B T) as [_ U].
    assert (NP : 0 < Qnat n) by now apply Qnat_pos.
    assert (S0 : 0 < Qnat n / Qnat total) by (apply Qlt_shift_div_l; lra).
    split; lra.
  - rewrite map_map. cbn [fst].
    apply (Permutation_NoDup (Permutation_sym (Permutation_map fst Pm))). exact ND.
  - apply SortFacts.StronglySorted_map. cbn [fst snd].
    eapply SortFacts.StronglySorted_impl; [|apply SortFacts.sorted_desc_sorted].
    intros a b L. cbn beta in L. unfold Qnat in L. rewrite <- Zle_Qle in L. lia.
Qed.

Section Statistics.
Context `{Unicode} `{PySet}.

(** The lists of an analysis: distinct dominant categories, distinct tags. *)
Lemma analysis_lists (overview tagline : pystr) (keywords : list pystr)
  (genres : option (list pystr)) :
  let a := analyze_movie_emotion overview tagline keywords genres in
  NoDup (dominant_emotions a)
  /\ Forall (fun e => In e categories) (dominant_emotions a)
  /\ NoDup (mood_tags a).
Proof.
  cbv zeta.
  destruct (profile_keys overview tagline keywords genres) as (ND & I & _).
  destruct (analysis_fields overview tagline keywords genres) as (D & M & _).
  set (a := analyze_movie_emotion overview tagline keywords genres) in *.
  clearbody a. rewrite D, M.
  destruct (dominant_of_spec _ ND) as (_ & N & K & _).
  split; [exact N|]. split.
  - apply Forall_forall. intros e J. apply I. exact (proj1 (K e J)).
  - destruct (emotion_profile a).
    + apply all_distinct_NoDup. vm_compute. reflexivity.
    + unfold generate_mood_tags. apply NoDup_firstn, set_order_NoDup.
Qed.

Variable top_rated : Z -> list listed.
Variable details_of : Z -> option item_detail.
Variable reviews_of : Z -> Z -> list review_data.

(** X19. The statistics of a crawled batch.  Writing them for an empty batch
    stops with a division by zero at the average number of reviews.  For a
    batch of one movie or more, the review total is the sum of the review
    counts; the dominant emotions listed are distinct categories, each
    counted for at least one and at most all of the movies, so that every
    percentage lies in (0, 100], in falling order of count; and the same
    holds for the mood tags, of which at most twenty are listed. *)
Theorem statistics_of_crawl (num_movies max_reviews_per_movie : Z) :
  let batch :=
    crawl_top_rated_movies top_rated details_of reviews_of num_movies
      max_reviews_per_movie in
  let sound (lines : list (pystr * nat * Q)) :=
    Forall (fun line =>
              (1 <= snd (fst line) <= length batch)%nat
              /\ snd line == Qnat (snd (fst line)) / Qnat (length batch) * 100
              /\ 0 < snd line <= 100) lines
    /\ NoDup (map (fun line => fst (fst line)) lines)
    /\ StronglySorted (fun a b => (snd (fst b) <= snd (fst a))%nat) lines in
  save_statistics [] = ZeroDivisionError
  /\ (batch = [] -> save_statistics batch = ZeroDivisionError)
  /\ (batch <> [] ->
      exists s,
        save_statistics batch = Written s
        /\ total_movies s = length batch
        /\ total_reviews s = nat_sum (map review_count batch)
        /\ reviews_per_movie s == Qnat (total_reviews s) / Qnat (length batch)
        /\ sound (emotion_lines s)
        /\ Forall (fun line => In (fst (fst line)) categories) (emotion_lines s)
        /\ sound (mood_tag_lines s)
        /\ (length (mood_tag_lines s) <= 20)%nat).
Proof.
  cbv zeta. split; [reflexivity|]. split; [now intros ->|].
  set (batch := crawl_top_rated_movies top_rated details_of reviews_of num_movies
                  max_reviews_per_movie).
  intros NE.
  assert (Pos : (0 < length batch)%nat) by (destruct batch; [congruence | simpl; lia]).
  assert (A : Forall (fun c =>
                        exists overview tagline keywords genres,
                          md_dominant_emotions (merged c)
                          = dominant_emotions
                              (analyze_movie_emotion overview tagline keywords genres)
                          /\ md_mood_tags (merged c)
                             = mood_tags
                                 (analyze_movie_emotion overview tagline keywords genres)
                          /\ review_count c = length (reviews c)) batch).
  { apply Forall_forall. intros c I. unfold batch, crawl_top_rated_movies in I.
    apply in_map_iff in I as (movie & <- & _).
    cbn [merged review_count reviews]. unfold merge_record.
    cbn [md_dominant_emotions md_mood_tags]. eexists _, _, _, _.
    split; [reflexivity|]. split; reflexivity. }
  assert (De : Forall (fun c => NoDup (md_dominant_emotions (merged c))
                                /\ Forall (fun e => In e categories)
                                          (md_dominant_emotions (merged c))) batch).
  { eapply Forall_impl; [|exact A]. intros c (o & t & k & g & -> & _ & _).
    destruct (analysis_lists o t k g) as (X & Y & _). split; [exact X | exact Y]. }
  assert (Mt : Forall (fun c => NoDup (md_mood_tags (merged c))
                                /\ Forall (fun e => True) (md_mood_tags (merged c)))
                      batch).
  { eapply Forall_impl; [|exact A]. intros c (o & t & k & g & _ & -> & _).
    destruct (analysis_lists o t k g) as (_ & _ & X). split; [exact X|].
    apply Forall_forall. intros e _. exact I. }
  assert (Rc : map (fun movie => length (reviews movie)) batch = map review_count batch).
  { apply map_ext_in. intros c I. rewrite Forall_forall in A.
    destruct (A c I) as (_ & _ & _ & _ & _ & _ & R). symmetry. exact R. }
  clear A.
  destruct (counter_of_lists _ _ batch De) as [Ce Be].
  destruct (counter_of_lists _ _ batch Mt) as [Cm Bm].
  destruct (distribution_lines_spec _ _ (length batch) Pos Ce Be) as (E1 & E2 & E3).
  destruct (distribution_lines_spec _ _ (length batch) Pos Cm Bm) as (M1 & M2 & M3).
  unfold save_statistics. fold batch.
  assert (Z0 : (length batch =? 0)%nat = false) by (apply Nat.eqb_neq; lia).
  rewrite Z0. eexists. split; [reflexivity|].
  cbn [total_movies total_reviews reviews_per_movie emotion_lines mood_tag_lines].
  split; [reflexivity|]. split; [exact (f_equal nat_sum Rc)|].
  split; [reflexivity|]. split; [|split; [|split]].
  - split; [|split; [exact E2 | exact E3]].
    eapply Forall_impl; [|exact E1]. intros line (_ & R). exact R.
  - eapply Forall_impl; [|exact E1]. intros line (C & _). exact C.
  - split; [|split].
    + apply Forall_forall. intros line I. apply In_firstn in I.
      rewrite Forall_forall in M1. destruct (M1 line I) as (_ & R). exact R.
    + rewrite <- firstn_map. apply NoDup_firstn. exact M2.
    + apply SortFacts.StronglySorted_firstn. exact M3.
  - rewrite length_firstn. lia.
Qed.

End Statistics.
End ExportFacts.

(** ** The emotion vector cell *)

Module VectorFacts.
Import Crawler Recommender Exports Console DictFacts RoundFacts SortFacts.
Import TextFacts SplitFacts CrawlerFacts AnalysisFacts.

Definition colon : codepoint := 58%N.

(** What may stand in a cell next to the separators: no "|", no ":", no
    white space. *)
Definition solid (c : codepoint) : bool :=
  negb (c =? CellFacts.bar)%N && negb (c =? colon)%N && negb (is_space c).

Lemma solid_spec (text : pystr) :
  forallb solid text = true ->
  ~ In CellFacts.bar text /\ ~ In colon text /\ str_strip text = text.
Proof.
  intros F. rewrite forallb_forall in F.
  assert (S : forall t : pystr, (forall c, In c t -> is_space c = false) ->
                str_lstrip t = t).
  { intros t A. destruct t as [|c t]; [reflexivity|]. cbn [str_lstrip].
    now rewrite (A c (or_introl eq_refl)). }
  assert (P : forall c, In c text -> is_space c = false).
  { intros c I. specialize (F c I). unfold solid in F.
    apply andb_true_iff in F as [_ F]. now apply negb_true_iff in F. }
  split; [|split].
  - intros I. specialize (F _ I). unfold solid in F.
    rewrite N.eqb_refl in F. discriminate.
  - intros I. specialize (F _ I). unfold solid in F.
    rewrite N.eqb_refl, andb_false_r in F. discriminate.
  - unfold str_strip. rewrite (S text P), S, rev_involutive; [reflexivity|].
    intros c I. apply P. now apply in_rev.
Qed.

Lemma categories_solid (k : pystr) : In k categories -> forallb solid k = true.
Proof. revert k. apply forallb_forall. vm_compute. reflexivity. Qed.

Section Vector.
Context `{PyFloat}.

Lemma format_fixed_solid (x : Q) (n : nat) : forallb solid (format_fixed x n) = true.
Proof.
  pose proof (format_fixed_plain x n) as P. rewrite forallb_forall in P.
  apply forallb_forall. intros c I. specialize (P c I).
  apply existsb_exists in P as (d & D & E). apply N.eqb_eq in E. subst d.
  clear I. revert c D. apply forallb_forall. vm_compute. reflexivity.
Qed.

(** One pair of the cell. *)
Definition pair_text (entry : pystr * Q) : pystr :=
  fst entry ++ u ":" ++ format_fixed (snd entry) 3.

Lemma pair_text_parts (entry : pystr * Q) :
  forallb solid (fst entry) = true ->
  ~ In CellFacts.bar (pair_text entry)
  /\ contains (u ":") (pair_text entry) = true
  /\ str_split_max (pair_text entry) (u ":") 1
     = [fst entry; format_fixed (snd entry) 3].
Proof.
  intros K. destruct (solid_spec _ K) as (K1 & K2 & _).
  destruct (solid_spec _ (format_fixed_solid (snd entry) 3)) as (V1 & V2 & _).
  unfold pair_text. change (u ":") with [colon]. split; [|split].
  - rewrite !in_app_iff. intros [I|[I|I]]; [tauto| |tauto].
    destruct I as [I|[]]. discriminate I.
  - apply contains_single, in_app_iff. right. now left.
  - unfold str_split_max. cbn [app].
    rewrite split_from_first by (auto; discriminate). cbn [app option_map Nat.pred].
    f_equal. now rewrite split_from_plain.
Qed.

(** The loop of the loader over the pairs written for [entries]. *)
Lemma parse_pairs (entries : list (pystr * Q)) (profile : Dict.t pystr Q) :
  Forall (fun e => forallb solid (fst e) = true) entries ->
  fold_left
    (fun emotion_profile pair =>
       if contains (u ":") pair
       then
         match str_split_max pair (u ":") 1 with
         | [emotion; value] =>
           match float_of_str (str_strip value) with
           | Some x => Dict.set emotion_profile (str_strip emotion) x
           | None => emotion_profile
           end
         | _ => emotion_profile
         end
       else emotion_profile)
    (map pair_text entries) profile
  = fold_left (fun d e => Dict.set d (fst e) (py_round (snd e) 3)) entries profile.
Proof.
  intros F. revert profile. induction F as [|e entries K F IH]; intros profile.
  - reflexivity.
  - cbn [map fold_left]. destruct (pair_text_parts e K) as (_ & C & S).
    rewrite C, S.
    destruct (solid_spec _ K) as (_ & _ & Sk).
    destruct (solid_spec _ (format_fixed_solid (snd e) 3)) as (_ & _ & Sv).
    cbv beta iota. unfold pystr in *. rewrite Sv, float_of_format, Sk. apply IH.
Qed.

(** The cell written for a profile over the categories reads back as its
    three strongest entries, their values rounded to three decimals. *)
Lemma vector_cell_parsed (profile : Dict.t pystr Q) :
  profile <> [] -> NoDup (Dict.keys profile) -> incl (Dict.keys profile) categories ->
  parse_emotion_vector (get_emotion_vector_string profile)
  = map (fun e => (fst e, py_round (snd e) 3)) (firstn 3 (sorted_desc snd profile)).
Proof.
  intros NE ND I.
  set (top := firstn 3 (sorted_desc snd profile)).
  assert (P : Permutation (sorted_desc snd profile) profile) by apply sorted_desc_perm.
  assert (InTop : incl top profile).
  { intros e J. apply (Permutation_in _ P). unfold top in J.
    rewrite <- (firstn_skipn 3 (sorted_desc snd profile)). apply in_app_iff. now left. }
  assert (K : Forall (fun e => forallb solid (fst e) = true) top).
  { apply Forall_forall. intros e J. apply categories_solid, I.
    apply (in_map fst). now apply InTop. }
  assert (NT : NoDup (map fst top)).
  { unfold top. rewrite <- firstn_map. apply NoDup_firstn.
    apply (Permutation_NoDup (Permutation_sym (Permutation_map fst P))). exact ND. }
  assert (TopNE : top <> []).
  { unfold top. destruct (sorted_desc snd profile) as [|h l] eqn:E; [|discriminate].
    apply Permutation_nil in P. congruence. }
  assert (Cell : get_emotion_vector_string profile = join (u "|") (map pair_text top)).
  { destruct profile; [congruence | reflexivity]. }
  rewrite Cell. clear Cell.
  assert (Bars : Forall (fun x => ~ In CellFacts.bar x) (map pair_text top)).
  { apply Forall_forall. intros x J. apply in_map_iff in J as (e & <- & J).
    rewrite Forall_forall in K. apply (pair_text_parts e (K e J)). }
  assert (Colon : contains (u ":") (join (u "|") (map pair_text top)) = true).
  { destruct top as [|e top']; [congruence|].
    rewrite Forall_forall in K. destruct (pair_text_parts e (K e (or_introl eq_refl)))
      as (_ & C & _).
    apply contains_split in C as (l & r & E). apply contains_split.
    destruct top' as [|e' top''].
    - cbn [map join]. now exists l, r.
    - change (join (u "|") (map pair_text (e :: e' :: top'')))
        with (pair_text e ++ u "|" ++ join (u "|") (map pair_text (e' :: top''))).
      rewrite E. exists l, (r ++ u "|" ++ join (u "|") (map pair_text (e' :: top''))).
      now rewrite <- !app_assoc. }
  unfold parse_emotion_vector. rewrite Colon.
  destruct (join (u "|") (map pair_text top)) as [|c cell] eqn:J.
  { apply contains_split in Colon as (l & r & E). destruct l; discriminate. }
  rewrite <- J. change (u "|") with [CellFacts.bar].
  rewrite split_join; [|destruct top; [congruence | discriminate] | exact Bars].
  rewrite (parse_pairs top [] K).
  now apply (fold_set_map fst (fun e => py_round (snd e) 3)).
Qed.

Context `{Unicode} `{PySet}.

(** X20. The emotion vector cell of the enhanced CSV and the CSV loader.  The
    cell written for an analysed movie lists its three strongest categories as
    "category:value" with three decimals, joined by "|"; read by the loader it
    gives back exactly those entries with their values, so a profile of more
    than three categories comes back with three.  An empty cell gives the ten
    fixed labels, all zero. *)
Theorem emotion_vector_round_trip (overview tagline : pystr) (keywords : list pystr)
  (genres : option (list pystr)) :
  let profile :=
    Crawler.emotion_profile (analyze_movie_emotion overview tagline keywords genres) in
  let top := firstn 3 (sorted_desc snd profile) in
  get_emotion_vector_string profile
  = join (u "|") (map (fun e => fst e ++ u ":" ++ format_fixed (snd e) 3) top)
  /\ csv_profile (get_emotion_vector_string profile) = top
  /\ length top = Nat.min 3 (length profile)
  /\ csv_profile [] = map (fun e => (e, 0%Q)) fixed_emotion_labels.
Proof.
  cbv zeta.
  destruct (profile_keys overview tagline keywords genres) as (ND & I & NE).
  pose proof (profile_spec overview tagline keywords genres) as S. cbv zeta in S.
  set (scores := emotion_scores_of overview tagline keywords genres) in *.
  clearbody scores.
  set (a := analyze_movie_emotion overview tagline keywords genres) in *.
  clearbody a.
  split; [|split; [|split]].
  - destruct (Crawler.emotion_profile a); [congruence | reflexivity].
  - unfold csv_profile. rewrite (vector_cell_parsed _ NE ND I).
    assert (R : map (fun e : pystr * Q => (fst e, py_round (snd e) 3))
                    (firstn 3 (sorted_desc snd (Crawler.emotion_profile a)))
                = firstn 3 (sorted_desc snd (Crawler.emotion_profile a))).
    { rewrite <- (map_id (firstn 3 _)) at 2. apply map_ext_in. intros [k v] J.
      cbn [fst snd]. f_equal.
      assert (J' : In (k, v) (Crawler.emotion_profile a)).
      { apply (Permutation_in _ (sorted_desc_perm snd _)).
        rewrite <- (firstn_skipn 3 (sorted_desc snd _)). apply in_app_iff. now left. }
      rewrite S in J'. apply in_map_iff in J' as (e & E & _).
      injection E as _ <-. apply py_round_idem. }
    rewrite R.
    destruct (firstn 3 (sorted_desc snd (Crawler.emotion_profile a))) as [|h l] eqn:T;
      [|reflexivity].
    exfalso. destruct (sorted_desc snd (Crawler.emotion_profile a)) as [|x xs] eqn:E;
      [|discriminate].
    pose proof (sorted_desc_perm snd (Crawler.emotion_profile a)) as P.
    rewrite E in P. apply Permutation_nil in P. congruence.
  - rewrite length_firstn, sorted_desc_length. reflexivity.
  - unfold csv_profile, parse_emotion_vector, or_zero_profile.
    apply (fold_set_map (fun e => e) (fun _ => 0%Q)).
    rewrite map_id. apply LoaderFacts.NoDup_fixed_emotion_labels.
Qed.

End Vector.

Section Examples.
#[local] Existing Instance Reference.basic_unicode.
#[local] Existing Instance Reference.first_seen.
#[local] Existing Instance Decimals.decimal_numbers.

(** Three categories, printed with three decimals and read back. *)
Lemma emotion_vector_round_trip_witness :
  get_emotion_vector_string
    (Crawler.emotion_profile
       (analyze_movie_emotion (u "happy happy tear hope") [] [] None))
  = u "joy:0.667|sadness:0.167|hope:0.167"
  /\ csv_profile
       (get_emotion_vector_string
          (Crawler.emotion_profile
             (analyze_movie_emotion (u "happy happy tear hope") [] [] None)))
     = [(u "joy", thousandths 667); (u "sadness", thousandths 167);
        (u "hope", thousandths 167)].
Proof.
  split; [vm_compute; reflexivity|].
  pose proof (emotion_vector_round_trip (u "happy happy tear hope") [] [] None) as T.
  cbv zeta in T. destruct T as (_ & T & _).
  etransitivity; [exact T|]. vm_compute. reflexivity.
Defined.

End Examples.
End VectorFacts.
